(** * L-VEIGe vocabulary trainer: choice generation, question synthesis,
      persistence and answer processing

    A shallow embedding of the Python sources

      - [modules/enhanced_candidate_gen.py]  (class EnhancedCandidateGenerator)
      - [modules/enhanced_question_gen.py]   (class EnhancedQuestionGenerator)
      - [modules/result_processor.py]        (class ResultProcessor)
      - [database/db_manager.py]             (class DatabaseManager)

    Conventions of the embedding.

      - Python [str] is [string]; [lower], [upper] and [strip] act on the
        ASCII range.
      - Python [float] is IEEE 754 binary64 with rounding to nearest even,
        taken from the Standard Library's [SpecFloat]: the value returned
        by [_calculate_distractor_score] is computed in [Score64].  The
        same expressions over exact rationals [Q] (thresholds 3/10 and
        7/10) are in [Score]; the selection of distractors is stated on
        the order of these.
      - [random.sample], [random.shuffle], [DataFrame.sample] and the
        iteration order of a Python [set] consume an explicit entropy
        [tape]; every function using them threads the tape.
      - The SQLite tables are lists of rows in insertion order; a
        [cursor.fetchone()] is the first matching row.  A statement
        succeeds unless it violates a constraint of the schema; timestamps
        and the row ids of [choices] and [learning_logs] are left out, and
        integers are unbounded, except that [save_learning_log], whose
        failure its caller catches, refuses an integer outside SQLite's
        64 bits.
      - A raised Python exception is the [Raise] constructor of [res]. *)

From Stdlib Require Import QArith Qminmax Qabs Ascii.
From Stdlib Require Import Floats.SpecFloat.
From stdpp Require Import gmap strings list fin_maps.

Local Open Scope string_scope.
Local Open Scope list_scope.
Local Open Scope nat_scope.

(** ** Python runtime: exceptions, strings, randomness *)

Inductive exn : Type :=
  | ValueError (msg : string)
  | ZeroDivisionError
  | IntegrityError
  | OverflowError.

Inductive res (A : Type) : Type :=
  | Ok (a : A)
  | Raise (e : exn).
Arguments Ok {A} a.
Arguments Raise {A} e.

Definition res_bind {A B} (m : res A) (k : A -> res B) : res B :=
  match m with
  | Ok a => k a
  | Raise e => Raise e
  end.

Module Py.

Definition chars (s : string) : list ascii := String.list_ascii_of_string s.
Definition of_chars (l : list ascii) : string := String.string_of_list_ascii l.

Definition len (s : string) : nat := String.length s.

Definition lower_char (c : ascii) : ascii :=
  let n := nat_of_ascii c in
  if (65 <=? n) && (n <=? 90) then ascii_of_nat (n + 32) else c.

Definition upper_char (c : ascii) : ascii :=
  let n := nat_of_ascii c in
  if (97 <=? n) && (n <=? 122) then ascii_of_nat (n - 32) else c.

Fixpoint lower (s : string) : string :=
  match s with
  | EmptyString => EmptyString
  | String c s' => String (lower_char c) (lower s')
  end.

Fixpoint upper (s : string) : string :=
  match s with
  | EmptyString => EmptyString
  | String c s' => String (upper_char c) (upper s')
  end.

(** [str.isspace] on the ASCII range: TAB, LF, VT, FF, CR, FS, GS, RS,
    US and SPACE. *)
Definition is_space (c : ascii) : bool :=
  let n := nat_of_ascii c in
  ((9 <=? n) && (n <=? 13)) || ((28 <=? n) && (n <=? 32)).

Fixpoint lstrip (l : list ascii) : list ascii :=
  match l with
  | c :: l' => if is_space c then lstrip l' else l
  | [] => []
  end.

Definition strip (s : string) : string :=
  of_chars (rev (lstrip (rev (lstrip (chars s))))).

(** Truthiness of a string: [bool(s)]. *)
Definition truthy (s : string) : bool :=
  match s with EmptyString => false | _ => true end.

Definition startswith_apostrophe (s : string) : bool :=
  match s with
  | String c _ => if decide (c = "'"%char) then true else false
  | EmptyString => false
  end.

Definition endswith_apostrophe (s : string) : bool :=
  match rev (chars s) with
  | c :: _ => if decide (c = "'"%char) then true else false
  | [] => false
  end.

End Py.

(** *** The [Levenshtein] package

    [Levenshtein.distance] is the classical edit distance (insertions,
    deletions and substitutions of cost one), computed row by row. *)

Module Levenshtein.

(** [row a t left diag prev]: the cells of the row of character [a]
    after the first, where [left] is the cell just written, [diag] the
    cell above it and [prev] the rest of the row above. *)
Fixpoint row (a : ascii) (t : list ascii) (left diag : nat)
    (prev : list nat) : list nat :=
  match t, prev with
  | b :: t', up :: prev' =>
      let subst := diag + (if decide (a = b) then 0 else 1) in
      let v := Nat.min (Nat.min (S up) (S left)) subst in
      v :: row a t' v up prev'
  | _, _ => []
  end.

Fixpoint rows (s t : list ascii) (prev : list nat) : list nat :=
  match s with
  | [] => prev
  | a :: s' =>
      match prev with
      | p0 :: prest => rows s' t (S p0 :: row a t (S p0) p0 prest)
      | [] => []
      end
  end.

Definition distance (s t : string) : nat :=
  let t' := Py.chars t in
  List.last (rows (Py.chars s) t' (seq 0 (S (length t')))) 0.


End Levenshtein.

(** *** The [random] module

    The entropy source is a tape of naturals; [randbelow n] reads one cell
    and reduces it modulo [n].  An exhausted tape reads as zeros. *)

Definition tape : Type := list nat.

Module Random.

Definition randbelow (n : nat) (t : tape) : nat * tape :=
  match t with
  | [] => (0, [])
  | x :: t' => (x mod n, t')
  end.

(** [random.sample(population, k)]: [k] elements at pairwise distinct
    positions, in selection order.  Every call site clamps [k] to the
    population size, so the [ValueError] for a larger [k] is not
    modelled: the selection stops when the pool is empty. *)
Fixpoint sample {A} (pool : list A) (k : nat) (t : tape) : list A * tape :=
  match k with
  | 0 => ([], t)
  | S k' =>
      match pool with
      | [] => ([], t)
      | _ :: _ =>
          let '(j, t1) := randbelow (length pool) t in
          match pool !! j with
          | Some x =>
              let '(r, t2) := sample (delete j pool) k' t1 in
              (x :: r, t2)
          | None => ([], t1)
          end
      end
  end.

(** [random.shuffle(x)]: a permutation of [x] chosen by the tape. *)
Definition shuffle {A} (l : list A) (t : tape) : list A * tape :=
  sample l (length l) t.

End Random.

(** ** Distractor scoring ([EnhancedCandidateGenerator._calculate_distractor_score]) *)

(** *** The expressions of the score over exact rationals *)

Module Score.

Local Open Scope Q_scope.

Definition Qnat (n : nat) : Q := inject_Z (Z.of_nat n).

Definition Qlt_bool (x y : Q) : bool := negb (Qle_bool y x).

(** Python's [max(0, x)] on numbers. *)
Definition max0 (x : Q) : Q := if Qlt_bool 0 x then x else 0.

(** [self.similarity_weight = 0.7] *)
Definition similarity_weight : Q := 7 # 10.

(** The local [distance] and [max_len]. *)
Definition distance (target candidate : string) : nat :=
  Levenshtein.distance (Py.lower target) (Py.lower candidate).

Definition max_len (target candidate : string) : nat :=
  Nat.max (Py.len target) (Py.len candidate).

(** The local [normalized_distance = distance / max_len]. *)
Definition normalized_distance (target candidate : string) : Q :=
  Qnat (distance target candidate) / Qnat (max_len target candidate).

(** The local [similarity_score]. *)
Definition similarity_score (target candidate : string) : Q :=
  if (max_len target candidate =? 0)%nat then 0
  else
    let normalized_distance := normalized_distance target candidate in
    if Qle_bool (3 # 10) normalized_distance
       && Qle_bool normalized_distance (7 # 10) then 1
    else if Qlt_bool normalized_distance (3 # 10) then
      normalized_distance / (3 # 10)
    else max0 (1 - (normalized_distance - (7 # 10)) / (3 # 10)).

(** The local [length_diff = abs(len(target) - len(candidate))]. *)
Definition length_diff (target candidate : string) : nat :=
  Z.to_nat (Z.abs (Z.of_nat (Py.len target) - Z.of_nat (Py.len candidate))).

(** The local [length_score]; the division raises when both words are
    empty. *)
Definition length_score (target candidate : string) : res Q :=
  let d := Nat.max (Py.len target) (Py.len candidate) in
  if (d =? 0)%nat then Raise ZeroDivisionError
  else Ok (max0 (1 - Qnat (length_diff target candidate) / Qnat d)).

Definition _calculate_distractor_score (target candidate : string) : res Q :=
  let similarity_score := similarity_score target candidate in
  res_bind (length_score target candidate) (fun length_score =>
  let total_score :=
    similarity_weight * similarity_score
    + (1 - similarity_weight) * length_score in
  Ok total_score).

End Score.

(** *** Python floats *)

Module Float64.

Definition prec : Z := 53.
Definition emax : Z := 1024.

Definition float : Type := spec_float.

(** [float(z)] for a Python [int]; exact below [2 ^ 53]. *)
Definition of_int (z : Z) : float := binary_normalize prec emax z 0 false.

Definition add : float -> float -> float := SFadd prec emax.
Definition sub : float -> float -> float := SFsub prec emax.
Definition mul : float -> float -> float := SFmul prec emax.
Definition div : float -> float -> float := SFdiv prec emax.
Definition leb : float -> float -> bool := SFleb.
Definition ltb : float -> float -> bool := SFltb.

(** [a / b] on two Python [int]s with [b] other than 0: the quotient
    rounded once, which for operands below [2 ^ 53] is the quotient of
    their conversions. *)
Definition truediv (a b : Z) : float := div (of_int a) (of_int b).

(** The literals [0.3], [0.7] and [1.0]: the floats nearest to 3/10, to
    7/10 and to 1. *)
Definition lit_0_3 : float := Eval vm_compute in truediv 3 10.
Definition lit_0_7 : float := Eval vm_compute in truediv 7 10.
Definition lit_1_0 : float := Eval vm_compute in of_int 1.

Definition zero : float := S754_zero false.

(** Python's [max(0, x)]: [x] when [x > 0], else the [0]. *)
Definition max0 (x : float) : float := if ltb zero x then x else zero.


Definition eqb (x y : float) : bool :=
  match x, y with
  | S754_zero s1, S754_zero s2 => Bool.eqb s1 s2
  | S754_infinity s1, S754_infinity s2 => Bool.eqb s1 s2
  | S754_nan, S754_nan => true
  | S754_finite s1 m1 e1, S754_finite s2 m2 e2 =>
      Bool.eqb s1 s2 && (m1 =? m2)%positive && (e1 =? e2)%Z
  | _, _ => false
  end.

End Float64.

(** *** The score as the code computes it *)

Module Score64.
Import Float64.

(** [self.similarity_weight = 0.7] *)
Definition similarity_weight : float := lit_0_7.

(** The local [similarity_score], from [distance] and [max_len]. *)
Definition similarity_of (distance max_len : nat) : float :=
  if (max_len =? 0)%nat then zero
  else
    let normalized_distance :=
      truediv (Z.of_nat distance) (Z.of_nat max_len) in
    if leb lit_0_3 normalized_distance && leb normalized_distance lit_0_7
    then lit_1_0
    else if ltb normalized_distance lit_0_3 then
      div normalized_distance lit_0_3
    else max0 (sub lit_1_0 (div (sub normalized_distance lit_0_7) lit_0_3)).

(** The local [length_score], from [length_diff] and the larger length;
    the division raises when both words are empty. *)
Definition length_of (length_diff max_len : nat) : res float :=
  if (max_len =? 0)%nat then Raise ZeroDivisionError
  else
    Ok (max0 (sub lit_1_0
                (truediv (Z.of_nat length_diff) (Z.of_nat max_len)))).

(** The local [total_score]. *)
Definition total_of (similarity_score length_score : float) : float :=
  add (mul similarity_weight similarity_score)
      (mul (sub (of_int 1) similarity_weight) length_score).

Definition similarity_score (target candidate : string) : float :=
  similarity_of (Score.distance target candidate)
    (Score.max_len target candidate).

Definition length_score (target candidate : string) : res float :=
  length_of (Score.length_diff target candidate)
    (Nat.max (Py.len target) (Py.len candidate)).

Definition _calculate_distractor_score (target candidate : string)
    : res float :=
  let similarity_score := similarity_score target candidate in
  res_bind (length_score target candidate) (fun length_score =>
  Ok (total_of similarity_score length_score)).

End Score64.

(** *** The two side by side

    The exact expressions as functions of the distance and the lengths,
    and the comparison of the float with the exact value on every
    combination of lengths up to a bound. *)

Module ScoreGrid.
Import Float64 Score64.

Local Open Scope Q_scope.








End ScoreGrid.


(** ** Generic list helpers used by the embedding *)

(** [Series.drop_duplicates().tolist()]: the first occurrence of every
    value is kept. *)
Fixpoint drop_duplicates (l : list string) : list string :=
  match l with
  | [] => []
  | x :: l' => x :: filter (fun y => y ≠ x) (drop_duplicates l')
  end.

(** [list.sort(key=...)] is stable; [le x y] says that [x] may stay in
    front of [y]. *)
Fixpoint sort_insert {A} (le : A -> A -> bool) (x : A) (l : list A) : list A :=
  match l with
  | [] => [x]
  | y :: l' => if le x y then x :: y :: l' else y :: sort_insert le x l'
  end.

Fixpoint stable_sort {A} (le : A -> A -> bool) (l : list A) : list A :=
  match l with
  | [] => []
  | x :: l' => sort_insert le x (stable_sort le l')
  end.

(** [list.index(x)]; [None] is the [ValueError]. *)
Fixpoint list_index (x : string) (l : list string) : option nat :=
  match l with
  | [] => None
  | y :: l' => if decide (y = x) then Some 0 else S <$> list_index x l'
  end.

(** ** Data model *)

(** The question dictionary built by [_process_caption_with_spacy] and
    read back by [get_question_by_id]; all keys are present.  The caption
    id is the key [id] of the former and the column [caption_id] of the
    latter. *)
Record question_data : Type := QuestionData {
  image_id : string;
  id : string;                       (* caption id *)
  caption : string;
  divided : list string;
  blankquestion : list string;
  answer : string;
  lemma : string;
  pos : string;
  cefr : string
}.

(** A row of the vocabulary CSV ([self.coco_vocab]), every cell of which
    holds text.  A cell that [pandas.read_csv] reads as missing ([NaN]:
    an empty cell, [NA], [null]) is outside this type; on such a [Word]
    the candidate sources raise [AttributeError], and nothing below says
    that a call on an arbitrary file returns. *)
Record vocab_row : Type := VocabRow {
  Word : string;
  POS : string;
  CEFR : string;
  CaptionID : string;
  ImageID : string
}.

(** ** Persistence ([database/db_manager.py]) *)

Module DatabaseManager.

(** Table [questions]; [UNIQUE(lemma, pos, cefr)], [qid] is
    [AUTOINCREMENT]. *)
Record question_row : Type := QuestionRow {
  qid : Z;
  q_data : question_data
}.

(** Table [choices]. *)
Record choice_row : Type := ChoiceRow {
  c_qid : Z;
  choice_text : string;
  is_correct : bool;
  choice_order : nat
}.

(** Table [learning_logs]. *)
Record log_row : Type := LogRow {
  l_user_id : Z;
  l_qid : Z;
  selected_choice : string;
  l_is_correct : bool;
  generated_image_path : option string;
  l_session_id : string
}.

(** Table [learning_sessions], keyed by its primary key [session_id]. *)
Record session_row : Type := SessionRow {
  user_id : Z;
  mode : string;
  pos_filter : string;
  cefr_filter : string;
  total_questions : Z;
  current_question : Z;
  is_completed : bool
}.

Record db : Type := Db {
  questions : list question_row;
  questions_seq : Z;               (* sqlite_sequence of [questions] *)
  choices : list choice_row;
  learning_logs : list log_row;
  learning_sessions : gmap string session_row
}.

Definition empty : db :=
  {| questions := []; questions_seq := 0; choices := [];
     learning_logs := []; learning_sessions := ∅ |}.

(** [WHERE lemma = ? AND pos = ? AND cefr = ?] *)
Definition natural_key_is (l p c : string) (r : question_row) : bool :=
  bool_decide (lemma (q_data r) = l)
  && bool_decide (pos (q_data r) = p)
  && bool_decide (cefr (q_data r) = c).

(** [SELECT qid FROM questions WHERE lemma = ? AND pos = ? AND cefr = ?]
    followed by [fetchone()]. *)
Definition select_qid (d : db) (l p c : string) : option Z :=
  qid <$> List.find (natural_key_is l p c) (questions d).

(** [save_question]: the [INSERT] violates the [UNIQUE] constraint, and
    raises [sqlite3.IntegrityError], exactly when a row with the same
    natural key exists; the handler then reads that row's [qid] back. *)
Definition save_question (d : db) (question_data : question_data) : Z * db :=
  match select_qid d (lemma question_data) (pos question_data)
                     (cefr question_data) with
  | Some existing => (existing, d)
  | None =>
      let qid := (questions_seq d + 1)%Z in
      (qid,
       {| questions := questions d ++ [QuestionRow qid question_data];
          questions_seq := qid;
          choices := choices d;
          learning_logs := learning_logs d;
          learning_sessions := learning_sessions d |})
  end.

(** The constraint [UNIQUE(lemma, pos, cefr)] on the table. *)
Definition unique_keys (d : db) : Prop :=
  forall r1 r2,
    r1 ∈ questions d -> r2 ∈ questions d ->
    lemma (q_data r1) = lemma (q_data r2) ->
    pos (q_data r1) = pos (q_data r2) ->
    cefr (q_data r1) = cefr (q_data r2) ->
    r1 = r2.

Definition get_question_by_id (d : db) (q : Z) : option question_data :=
  q_data <$> List.find (fun r => bool_decide (qid r = q)) (questions d).

(** The rows that the loop over [enumerate(choices)] in [save_choices]
    inserts when its counter starts at [i]. *)
Definition fresh_rows (q : Z) (correct_answer : string) (i : nat)
    (cs : list string) : list choice_row :=
  (fun '(i, choice) =>
     ChoiceRow q choice (bool_decide (choice = correct_answer)) i)
  <$> zip (seq i (length cs)) cs.

(** [save_choices]: [DELETE FROM choices WHERE qid = ?], then one
    [INSERT] per element of [enumerate(choices)]. *)
Definition save_choices (d : db) (q : Z) (cs : list string)
    (correct_answer : string) : db :=
  let kept := filter (fun r => c_qid r ≠ q) (choices d) in
  let fresh := fresh_rows q correct_answer 0 cs in
  {| questions := questions d;
     questions_seq := questions_seq d;
     choices := kept ++ fresh;
     learning_logs := learning_logs d;
     learning_sessions := learning_sessions d |}.

(** [SELECT choice_text FROM choices WHERE qid = ? ORDER BY choice_order] *)
Definition get_choices_by_qid (d : db) (q : Z) : list string :=
  choice_text
  <$> stable_sort (fun r1 r2 => choice_order r1 <=? choice_order r2)
        (filter (fun r => c_qid r = q) (choices d)).

(** A Python [int] bound to a parameter of a statement must fit SQLite's
    signed 64-bit [INTEGER]; [sqlite3] raises [OverflowError] otherwise. *)
Definition sqlite_integer (z : Z) : bool :=
  ((- 2 ^ 63 <=? z) && (z <? 2 ^ 63))%Z.

(** [save_learning_log]: the [INSERT] binds [user_id] and [qid]; when it
    raises, the transaction is rolled back and no row is written. *)
Definition save_learning_log (d : db) (log_data : log_row) : res db :=
  if sqlite_integer (l_user_id log_data) && sqlite_integer (l_qid log_data)
  then
    Ok {| questions := questions d;
          questions_seq := questions_seq d;
          choices := choices d;
          learning_logs := learning_logs d ++ [log_data];
          learning_sessions := learning_sessions d |}
  else Raise OverflowError.

Definition set_sessions (d : db) (s : gmap string session_row) : db :=
  {| questions := questions d;
     questions_seq := questions_seq d;
     choices := choices d;
     learning_logs := learning_logs d;
     learning_sessions := s |}.

Definition get_session_info (d : db) (session_id : string)
    : option session_row :=
  learning_sessions d !! session_id.

(** [UPDATE learning_sessions SET current_question = current_question + 1
    WHERE session_id = ?] *)
Definition update_session_progress (d : db) (session_id : string) : db :=
  set_sessions d
    (alter (fun s =>
              {| user_id := user_id s; mode := mode s;
                 pos_filter := pos_filter s; cefr_filter := cefr_filter s;
                 total_questions := total_questions s;
                 current_question := (current_question s + 1)%Z;
                 is_completed := is_completed s |})
           session_id (learning_sessions d)).

(** [UPDATE learning_sessions SET is_completed = TRUE WHERE session_id = ?] *)
Definition complete_session (d : db) (session_id : string) : db :=
  set_sessions d
    (alter (fun s =>
              {| user_id := user_id s; mode := mode s;
                 pos_filter := pos_filter s; cefr_filter := cefr_filter s;
                 total_questions := total_questions s;
                 current_question := current_question s;
                 is_completed := true |})
           session_id (learning_sessions d)).

(** [create_learning_session], with the fresh [uuid4] token as an
    argument.  The [INSERT] raises when the token is already in the table
    ([session_id] is the primary key) and when [mode] fails the [CHECK]
    constraint. *)
Definition create_learning_session (d : db) (session_id : string)
    (user_id : Z) (mode pos cefr : string) (total_questions : Z) : res db :=
  match learning_sessions d !! session_id with
  | Some _ => Raise IntegrityError
  | None =>
      if negb (bool_decide (mode = "learning")
               || bool_decide (mode = "review"))
      then Raise IntegrityError
      else
      Ok (set_sessions d
            (<[session_id :=
                 {| user_id := user_id; mode := mode;
                    pos_filter := Py.lower pos; cefr_filter := Py.upper cefr;
                    total_questions := total_questions;
                    current_question := 0; is_completed := false |}]>
               (learning_sessions d)))
  end.

End DatabaseManager.

(** ** Distractor selection ([modules/enhanced_candidate_gen.py]) *)

(** [list(set(candidates))]: the distinct elements in an order that Python
    leaves unspecified; the order is read from the tape. *)
Definition list_of_set (l : list string) (t : tape) : list string * tape :=
  Random.shuffle (drop_duplicates l) t.

Module EnhancedCandidateGenerator.
Import DatabaseManager.

Definition num_distractors : nat := 2.
Definition total_choices : nat := 3.

Section Generator.

(** [self.coco_vocab] *)
Variable coco_vocab : list vocab_row.

(** The frame selection shared by the candidate sources:
    [POS.str.lower() == pos.lower()], [CEFR.str.upper() == cefr.upper()]
    and [Word.str.lower() != lemma.lower()], then the distinct words. *)
Definition same_level_words (lemma pos cefr : string) : list string :=
  drop_duplicates
    (Word <$> filter (fun r =>
                Py.lower (POS r) = Py.lower pos
                ∧ Py.upper (CEFR r) = Py.upper cefr
                ∧ Py.lower (Word r) ≠ Py.lower lemma) coco_vocab).

Definition _get_similarity_candidates (lemma pos cefr : string)
    (max_candidates : nat) : list string :=
  let filtered_vocab := same_level_words lemma pos cefr in
  match filtered_vocab with
  | [] => []
  | _ :: _ =>
      let distances :=
        omap (fun word =>
                let distance :=
                  Levenshtein.distance (Py.lower lemma) (Py.lower word) in
                if (1 <=? distance)
                   && (distance <=?
                         Nat.min (Py.len lemma) (Py.len word) / 2 + 2)
                then Some (word, distance) else None)
             filtered_vocab in
      let distances :=
        stable_sort (fun x y => snd x <=? snd y) distances in
      fst <$> take max_candidates distances
  end.

Definition _get_random_candidates (lemma pos cefr : string)
    (max_candidates : nat) (t : tape) : list string * tape :=
  let filtered_vocab := same_level_words lemma pos cefr in
  match filtered_vocab with
  | [] => ([], t)
  | _ :: _ =>
      let sample_size := Nat.min max_candidates (length filtered_vocab) in
      Random.sample filtered_vocab sample_size t
  end.

Definition cefr_levels : list string :=
  ["A1"; "A2"; "B1"; "B2"; "C1"; "C2"].

Definition adjacent_levels (cefr : string) : list string :=
  match list_index (Py.upper cefr) cefr_levels with
  | Some current_index =>
      (if 0 <? current_index
       then option_list (cefr_levels !! (current_index - 1)) else [])
      ++ (if current_index <? length cefr_levels - 1
          then option_list (cefr_levels !! (current_index + 1)) else [])
  | None => []
  end.

(** The words of one adjacent level; [adj_cefr] is compared as it is. *)
Definition adjacent_level_words (lemma pos adj_cefr : string)
    : list string :=
  drop_duplicates
    (Word <$> filter (fun r =>
                Py.lower (POS r) = Py.lower pos
                ∧ Py.upper (CEFR r) = adj_cefr
                ∧ Py.lower (Word r) ≠ Py.lower lemma) coco_vocab).

Fixpoint relaxed_loop (lemma pos : string) (levels : list string)
    (per_level : nat) (relaxed_candidates : list string) (t : tape)
    : list string * tape :=
  match levels with
  | [] => (relaxed_candidates, t)
  | adj_cefr :: rest =>
      let candidates := adjacent_level_words lemma pos adj_cefr in
      match candidates with
      | [] => relaxed_loop lemma pos rest per_level relaxed_candidates t
      | _ :: _ =>
          let sample_size := Nat.min per_level (length candidates) in
          let '(picked, t1) := Random.sample candidates sample_size t in
          relaxed_loop lemma pos rest per_level
            (relaxed_candidates ++ picked) t1
      end
  end.

Definition _get_relaxed_cefr_candidates (lemma pos cefr : string)
    (max_candidates : nat) (t : tape) : list string * tape :=
  let adjacent_levels := adjacent_levels cefr in
  relaxed_loop lemma pos adjacent_levels
    (max_candidates / length adjacent_levels) [] t.

(** The scoring loop of [_select_best_distractors]. *)
Fixpoint score_all (target_lemma : string) (candidates : list string)
    : res (list (string * Q)) :=
  match candidates with
  | [] => Ok []
  | candidate :: rest =>
      res_bind (Score._calculate_distractor_score target_lemma candidate)
        (fun score =>
      res_bind (score_all target_lemma rest) (fun scored =>
      Ok ((candidate, score) :: scored)))
  end.

Definition _select_best_distractors (target_lemma : string)
    (candidates : list string) (num_select : nat) (t : tape)
    : res (list string * tape) :=
  if length candidates <=? num_select then Ok (candidates, t)
  else
    res_bind (score_all target_lemma candidates) (fun scored_candidates =>
    let scored_candidates :=
      stable_sort (fun x y => Qle_bool (snd y) (snd x)) scored_candidates in
    let top_candidates := take (num_select * 2) scored_candidates in
    let '(selected, t1) :=
      Random.sample top_candidates
        (Nat.min num_select (length top_candidates)) t in
    Ok (fst <$> selected, t1)).

Definition _get_fallback_distractors (lemma pos cefr : string) (t : tape)
    : list string * tape :=
  let fallback_vocab :=
    drop_duplicates
      (Word <$> filter (fun r =>
                  Py.lower (POS r) = Py.lower pos
                  ∧ Py.lower (Word r) ≠ Py.lower lemma) coco_vocab) in
  match fallback_vocab with
  | [] => ([], t)
  | _ :: _ =>
      let sample_size := Nat.min 5 (length fallback_vocab) in
      Random.sample fallback_vocab sample_size t
  end.

(** [_generate_new_choices]; the result [None] is Python's [None]. *)
Definition _generate_new_choices (question_data : question_data)
    (t : tape) : res (option (list string) * tape) :=
  let lemma := lemma question_data in
  let pos := Py.lower (pos question_data) in
  let cefr := Py.upper (cefr question_data) in
  let correct_answer := answer question_data in
  if negb (Py.truthy lemma && Py.truthy pos && Py.truthy cefr
           && Py.truthy correct_answer)
  then Ok (None, t)
  else
    let similarity_candidates :=
      _get_similarity_candidates lemma pos cefr 10 in
    let '(random_candidates, t1) :=
      _get_random_candidates lemma pos cefr 15 t in
    let '(relaxed_candidates, t2) :=
      _get_relaxed_cefr_candidates lemma pos cefr 10 t1 in
    let candidates :=
      similarity_candidates ++ random_candidates ++ relaxed_candidates in
    let '(unique_candidates, t3) := list_of_set candidates t2 in
    let unique_candidates :=
      filter (fun c => Py.lower c ≠ Py.lower correct_answer)
             unique_candidates in
    res_bind
      (_select_best_distractors lemma unique_candidates num_distractors t3)
      (fun '(best_distractors, t4) =>
    let '(best_distractors, t5) :=
      if length best_distractors <? num_distractors then
        let '(additional_candidates, t5) :=
          _get_fallback_distractors lemma pos cefr t4 in
        (best_distractors
           ++ take (num_distractors - length best_distractors)
                   additional_candidates, t5)
      else (best_distractors, t4) in
    let choices := correct_answer :: take num_distractors best_distractors in
    Ok (Some choices, t5)).

Definition fallback_dict (pos : string) : option (list string) :=
  if decide (pos = "noun") then
    Some ["thing"; "person"; "place"; "time"; "way"]
  else if decide (pos = "verb") then
    Some ["go"; "come"; "make"; "take"; "get"]
  else if decide (pos = "adjective") then
    Some ["good"; "new"; "big"; "small"; "old"]
  else if decide (pos = "adverb") then
    Some ["well"; "now"; "here"; "there"; "very"]
  else None.

Definition _generate_fallback_choices (question_data : question_data)
    (t : tape) : list string * tape :=
  let correct_answer := answer question_data in
  let pos := Py.lower (pos question_data) in
  let fallback_candidates :=
    default ["option1"; "option2"] (fallback_dict pos) in
  let distractors :=
    take 2 (filter (fun c => Py.lower c ≠ Py.lower correct_answer)
                   fallback_candidates) in
  let choices := correct_answer :: distractors in
  Random.shuffle choices t.

(** The outcome of a call: the returned list, the instance's
    [_choices_cache], the database and the rest of the tape. *)
Record outcome : Type := Outcome {
  returned : list string;
  cache_after : gmap Z (list string);
  db_after : db;
  tape_after : tape
}.

Definition get_or_generate_choices (_choices_cache : gmap Z (list string))
    (d : db) (qid : Z) (question_data : question_data)
    (force_regenerate : bool) (t : tape) : res outcome :=
  match (if force_regenerate then None else _choices_cache !! qid) with
  | Some cached => Ok (Outcome cached _choices_cache d t)
  | None =>
      let existing_choices := get_choices_by_qid d qid in
      if negb force_regenerate
         && (length existing_choices =? total_choices)
      then
        let '(shuffled_choices, t1) := Random.shuffle existing_choices t in
        Ok (Outcome shuffled_choices
              (<[qid := shuffled_choices]> _choices_cache) d t1)
      else
        res_bind (_generate_new_choices question_data t)
          (fun '(new_choices, t1) =>
        match new_choices with
        | Some ((_ :: _) as new_choices) =>
            let d1 :=
              save_choices d qid new_choices (answer question_data) in
            let '(shuffled_choices, t2) :=
              Random.shuffle new_choices t1 in
            Ok (Outcome shuffled_choices
                  (<[qid := shuffled_choices]> _choices_cache) d1 t2)
        | _ =>
            let '(choices, t2) :=
              _generate_fallback_choices question_data t1 in
            Ok (Outcome choices _choices_cache d t2)
        end)
  end.

Definition regenerate_choices_for_question
    (_choices_cache : gmap Z (list string)) (d : db) (qid : Z)
    (question_data : question_data) (t : tape) : res outcome :=
  get_or_generate_choices _choices_cache d qid question_data true t.

Definition clear_cache (_choices_cache : gmap Z (list string))
    : gmap Z (list string) := ∅.

End Generator.

End EnhancedCandidateGenerator.

(** The guard [all([lemma, pos, cefr, correct_answer])] of
    [_generate_new_choices]. *)
Definition complete_fields (q : question_data) : bool :=
  Py.truthy (lemma q) && Py.truthy (Py.lower (pos q))
  && Py.truthy (Py.upper (cefr q)) && Py.truthy (answer q).

(** *** Successive calls on one generator instance

    A generator instance lives through a sequence of calls of
    [get_or_generate_choices]; between them the rest of the application may
    rewrite the database and consume randomness. *)

Module ChoiceRun.
Import DatabaseManager EnhancedCandidateGenerator.

Record state : Type := State {
  cache : gmap Z (list string);
  database : db;
  entropy : tape
}.

Inductive op : Type :=
  | Call (qid : Z) (question_data : question_data) (force_regenerate : bool)
  | ClearCache
  | Elsewhere (d : db) (t : tape).

Definition state_of (o : outcome) : state :=
  {| cache := cache_after o; database := db_after o;
     entropy := tape_after o |}.

Definition step (coco_vocab : list vocab_row) (st : state) (o : op) : state :=
  match o with
  | Call qid q force =>
      match get_or_generate_choices coco_vocab (cache st) (database st)
              qid q force (entropy st) with
      | Ok o => state_of o
      | Raise _ => st
      end
  | ClearCache =>
      {| cache := clear_cache (cache st); database := database st;
         entropy := entropy st |}
  | Elsewhere d t => {| cache := cache st; database := d; entropy := t |}
  end.

Definition run (coco_vocab : list vocab_row) (st : state) (ops : list op)
    : state :=
  foldl (step coco_vocab) st ops.

(** The operation is neither [clear_cache] nor a forced regeneration of
    [qid]. *)
Definition keeps (qid : Z) (o : op) : Prop :=
  match o with
  | Call qid' _ force => force = true -> qid' ≠ qid
  | ClearCache => False
  | Elsewhere _ _ => True
  end.

End ChoiceRun.

(** ** Question synthesis ([modules/enhanced_question_gen.py]) *)

(** A spaCy token: [token.text], [token.lemma_], [token.pos_]. *)
Record token : Type := Token {
  text : string;
  lemma_ : string;
  pos_ : string
}.

(** The test [token.lemma_.lower() == target_word.lower()]. *)
Definition matches_target (target_word : string) (token : token) : bool :=
  bool_decide (Py.lower (lemma_ token) = Py.lower target_word).

(** What the blanking loop writes for one token. *)
Definition blank_of (target_word : string) (token : token) : string :=
  if matches_target target_word token then "()" else text token.

Module EnhancedQuestionGenerator.
Import DatabaseManager.

(** The dictionary returned by [get_or_generate_question]: the question
    with its [qid] and, when the store has them, [choices] and
    [candidate]. *)
Record generated : Type := Generated {
  g_data : question_data;
  g_qid : Z;
  g_choices : option (list string);
  g_candidate : option (list string)
}.

Section Generator.

(** [self.nlp]: the spaCy pipeline; [None] stands for an exception
    raised by it. *)
Variable nlp : string -> option (list token).
(** [self.coco_vocab] and [self.caption_dict]. *)
Variable coco_vocab : list vocab_row.
Variable caption_dict : gmap string string.
(** The vocabulary file at the default path, which the candidate
    generator built by [_generate_and_save_choices] loads. *)
Variable default_vocab : list vocab_row.

(** The second loop of [_process_caption_with_spacy], with the running
    values of [answer_word] and [blanked_tokens]. *)
Fixpoint blank_loop (doc : list token) (target_word : string)
    (answer_word : option string) (blanked_tokens : list string)
    : option string * list string :=
  match doc with
  | [] => (answer_word, blanked_tokens)
  | token :: rest =>
      if matches_target target_word token then
        blank_loop rest target_word (Some (text token))
          (blanked_tokens ++ ["()"])
      else
        blank_loop rest target_word answer_word
          (blanked_tokens ++ [text token])
  end.

Definition _process_caption_with_spacy (caption target_word cap_id img_id
    pos_filter cefr_filter : string) : option question_data :=
  match nlp caption with
  | None => None
  | Some doc =>
      let divided :=
        (fun token =>
           if decide (pos_ token ≠ "ADV") then lemma_ token
           else text token) <$> doc in
      let '(answer_word, blanked_tokens) :=
        blank_loop doc target_word None [] in
      match answer_word with
      | None => None
      | Some answer_word =>
          if negb (Py.truthy answer_word) then None
          else
            Some {| image_id := img_id;
                    id := cap_id;
                    caption := caption;
                    divided := divided;
                    blankquestion := blanked_tokens;
                    answer := answer_word;
                    lemma := target_word;
                    pos := Py.lower pos_filter;
                    cefr := Py.upper cefr_filter |}
      end
  end.

Definition _get_excluded_lemmas_from_session (d : db)
    (exclude_qids : list Z) : gset string :=
  foldl (fun excluded_lemmas qid =>
           match get_question_by_id d qid with
           | Some question => {[lemma question]} ∪ excluded_lemmas
           | None => excluded_lemmas
           end) ∅ exclude_qids.

(** The loop over [sampled_vocab.iterrows()]. *)
Fixpoint try_rows (rows : list vocab_row) (pos_filter cefr_filter : string)
    : option question_data :=
  match rows with
  | [] => None
  | row :: rest =>
      let word := Word row in
      let cap_id := CaptionID row in
      let img_id := ImageID row in
      match caption_dict !! cap_id with
      | Some original_caption =>
          if Py.truthy original_caption then
            match _process_caption_with_spacy original_caption word
                    cap_id img_id pos_filter cefr_filter with
            | Some question_data => Some question_data
            | None => try_rows rest pos_filter cefr_filter
            end
          else try_rows rest pos_filter cefr_filter
      | None => try_rows rest pos_filter cefr_filter
      end
  end.

Definition _generate_random_question_from_csv (d : db)
    (pos_filter cefr_filter : string) (exclude_qids : list Z)
    (max_attempts : nat) (t : tape) : option question_data * tape :=
  let excluded_lemmas := _get_excluded_lemmas_from_session d exclude_qids in
  let filtered_vocab :=
    filter (fun r =>
              Py.lower (POS r) = Py.lower pos_filter
              ∧ Py.upper (CEFR r) = Py.upper cefr_filter
              ∧ Word r ∉ excluded_lemmas) coco_vocab in
  match filtered_vocab with
  | [] => (None, t)
  | _ :: _ =>
      let max_sample_attempts :=
        Nat.min max_attempts (length filtered_vocab) in
      let '(sampled_vocab, t1) :=
        Random.sample filtered_vocab max_sample_attempts t in
      (try_rows sampled_vocab pos_filter cefr_filter, t1)
  end.

Definition _check_existing_question (d : db)
    (question_data : question_data) : option Z :=
  let lemma := lemma question_data in
  let pos := pos question_data in
  let cefr := cefr question_data in
  if negb (Py.truthy lemma && Py.truthy pos && Py.truthy cefr) then None
  else select_qid d lemma (Py.lower pos) (Py.upper cefr).

(** [if existing_qid:] holds for a [qid] other than [None] and [0]. *)
Definition truthy_qid (existing_qid : option Z) : option Z :=
  match existing_qid with
  | Some q => if decide (q = 0%Z) then None else Some q
  | None => None
  end.

(** [[c for c in choices if c != answer]] *)
Definition candidate_of (choices : list string) (answer : string)
    : list string :=
  filter (fun c => c ≠ answer) choices.

(** [_generate_and_save_choices]: a fresh candidate generator (empty
    cache) over the default vocabulary.  The [ImportError] branch is not
    taken, the imported module being part of the application. *)
Definition _generate_and_save_choices (d : db) (qid : Z)
    (question_data : question_data) (t : tape)
    : res (list string * db * tape) :=
  res_bind
    (EnhancedCandidateGenerator.get_or_generate_choices default_vocab
       ∅ d qid question_data false t)
    (fun o =>
       Ok (EnhancedCandidateGenerator.returned o,
           EnhancedCandidateGenerator.db_after o,
           EnhancedCandidateGenerator.tape_after o)).

(** [get_or_generate_question]; its argument [force_new] is never read
    and is left out. *)
Definition get_or_generate_question (d : db)
    (pos_filter cefr_filter : string) (exclude_qids : list Z)
    (max_attempts : nat) (t : tape)
    : res (option generated * db * tape) :=
  let '(new_question, t1) :=
    _generate_random_question_from_csv d pos_filter cefr_filter
      exclude_qids max_attempts t in
  match new_question with
  | None => Ok (None, d, t1)
  | Some new_question =>
      let existing_qid := _check_existing_question d new_question in
      match truthy_qid existing_qid with
      | Some existing_qid =>
          let choices := get_choices_by_qid d existing_qid in
          match choices with
          | _ :: _ =>
              Ok (Some (Generated new_question existing_qid
                          (Some choices)
                          (Some (candidate_of choices
                                   (answer new_question)))),
                  d, t1)
          | [] =>
              Ok (Some (Generated new_question existing_qid None None),
                  d, t1)
          end
      | None =>
          let '(qid, d1) := save_question d new_question in
          res_bind (_generate_and_save_choices d1 qid new_question t1)
            (fun '(choices, d2, t2) =>
               Ok (Some (Generated new_question qid (Some choices)
                           (Some (candidate_of choices
                                    (answer new_question)))),
                   d2, t2))
      end
  end.

End Generator.

End EnhancedQuestionGenerator.

(** ** Answer processing ([modules/result_processor.py]) *)

(** What a call of [image_generator.get_or_generate_wrong_image] does: it
    returns a path, returns [None], or raises. *)
Inductive image_outcome : Type :=
  | ImagePath (path : string)
  | ImageNone
  | ImageRaised.

Module ResultProcessor.
Import DatabaseManager.

(** The feedback dictionary of [_process_correct_answer]. *)
Module CorrectFeedback.
Record t : Type := Make {
  result_type : string;
  is_correct : bool;
  message : string;
  completed_sentence : string;
  original_caption : string;
  correct_answer : string;
  explanation : string;
  image_path : option string;
  generated_image_path : option string;
  image_id : string
}.
End CorrectFeedback.

(** The feedback dictionary of [_process_incorrect_answer]. *)
Module IncorrectFeedback.
Record t : Type := Make {
  result_type : string;
  is_correct : bool;
  message : string;
  completed_sentence : string;
  original_caption : string;
  user_answer : string;
  correct_answer : string;
  show_correct_answer : bool;
  generated_image_path : option string;
  image_available : bool;
  explanation : string;
  image_id : string
}.
End IncorrectFeedback.

Inductive feedback : Type :=
  | Correct (f : CorrectFeedback.t)
  | Incorrect (f : IncorrectFeedback.t).

(** [feedback.get('generated_image_path')] *)
Definition feedback_generated_image_path (f : feedback) : option string :=
  match f with
  | Correct f => CorrectFeedback.generated_image_path f
  | Incorrect f => IncorrectFeedback.generated_image_path f
  end.

(** [feedback['is_correct']] *)
Definition feedback_is_correct (f : feedback) : bool :=
  match f with
  | Correct f => CorrectFeedback.is_correct f
  | Incorrect f => IncorrectFeedback.is_correct f
  end.

(** [needle in hay] on strings. *)
Fixpoint contains (needle hay : string) : bool :=
  String.prefix needle hay
  || match hay with
     | String _ hay' => contains needle hay'
     | EmptyString => false
     end.

(** The loop of [_join_tokens_to_sentence]; [prev] is [tokens[i-1]]. *)
Fixpoint join_loop (sentence prev : string) (tokens : list string) : string :=
  match tokens with
  | [] => sentence
  | token :: rest =>
      let sentence :=
        if contains token ".,!?;:" then sentence +:+ token
        else if Py.startswith_apostrophe token
                || Py.endswith_apostrophe prev then sentence +:+ token
        else sentence +:+ " " +:+ token in
      join_loop sentence token rest
  end.

Definition _join_tokens_to_sentence (tokens : list string) : string :=
  match tokens with
  | [] => ""
  | first :: rest => join_loop first first rest
  end.

(** The local [completed_tokens] of [_generate_completed_sentence]:
    every placeholder is replaced by [answer]. *)
Definition completed_tokens (blank_question : list string)
    (answer : string) : list string :=
  (fun token => if decide (token = "()") then answer else token)
  <$> blank_question.

Definition _generate_completed_sentence (blank_question : list string)
    (answer : string) : string :=
  _join_tokens_to_sentence (completed_tokens blank_question answer).

Definition _process_correct_answer (question_data : question_data)
    (correct_answer : string) : feedback :=
  let correct_sentence :=
    _generate_completed_sentence (blankquestion question_data)
      correct_answer in
  Correct
    {| CorrectFeedback.result_type := "correct";
       CorrectFeedback.is_correct := true;
       CorrectFeedback.message := "正解！";
       CorrectFeedback.completed_sentence := correct_sentence;
       CorrectFeedback.original_caption := caption question_data;
       CorrectFeedback.correct_answer := correct_answer;
       CorrectFeedback.explanation :=
         "正解は「" +:+ correct_answer +:+ "」です。";
       CorrectFeedback.image_path := None;
       CorrectFeedback.generated_image_path := None;
       CorrectFeedback.image_id := image_id question_data |}.

Section Processor.

(** [self.image_generator.get_or_generate_wrong_image] *)
Variable image_generator : Z -> question_data -> string -> image_outcome.

Definition _process_incorrect_answer (qid : Z)
    (question_data : question_data) (user_answer correct_answer : string)
    : feedback :=
  let generated_image_path :=
    match image_generator qid question_data user_answer with
    | ImagePath path => Some path
    | ImageNone => None
    | ImageRaised => None
    end in
  let incorrect_sentence :=
    _generate_completed_sentence (blankquestion question_data)
      user_answer in
  Incorrect
    {| IncorrectFeedback.result_type := "incorrect";
       IncorrectFeedback.is_correct := false;
       IncorrectFeedback.message := "不正解";
       IncorrectFeedback.completed_sentence := incorrect_sentence;
       IncorrectFeedback.original_caption := caption question_data;
       IncorrectFeedback.user_answer := user_answer;
       IncorrectFeedback.correct_answer := correct_answer;
       IncorrectFeedback.show_correct_answer := false;
       IncorrectFeedback.generated_image_path := generated_image_path;
       IncorrectFeedback.image_available :=
         bool_decide (is_Some generated_image_path);
       IncorrectFeedback.explanation :=
         "あなたの回答「" +:+ user_answer
         +:+ "」での場面を画像で確認してください。";
       IncorrectFeedback.image_id := image_id question_data |}.

(** [_save_learning_log]: an exception of [save_learning_log] is caught
    and logged; the store is then as it was. *)
Definition _save_learning_log (d : db) (user_id : Z) (session_id : string)
    (qid : Z) (selected_choice : string) (is_correct : bool)
    (generated_image_path : option string) : db :=
  let log_data :=
    {| l_user_id := user_id;
       l_qid := qid;
       selected_choice := selected_choice;
       l_is_correct := is_correct;
       DatabaseManager.generated_image_path := generated_image_path;
       l_session_id := session_id |} in
  match save_learning_log d log_data with
  | Ok d1 => d1
  | Raise _ => d
  end.

Definition process_user_answer (d : db) (session_id : string) (qid : Z)
    (question_data : question_data) (user_answer : string)
    : res feedback * db :=
  let correct_answer := answer question_data in
  let is_correct :=
    bool_decide (Py.lower (Py.strip user_answer)
                 = Py.lower (Py.strip correct_answer)) in
  match get_session_info d session_id with
  | None => (Raise (ValueError ("Session not found: " +:+ session_id)), d)
  | Some session_info =>
      let user_id := user_id session_info in
      let feedback :=
        if is_correct then
          _process_correct_answer question_data correct_answer
        else
          _process_incorrect_answer qid question_data user_answer
            correct_answer in
      let d1 :=
        _save_learning_log d user_id session_id qid user_answer
          is_correct (feedback_generated_image_path feedback) in
      let d2 := update_session_progress d1 session_id in
      (Ok feedback, d2)
  end.

Definition check_session_completion (d : db) (session_id : string)
    : bool * db :=
  match get_session_info d session_id with
  | None => (false, d)
  | Some session_info =>
      if (total_questions session_info <=? current_question session_info)%Z
      then (true, complete_session d session_id)
      else (is_completed session_info, d)
  end.

End Processor.

End ResultProcessor.

(** ** Sequences of session operations *)

Module SessionRun.
Import DatabaseManager ResultProcessor.

(** The core operations that act on a learning session. *)
Inductive op : Type :=
  | ProcessUserAnswer
      (image_generator : Z -> question_data -> string -> image_outcome)
      (session_id : string) (qid : Z) (question_data : question_data)
      (user_answer : string)
  | UpdateSessionProgress (session_id : string)
  | CompleteSession (session_id : string)
  | CheckSessionCompletion (session_id : string).

Definition step (d : db) (o : op) : db :=
  match o with
  | ProcessUserAnswer ig sid qid q a => snd (process_user_answer ig d sid qid q a)
  | UpdateSessionProgress sid => update_session_progress d sid
  | CompleteSession sid => complete_session d sid
  | CheckSessionCompletion sid => snd (check_session_completion d sid)
  end.

Definition run (d : db) (ops : list op) : db := foldl step d ops.

(** Does the operation advance the progress of session [sid]? *)
Definition advances (sid : string) (o : op) : bool :=
  match o with
  | ProcessUserAnswer _ sid' _ _ _ => bool_decide (sid' = sid)
  | UpdateSessionProgress sid' => bool_decide (sid' = sid)
  | _ => false
  end.

Definition advance_count (sid : string) (ops : list op) : Z :=
  Z.of_nat (length (filter (fun o => advances sid o = true) ops)).

End SessionRun.

(** ** Example data *)

(** An analysis of two captions, standing for the spaCy pipeline. *)
Definition example_nlp (caption : string) : option (list token) :=
  if decide (caption = "A cat sitting on a table") then
    Some [ Token "A" "a" "DET"; Token "cat" "cat" "NOUN";
           Token "sitting" "sit" "VERB"; Token "on" "on" "ADP";
           Token "a" "a" "DET"; Token "table" "table" "NOUN" ]
  else if decide (caption = "Two dogs and a dog") then
    Some [ Token "Two" "two" "NUM"; Token "dogs" "dog" "NOUN";
           Token "and" "and" "CCONJ"; Token "a" "a" "DET";
           Token "dog" "dog" "NOUN" ]
  else None.

Definition example_captions : gmap string string :=
  {[ "789" := "A cat sitting on a table" ]}.

(** A small vocabulary file. *)
Definition example_vocab : list vocab_row :=
  [ VocabRow "cat" "noun" "A1" "789" "123456";
    VocabRow "dog" "noun" "A1" "790" "123457";
    VocabRow "cot" "noun" "A1" "791" "123458";
    VocabRow "car" "Noun" "a1" "792" "123459";
    VocabRow "bird" "noun" "A2" "793" "123460";
    VocabRow "horse" "noun" "B1" "794" "123461" ].

(** A vocabulary file with a single other noun. *)
Definition two_word_vocab : list vocab_row :=
  [ VocabRow "cat" "noun" "A1" "789" "123456";
    VocabRow "dog" "noun" "A1" "790" "123457" ].

(** A question whose CEFR level is empty. *)
Definition levelless_question : question_data :=
  {| image_id := "123456"; id := "789";
     caption := "A cat sitting on a table";
     divided := ["A"; "cat"; "sit"; "on"; "a"; "table"];
     blankquestion := ["A"; "()"; "sitting"; "on"; "a"; "table"];
     answer := "cat"; lemma := "cat"; pos := "noun"; cefr := "" |}.

Definition example_question : question_data :=
  {| image_id := "123456"; id := "789";
     caption := "A cat sitting on a table";
     divided := ["A"; "cat"; "sit"; "on"; "a"; "table"];
     blankquestion := ["A"; "()"; "sitting"; "on"; "a"; "table"];
     answer := "cat"; lemma := "cat"; pos := "noun"; cefr := "A1" |}.

Definition example_session : DatabaseManager.session_row :=
  {| DatabaseManager.user_id := 1; DatabaseManager.mode := "learning";
     DatabaseManager.pos_filter := "noun"; DatabaseManager.cefr_filter := "A1";
     DatabaseManager.total_questions := 2;
     DatabaseManager.current_question := 0;
     DatabaseManager.is_completed := false |}.

(** The store after [create_learning_session] for user 1 with two
    questions. *)
Definition example_db : DatabaseManager.db :=
  match DatabaseManager.create_learning_session DatabaseManager.empty "s1" 1
          "learning" "noun" "A1" 2 with
  | Ok d => d
  | Raise _ => DatabaseManager.empty
  end.

Definition failing_generator (_ : Z) (_ : question_data) (_ : string)
    : image_outcome := ImageRaised.

(** A store that already holds the example question. *)
Definition example_store : DatabaseManager.db :=
  snd (DatabaseManager.save_question DatabaseManager.empty example_question).

(** * Further parts of the application *)

From stdpp Require Import sorting.

(** ** Further operations of [database/db_manager.py] *)

(** *** User management *)

Module UserManagement.

(** Table [users]; [username] is [UNIQUE], [user_id] is [AUTOINCREMENT]. *)
Record user_row : Type := UserRow {
  user_id : Z;
  username : string
}.

Record users : Type := Users {
  rows : list user_row;
  users_seq : Z                      (* sqlite_sequence of [users] *)
}.

Definition empty : users := {| rows := []; users_seq := 0 |}.

(** [get_or_create_user]: the [SELECT] by name, then the [INSERT]. *)
Definition get_or_create_user (u : users) (name : string) : Z * users :=
  match List.find (fun r => bool_decide (username r = name)) (rows u) with
  | Some result => (user_id result, u)
  | None =>
      let id := (users_seq u + 1)%Z in
      (id, {| rows := rows u ++ [UserRow id name]; users_seq := id |})
  end.

Definition get_user_by_id (u : users) (id : Z) : option user_row :=
  List.find (fun r => bool_decide (user_id r = id)) (rows u).

(** What the schema guarantees of the table: unique names, unique ids,
    and no id above the sequence counter. *)
Definition well_formed (u : users) : Prop :=
  NoDup (username <$> rows u)
  /\ NoDup (user_id <$> rows u)
  /\ Forall (fun r => (user_id r <= users_seq u)%Z) (rows u).

End UserManagement.

(** *** Generated images *)

Module GeneratedImageManagement.

(** Table [generated_images], keyed by its [UNIQUE(qid, wrong_choice)]
    pair; the value is [image_path].  [save_generated_image] inserts the
    row and, when the pair is already there ([IntegrityError]), updates
    its path instead. *)
Definition save_generated_image (images : gmap (Z * string) string)
    (qid : Z) (wrong_choice image_path : string)
    : gmap (Z * string) string :=
  <[(qid, wrong_choice) := image_path]> images.

Definition get_generated_image_path (images : gmap (Z * string) string)
    (qid : Z) (wrong_choice : string) : option string :=
  images !! (qid, wrong_choice).

End GeneratedImageManagement.

(** *** Question and log queries *)

Module Queries.
Import DatabaseManager.

(** [get_question_by_criteria]: [ORDER BY RANDOM() LIMIT 1] draws one of
    the selected rows; the draw reads the tape.  The returned dictionary
    is the row. *)
Definition get_question_by_criteria (d : db) (pos_arg cefr_arg : string)
    (exclude_qids : list Z) (t : tape) : option question_row * tape :=
  let selected :=
    filter (fun r =>
              pos (q_data r) = Py.lower pos_arg
              ∧ cefr (q_data r) = Py.upper cefr_arg
              ∧ qid r ∉ exclude_qids) (questions d) in
  match selected with
  | [] => (None, t)
  | _ :: _ =>
      let '(drawn, t1) := Random.sample selected 1 t in
      (head drawn, t1)
  end.

(** [get_session_questions_answered]:
    [SELECT DISTINCT qid FROM learning_logs WHERE session_id = ?]; SQL
    leaves the order of the result open. *)
Definition get_session_questions_answered (d : db) (session_id : string)
    : list Z :=
  remove_dups
    (l_qid <$> filter (fun r => l_session_id r = session_id)
                 (learning_logs d)).

(** [get_correct_answer] *)
Definition get_correct_answer (d : db) (q : Z) : option string :=
  choice_text
  <$> List.find (fun r => bool_decide (c_qid r = q) && is_correct r)
        (choices d).

(** The primary key of [questions]: ids are unique and none lies above
    the sequence counter. *)
Definition well_formed_ids (d : db) : Prop :=
  NoDup (qid <$> questions d)
  /\ Forall (fun r => (qid r <= questions_seq d)%Z) (questions d).

End Queries.

(** *** Statistics *)

Module UserStatistics.
Import DatabaseManager.

(** The row of the first query of [get_user_statistics]; [SUM] over no
    rows is [NULL]. *)
Record basic : Type := Basic {
  basic_total_questions : nat;
  basic_correct_answers : option nat;
  basic_total_sessions : nat
}.

(** [SUM(CASE WHEN is_correct THEN 1 ELSE 0 END)] *)
Definition sum_correct (rows : list log_row) : nat :=
  length (filter (fun r => l_is_correct r = true) rows).

Definition basic_stats (d : db) (user_id : Z) : basic :=
  let rows := filter (fun r => l_user_id r = user_id) (learning_logs d) in
  {| basic_total_questions := length rows;
     basic_correct_answers :=
       match rows with
       | [] => None
       | _ :: _ => Some (sum_correct rows)
       end;
     basic_total_sessions :=
       size (list_to_set (l_session_id <$> rows) : gset string) |}.

(** One joined row more in the group of [key]: [attempted] and
    [correct]. *)
Definition count_row (key : question_data -> string) (d : db)
    (groups : gmap string (nat * nat)) (r : log_row)
    : gmap string (nat * nat) :=
  match get_question_by_id d (l_qid r) with
  | Some q =>
      let '(attempted, correct) := default (0, 0) (groups !! key q) in
      <[key q := (S attempted,
                  if l_is_correct r then S correct else correct)]> groups
  | None => groups
  end.

(** The two grouped queries: [learning_logs JOIN questions ON qid],
    [GROUP BY] the question's [cefr] or [pos]; [qid] being the primary
    key of [questions], a log row joins the question it names, if it is
    stored. *)
Definition grouped_stats (key : question_data -> string) (d : db)
    (user_id : Z) : gmap string (nat * nat) :=
  foldl (count_row key d) ∅
    (filter (fun r => l_user_id r = user_id) (learning_logs d)).

Record statistics : Type := Statistics {
  stat_basic : basic;
  by_cefr : gmap string (nat * nat);
  by_pos : gmap string (nat * nat)
}.

Definition get_user_statistics (d : db) (user_id : Z) : statistics :=
  {| stat_basic := basic_stats d user_id;
     by_cefr := grouped_stats cefr d user_id;
     by_pos := grouped_stats pos d user_id |}.

End UserStatistics.

(** ** Further methods of [EnhancedCandidateGenerator] *)

Module CandidateCompatibility.
Import DatabaseManager EnhancedCandidateGenerator.

Section Generator.

Variable coco_vocab : list vocab_row.

(** [add_candidates_to_question] with [return_debug=True]: the value
    stored under [question["candidate"]] and the candidate count. *)
Definition add_candidates_to_question (question : question_data) (t : tape)
    : res (list string * nat * tape) :=
  let lemma := lemma question in
  let cefr := Py.upper (cefr question) in
  if negb (Py.truthy lemma) || negb (Py.truthy cefr) then Ok ([], 0, t)
  else
    res_bind (_generate_new_choices coco_vocab question t)
      (fun '(choices, t1) =>
    let candidate :=
      match choices with
      | Some ((_ :: _) as choices) =>
          take 3 (filter (fun c => c ≠ answer question) choices)
      | _ => []
      end in
    let candidate_count := length candidate in
    Ok (candidate, candidate_count, t1)).

End Generator.

End CandidateCompatibility.

(** ** Further methods of [EnhancedQuestionGenerator] *)

Module QuestionLookup.
Import DatabaseManager EnhancedQuestionGenerator.

(** [EnhancedQuestionGenerator.get_question_by_id]: the stored question
    with, when it has any, its choices and candidates.  [qid] is the one
    asked for. *)
Definition get_question_by_id (d : db) (qid : Z) : option generated :=
  match DatabaseManager.get_question_by_id d qid with
  | Some question =>
      match get_choices_by_qid d qid with
      | (_ :: _) as choices =>
          Some (Generated question qid (Some choices)
                  (Some (candidate_of choices (answer question))))
      | [] => Some (Generated question qid None None)
      end
  | None => None
  end.

Section Generator.

Variable coco_vocab : list vocab_row.

(** [_generate_simple_choices] *)
Definition _generate_simple_choices (question_data : question_data)
    (t : tape) : list string * tape :=
  let lemma := lemma question_data in
  let pos := pos question_data in
  let cefr := cefr question_data in
  let similar_vocab :=
    EnhancedCandidateGenerator.same_level_words coco_vocab lemma pos cefr in
  let '(wrong_choices, t1) :=
    if 2 <=? length similar_vocab then Random.sample similar_vocab 2 t
    else
      let fallback_vocab :=
        drop_duplicates
          (Word <$> filter (fun r =>
                      Py.lower (POS r) = Py.lower pos
                      ∧ Py.lower (Word r) ≠ Py.lower lemma) coco_vocab) in
      Random.sample fallback_vocab (Nat.min 2 (length fallback_vocab)) t in
  let choices := answer question_data :: wrong_choices in
  Random.shuffle choices t1.

End Generator.

End QuestionLookup.

(** ** The wrong-answer illustrator ([modules/enhanced_image_gen.py]) *)

Module EnhancedImageGenerator.
Import GeneratedImageManagement.

(** The characters of [invalid_chars]. *)
Definition invalid_chars : list ascii :=
  ["<"; ">"; ":"; "034"; "/"; "\"; "|"; "?"; "*"]%char.

(** [s.replace(char, '_')] for a one-character [char]. *)
Definition replace_char (char : ascii) (s : list ascii) : list ascii :=
  (fun c => if decide (c = char) then "_"%char else c) <$> s.

(** [str.rfind] of a character, [-1] when it does not occur. *)
Fixpoint rfind_from (c : ascii) (s : list ascii) (i : Z) (found : Z) : Z :=
  match s with
  | [] => found
  | x :: s' => rfind_from c s' (i + 1) (if decide (x = c) then i else found)
  end.

Definition rfind (c : ascii) (s : list ascii) : Z := rfind_from c s 0 (-1).

(** The loop of [posixpath.splitext] that skips leading dots: is there a
    character other than a dot in [p[filenameIndex:dotIndex]]? *)
Definition has_name_before (p : list ascii) (filenameIndex dotIndex : Z)
    : bool :=
  bool_decide
    (Exists (fun c => c ≠ "."%char)
       (take (Z.to_nat (dotIndex - filenameIndex))
             (drop (Z.to_nat filenameIndex) p))).

(** [os.path.splitext] *)
Definition splitext (p : list ascii) : list ascii * list ascii :=
  let sepIndex := rfind "/"%char p in
  let dotIndex := rfind "."%char p in
  if bool_decide (sepIndex < dotIndex)%Z
     && has_name_before p (sepIndex + 1) dotIndex
  then (take (Z.to_nat dotIndex) p, drop (Z.to_nat dotIndex) p)
  else (p, []).

Definition _sanitize_filename (filename : string) : string :=
  let safe_filename :=
    foldl (fun safe_filename char => replace_char char safe_filename)
          (Py.chars filename) invalid_chars in
  let safe_filename :=
    if 100 <? length safe_filename then
      let '(name, ext) := splitext safe_filename in
      take 90 name ++ ext
    else safe_filename in
  Py.of_chars safe_filename.

(** The outcome of [get_or_generate_wrong_image]: the returned path, the
    instance's [_generation_cache] and the table [generated_images]. *)
Record outcome : Type := Outcome {
  returned : option string;
  cache_after : gmap (Z * string) string;
  images_after : gmap (Z * string) string
}.

Section Generator.

(** [_validate_image_file]: the file exists and is not empty. *)
Variable _validate_image_file : string -> bool.
(** [_generate_new_wrong_image]: the relative path of the saved image, or
    [None] when the prompt, the service or the download fails. *)
Variable _generate_new_wrong_image :
  Z -> question_data -> string -> option string.

(** The cache key [f"image_{qid}_{selected_answer}"] is the pair. *)
Definition get_or_generate_wrong_image
    (_generation_cache images : gmap (Z * string) string)
    (qid : Z) (question_data : question_data) (selected_answer : string)
    (force_regenerate : bool) : outcome :=
  let cache_key := (qid, selected_answer) in
  let generate :=
    let new_image_path :=
      _generate_new_wrong_image qid question_data selected_answer in
    match new_image_path with
    | Some path =>
        if Py.truthy path then
          Outcome new_image_path
            (<[cache_key := path]> _generation_cache)
            (save_generated_image images qid selected_answer path)
        else Outcome new_image_path _generation_cache images
    | None => Outcome None _generation_cache images
    end in
  if force_regenerate then generate
  else
    match _generation_cache !! cache_key with
    | Some cached => Outcome (Some cached) _generation_cache images
    | None =>
        match get_generated_image_path images qid selected_answer with
        | Some existing_image_path =>
            if Py.truthy existing_image_path
               && _validate_image_file existing_image_path
            then
              Outcome (Some existing_image_path)
                (<[cache_key := existing_image_path]> _generation_cache)
                images
            else generate
        | None => generate
        end
    end.

Definition clear_cache (_generation_cache : gmap (Z * string) string)
    : gmap (Z * string) string := ∅.

End Generator.

End EnhancedImageGenerator.

(** ** Notions used in the statements *)

(** The distance test of [_get_similarity_candidates]:
    [1 <= distance <= min(len(lemma), len(word)) // 2 + 2]. *)
Definition in_band (lemma word : string) : Prop :=
  1 <= Levenshtein.distance (Py.lower lemma) (Py.lower word)
  <= Nat.min (Py.len lemma) (Py.len word) / 2 + 2.

(** The body of the loop of [_get_similarity_candidates]: the pair
    appended to [distances] for [word], if any. *)
Definition measure (lemma word : string) : option (string * nat) :=
  let distance := Levenshtein.distance (Py.lower lemma) (Py.lower word) in
  if (1 <=? distance)
     && (distance <=? Nat.min (Py.len lemma) (Py.len word) / 2 + 2)
  then Some (word, distance) else None.

(** A token that [_join_tokens_to_sentence] treats as an ordinary word:
    it is not a piece of [".,!?;:"] and has no apostrophe at either end. *)
Definition plain_token (token : string) : Prop :=
  ResultProcessor.contains token ".,!?;:" = false
  /\ Py.startswith_apostrophe token = false
  /\ Py.endswith_apostrophe token = false.

(** The operation is an answer submitted in session [sid]. *)
Definition answers_in (sid : string) (o : SessionRun.op) : Prop :=
  match o with
  | SessionRun.ProcessUserAnswer _ sid' _ _ _ => sid' = sid
  | _ => False
  end.

(** Captions for two rows of the example vocabulary. *)
Definition two_captions : gmap string string :=
  {[ "789" := "A cat sitting on a table"; "790" := "Two dogs and a dog" ]}.

(** Every path held by the generation cache is the path stored in
    [generated_images] under the same key. *)
Definition cache_coherent (_generation_cache images : gmap (Z * string) string)
    : Prop :=
  forall key path,
    _generation_cache !! key = Some path -> images !! key = Some path.

(** An image service that always delivers the same file. *)
Definition example_image_service (_ : Z) (_ : question_data) (_ : string)
    : option string := Some "d3_q1_ansabc123.jpeg".

(** * Properties *)

(** ** Runtime sanity checks *)

Example distance_kitten : Levenshtein.distance "kitten" "sitting" = 3.
Proof. reflexivity. Qed.

Example distance_cat_cats : Levenshtein.distance "cat" "cats" = 1.
Proof. reflexivity. Qed.

Example strip_lower_example : Py.lower (Py.strip "  Dog ") = "dog".
Proof. reflexivity. Qed.

Example completed_sentence_example :
  ResultProcessor._generate_completed_sentence
    ["A"; "()"; "sitting"; "on"; "a"; "table"] "cat"
  = "A cat sitting on a table".
Proof. reflexivity. Qed.

Example join_tokens_example :
  ResultProcessor._join_tokens_to_sentence
    ["The"; "dog"; "'s"; "ball"; ","; "here"; "."]
  = "The dog's ball, here.".
Proof. reflexivity. Qed.

Example score_empty_raises :
  Score._calculate_distractor_score "" "" = Raise ZeroDivisionError.
Proof. reflexivity. Qed.

(** ** The distractor score *)

Section ScoreFacts.
Import Score.
Local Open Scope Q_scope.





End ScoreFacts.

Local Open Scope Q_scope.


Local Close Scope Q_scope.

(** *** The edit distance is at most the longer length *)

Section LevenshteinBound.
Import Levenshtein.







End LevenshteinBound.

(** *** The float against the exact value *)

Section Binary64Score.
Import Float64 Score64 ScoreGrid.
Local Open Scope Q_scope.

Lemma eqb_eq (x y : float) : Float64.eqb x y = true -> x = y.
Proof.
  destruct x as [s1|s1| |s1 m1 e1], y as [s2|s2| |s2 m2 e2]; simpl;
    try discriminate; try reflexivity.
  - intros H. apply Bool.eqb_prop in H. by subst.
  - intros H. apply Bool.eqb_prop in H. by subst.
  - intros H. apply andb_prop in H as [H He]. apply andb_prop in H as [Hs Hm].
    apply Bool.eqb_prop in Hs. apply Pos.eqb_eq in Hm. apply Z.eqb_eq in He.
    by subst.
Qed.







End Binary64Score.

Local Open Scope Q_scope.




Local Close Scope Q_scope.

(** ** Answer processing and session progress *)

Section SessionFacts.
Import DatabaseManager ResultProcessor SessionRun.

(** Whether the [INSERT] goes through or not, [_save_learning_log]
    touches the table [learning_logs] only. *)
Lemma save_learning_log_frame d uid sid qid choice correct path :
  let d1 := _save_learning_log d uid sid qid choice correct path in
  questions d1 = questions d
  /\ questions_seq d1 = questions_seq d
  /\ choices d1 = choices d
  /\ learning_sessions d1 = learning_sessions d.
Proof.
  unfold _save_learning_log, save_learning_log. cbn [l_user_id l_qid].
  destruct (sqlite_integer uid && sqlite_integer qid); cbn; auto.
Qed.

Lemma process_user_answer_sessions ig d sid qid q a s :
  get_session_info d sid = Some s ->
  learning_sessions (snd (process_user_answer ig d sid qid q a))
  = learning_sessions (update_session_progress d sid).
Proof.
  intros Hs. unfold process_user_answer. rewrite Hs. simpl.
  unfold update_session_progress, get_session_info.
  by destruct (save_learning_log_frame d (user_id s) sid qid a
                 (bool_decide (Py.lower (Py.strip a)
                               = Py.lower (Py.strip (answer q))))
                 (feedback_generated_image_path
                    (if bool_decide (Py.lower (Py.strip a)
                                     = Py.lower (Py.strip (answer q)))
                     then _process_correct_answer q (answer q)
                     else _process_incorrect_answer ig qid q a (answer q))))
    as (_ & _ & _ & ->).
Qed.

Lemma process_user_answer_missing ig d sid qid q a :
  get_session_info d sid = None ->
  process_user_answer ig d sid qid q a
  = (Raise (ValueError ("Session not found: " +:+ sid)), d).
Proof.
  intros Hs. unfold process_user_answer. rewrite Hs. reflexivity.
Qed.

(** One operation: the session stays in the table, its counter moves by
    one exactly when the operation advances it, and completion is kept. *)
Lemma step_session d o sid s :
  learning_sessions d !! sid = Some s ->
  exists s',
    learning_sessions (step d o) !! sid = Some s'
    /\ current_question s'
       = (current_question s + if advances sid o then 1 else 0)%Z
    /\ total_questions s' = total_questions s
    /\ (is_completed s = true -> is_completed s' = true).
Proof.
  intros Hs.
  destruct o as [ig sid' qid q a | sid' | sid' | sid']; simpl.
  - destruct (get_session_info d sid') as [s0|] eqn:H0.
    + rewrite (process_user_answer_sessions _ _ _ _ _ _ _ H0). simpl.
      case_bool_decide as E.
      * subst sid'. rewrite lookup_alter_eq, Hs. simpl.
        eexists. split; [reflexivity|]. simpl. auto.
      * rewrite lookup_alter_ne by done.
        exists s. rewrite Z.add_0_r. auto.
    + rewrite process_user_answer_missing by done. simpl.
      case_bool_decide as E.
      * subst sid'. unfold get_session_info in H0. congruence.
      * exists s. rewrite Z.add_0_r. auto.
  - case_bool_decide as E.
    + subst sid'. rewrite lookup_alter_eq, Hs. simpl.
      eexists. split; [reflexivity|]. simpl. auto.
    + rewrite lookup_alter_ne by done.
      exists s. rewrite Z.add_0_r. auto.
  - destruct (decide (sid' = sid)) as [->|E].
    + rewrite lookup_alter_eq, Hs. simpl.
      eexists. split; [reflexivity|]. simpl. rewrite Z.add_0_r. auto.
    + rewrite lookup_alter_ne by done.
      exists s. rewrite Z.add_0_r. auto.
  - unfold check_session_completion.
    destruct (get_session_info d sid') as [s0|] eqn:H0; simpl.
    + destruct (total_questions s0 <=? current_question s0)%Z; simpl.
      * destruct (decide (sid' = sid)) as [->|E].
        -- rewrite lookup_alter_eq, Hs. simpl.
           eexists. split; [reflexivity|]. simpl. rewrite Z.add_0_r. auto.
        -- rewrite lookup_alter_ne by done.
           exists s. rewrite Z.add_0_r. auto.
      * exists s. rewrite Z.add_0_r. auto.
    + exists s. rewrite Z.add_0_r. auto.
Qed.

Lemma run_session ops : forall d sid s,
  learning_sessions d !! sid = Some s ->
  exists s',
    learning_sessions (run d ops) !! sid = Some s'
    /\ current_question s'
       = (current_question s + advance_count sid ops)%Z
    /\ total_questions s' = total_questions s
    /\ (is_completed s = true -> is_completed s' = true).
Proof.
  induction ops as [|o ops IH]; intros d sid s Hs.
  - exists s. unfold advance_count. simpl. rewrite Z.add_0_r. auto.
  - destruct (step_session d o sid s Hs) as (s1 & H1 & Hc1 & Ht1 & Hd1).
    destruct (IH (step d o) sid s1 H1) as (s2 & H2 & Hc2 & Ht2 & Hd2).
    exists s2. split; [exact H2|].
    split.
    { rewrite Hc2, Hc1. unfold advance_count.
      rewrite filter_cons.
      destruct (decide (advances sid o = true)) as [E|E].
      - rewrite E, length_cons. lia.
      - apply not_true_is_false in E. rewrite E. lia. }
    split; [congruence|]. auto.
Qed.

End SessionFacts.

Example two_answers_complete_the_session :
  fst (ResultProcessor.check_session_completion
         (SessionRun.run example_db
            [SessionRun.ProcessUserAnswer failing_generator "s1" 1
               example_question "dog";
             SessionRun.ProcessUserAnswer failing_generator "s1" 1
               example_question "cat"]) "s1") = true
  /\ fst (ResultProcessor.check_session_completion
            (SessionRun.run example_db
               [SessionRun.ProcessUserAnswer failing_generator "s1" 1
                  example_question "dog"]) "s1") = false.
Proof. split; reflexivity. Qed.

(** C5.  Along every sequence of [process_user_answer],
    [update_session_progress], [complete_session] and
    [check_session_completion] calls (on any session ids), a stored session
    stays stored, its [current_question] never decreases: it grows by
    exactly one for each processed answer (and each direct progress
    update) addressed to it, and by nothing else; and [is_completed], once
    true, stays true.  A single [process_user_answer] on the session adds
    exactly 1. *)
Theorem session_progress_monotone
    (d : DatabaseManager.db) (ops : list SessionRun.op) (sid : string)
    (s : DatabaseManager.session_row) :
  DatabaseManager.learning_sessions d !! sid = Some s ->
  (exists s',
     DatabaseManager.learning_sessions (SessionRun.run d ops) !! sid = Some s'
     /\ (DatabaseManager.current_question s
         <= DatabaseManager.current_question s')%Z
     /\ DatabaseManager.current_question s'
        = (DatabaseManager.current_question s
           + SessionRun.advance_count sid ops)%Z
     /\ (DatabaseManager.is_completed s = true ->
         DatabaseManager.is_completed s' = true))
  /\ (forall ig qid q a,
        exists f s1,
          ResultProcessor.process_user_answer ig d sid qid q a
          = (Ok f, snd (ResultProcessor.process_user_answer ig d sid qid q a))
          /\ DatabaseManager.learning_sessions
               (snd (ResultProcessor.process_user_answer ig d sid qid q a))
             !! sid = Some s1
          /\ DatabaseManager.current_question s1
             = (DatabaseManager.current_question s + 1)%Z).
Proof.
  intros Hs. split.
  - destruct (run_session ops d sid s Hs) as (s' & H1 & Hc & _ & Hd).
    exists s'. split; [exact H1|]. split.
    + rewrite Hc. unfold SessionRun.advance_count. lia.
    + split; [exact Hc | exact Hd].
  - intros ig qid q a.
    pose proof (process_user_answer_sessions ig d sid qid q a s Hs) as Hsess.
    eexists _, _. split.
    { unfold ResultProcessor.process_user_answer.
      unfold DatabaseManager.get_session_info. rewrite Hs. reflexivity. }
    rewrite Hsess. simpl.
    rewrite lookup_alter_eq, Hs. simpl. split; reflexivity.
Qed.

Lemma session_progress_monotone_witness :
  DatabaseManager.learning_sessions example_db !! "s1" = Some example_session
  /\ exists s',
       DatabaseManager.learning_sessions
         (SessionRun.run example_db
            [SessionRun.ProcessUserAnswer failing_generator "s1" 1
               example_question "dog";
             SessionRun.CheckSessionCompletion "s1";
             SessionRun.ProcessUserAnswer failing_generator "s1" 1
               example_question "cat";
             SessionRun.ProcessUserAnswer failing_generator "other" 1
               example_question "cat";
             SessionRun.CheckSessionCompletion "s1"]) !! "s1" = Some s'
       /\ DatabaseManager.current_question s' = 2%Z.
Proof.
  split; [reflexivity|].
  destruct (session_progress_monotone example_db
              [SessionRun.ProcessUserAnswer failing_generator "s1" 1
                 example_question "dog";
               SessionRun.CheckSessionCompletion "s1";
               SessionRun.ProcessUserAnswer failing_generator "s1" 1
                 example_question "cat";
               SessionRun.ProcessUserAnswer failing_generator "other" 1
                 example_question "cat";
               SessionRun.CheckSessionCompletion "s1"]
              "s1" example_session eq_refl)
    as [(s' & Hs' & _ & Hc & _) _].
  exists s'. split; [exact Hs'|]. rewrite Hc. reflexivity.
Defined.

(** C8.  With a [session_id] that is not in the store,
    [process_user_answer] raises [ValueError("Session not found: ...")]
    and leaves the store as it was: no learning-log row is appended and no
    session is changed. *)
Theorem process_user_answer_unknown_session
    (ig : Z -> question_data -> string -> image_outcome)
    (d : DatabaseManager.db) (sid : string) (qid : Z) (q : question_data)
    (a : string) :
  DatabaseManager.get_session_info d sid = None ->
  let r := ResultProcessor.process_user_answer ig d sid qid q a in
  fst r = Raise (ValueError ("Session not found: " +:+ sid))
  /\ snd r = d
  /\ DatabaseManager.learning_logs (snd r) = DatabaseManager.learning_logs d
  /\ DatabaseManager.learning_sessions (snd r)
     = DatabaseManager.learning_sessions d.
Proof.
  intros Hs r. subst r.
  rewrite process_user_answer_missing by exact Hs. simpl. auto.
Qed.

Lemma process_user_answer_unknown_session_witness :
  DatabaseManager.get_session_info example_db "expired" = None
  /\ ResultProcessor.process_user_answer failing_generator example_db
       "expired" 1 example_question "dog"
     = (Raise (ValueError "Session not found: expired"), example_db).
Proof.
  split; [reflexivity|].
  pose proof (process_user_answer_unknown_session failing_generator
                example_db "expired" 1 example_question "dog" eq_refl)
    as (H1 & H2 & _).
  destruct (ResultProcessor.process_user_answer failing_generator example_db
              "expired" 1 example_question "dog") as [r d'].
  simpl in H1, H2. subst. reflexivity.
Defined.

(** C7.  In a valid session, an answer that differs from the question's
    answer after trimming and lower-casing yields (without an exception) an
    [Incorrect] feedback with [is_correct = false] and
    [show_correct_answer = false]; its message, explanation and completed
    sentence are built from the learner's answer and the blanked tokens
    only, the correct answer being carried solely by the [correct_answer]
    field that the flag marks as not to be shown.  When the image generator
    returns [None] or raises, [generated_image_path] is [None] and
    [image_available] is [false]; when it returns a path, that path is
    reported. *)
Theorem incorrect_answer_feedback
    (ig : Z -> question_data -> string -> image_outcome)
    (d : DatabaseManager.db) (sid : string) (qid : Z) (q : question_data)
    (a : string) (s : DatabaseManager.session_row) :
  DatabaseManager.get_session_info d sid = Some s ->
  Py.lower (Py.strip a) ≠ Py.lower (Py.strip (answer q)) ->
  exists f,
    fst (ResultProcessor.process_user_answer ig d sid qid q a)
    = Ok (ResultProcessor.Incorrect f)
    /\ ResultProcessor.IncorrectFeedback.is_correct f = false
    /\ ResultProcessor.IncorrectFeedback.show_correct_answer f = false
    /\ ResultProcessor.IncorrectFeedback.message f = "不正解"
    /\ ResultProcessor.IncorrectFeedback.explanation f
       = "あなたの回答「" +:+ a +:+ "」での場面を画像で確認してください。"
    /\ ResultProcessor.IncorrectFeedback.completed_sentence f
       = ResultProcessor._generate_completed_sentence (blankquestion q) a
    /\ ResultProcessor.IncorrectFeedback.user_answer f = a
    /\ (ig qid q a = ImageNone \/ ig qid q a = ImageRaised ->
        ResultProcessor.IncorrectFeedback.generated_image_path f = None
        /\ ResultProcessor.IncorrectFeedback.image_available f = false)
    /\ (forall path, ig qid q a = ImagePath path ->
        ResultProcessor.IncorrectFeedback.generated_image_path f = Some path
        /\ ResultProcessor.IncorrectFeedback.image_available f = true).
Proof.
  intros Hs Hne.
  unfold ResultProcessor.process_user_answer. rewrite Hs.
  rewrite bool_decide_eq_false_2 by exact Hne.
  simpl. eexists. split; [reflexivity|]. simpl.
  repeat (split; [reflexivity|]).
  split.
  - intros [E|E]; rewrite E; split; reflexivity.
  - intros path E. rewrite E. split; reflexivity.
Qed.

Lemma incorrect_answer_feedback_witness :
  DatabaseManager.get_session_info example_db "s1" = Some example_session
  /\ Py.lower (Py.strip "dog") ≠ Py.lower (Py.strip (answer example_question))
  /\ exists f,
       fst (ResultProcessor.process_user_answer failing_generator example_db
              "s1" 1 example_question "dog")
       = Ok (ResultProcessor.Incorrect f)
       /\ ResultProcessor.IncorrectFeedback.show_correct_answer f = false
       /\ ResultProcessor.IncorrectFeedback.generated_image_path f = None
       /\ ResultProcessor.IncorrectFeedback.image_available f = false.
Proof.
  split; [reflexivity|]. split; [vm_compute; discriminate|].
  destruct (incorrect_answer_feedback failing_generator example_db "s1" 1
              example_question "dog" example_session eq_refl)
    as (f & Hf & _ & Hshow & _ & _ & _ & _ & Hfail & _).
  { vm_compute. discriminate. }
  exists f. split; [exact Hf|]. split; [exact Hshow|].
  apply Hfail. right. reflexivity.
Defined.

(** ** The random source *)

Section RandomFacts.
Context {A : Type}.
Implicit Types (pool : list A) (t : tape).

Lemma randbelow_lt n t : 0 < n -> fst (Random.randbelow n t) < n.
Proof.
  intros Hn. destruct t as [|x t]; simpl; [exact Hn|].
  apply Nat.mod_upper_bound. lia.
Qed.

Lemma randbelow_one t : Random.randbelow 1 t = (0, tail t).
Proof.
  destruct t as [|x t]; unfold Random.randbelow; [reflexivity|].
  by rewrite Nat.mod_1_r.
Qed.

(** [sample] returns [min k (length pool)] elements whose positions in
    the pool are pairwise distinct. *)
Lemma sample_spec k : forall pool t,
  exists rest,
    fst (Random.sample pool k t) ++ rest ≡ₚ pool
    /\ length (fst (Random.sample pool k t)) = Nat.min k (length pool).
Proof.
  induction k as [|k IH]; intros pool t.
  - exists pool. simpl. split; [reflexivity|]. reflexivity.
  - destruct pool as [|a pool].
    { exists []. simpl. split; reflexivity. }
    cbn [Random.sample].
    pose proof (randbelow_lt (length (a :: pool)) t) as Hlt.
    destruct (Random.randbelow (length (a :: pool)) t) as [j t1].
    simpl fst in Hlt.
    destruct ((a :: pool) !! j) as [x|] eqn:Hj.
    + specialize (IH (delete j (a :: pool)) t1).
      destruct (Random.sample (delete j (a :: pool)) k t1) as [r t2].
      destruct IH as (rest & Hperm & Hlen). simpl in Hperm, Hlen.
      exists rest. simpl fst. split.
      * rewrite <- app_comm_cons, Hperm.
        symmetry. by apply delete_Permutation.
      * simpl length. rewrite Hlen, length_delete by (rewrite Hj; eauto).
        simpl length. lia.
    + apply lookup_ge_None in Hj. simpl in Hj, Hlt. lia.
Qed.

Lemma shuffle_Permutation (l : list A) t :
  fst (Random.shuffle l t) ≡ₚ l.
Proof.
  unfold Random.shuffle.
  destruct (sample_spec (length l) l t) as (rest & Hperm & Hlen).
  rewrite Nat.min_id in Hlen.
  assert (Hrest : rest = []).
  { apply Permutation_length in Hperm. rewrite length_app, Hlen in Hperm.
    destruct rest; [reflexivity|]. simpl in Hperm. lia. }
  subst rest. by rewrite app_nil_r in Hperm.
Qed.

Lemma sample_singleton (x : A) k t :
  Random.sample [x] (S k) t = ([x], tail t).
Proof.
  cbn [Random.sample]. simpl length. rewrite randbelow_one. simpl.
  destruct k; reflexivity.
Qed.

End RandomFacts.

(** ** Stored choices *)

Section ChoiceStore.
Import DatabaseManager.

Lemma sort_insert_head {A} (le : A -> A -> bool) x l :
  (match l with [] => True | y :: _ => le x y = true end) ->
  sort_insert le x l = x :: l.
Proof. intros H. destruct l as [|y l]; simpl; [reflexivity|]. by rewrite H. Qed.

Lemma fresh_rows_sorted q ans cs : forall i,
  stable_sort (fun r1 r2 => choice_order r1 <=? choice_order r2)
    (fresh_rows q ans i cs) = fresh_rows q ans i cs.
Proof.
  induction cs as [|c cs IH]; intros i; [reflexivity|].
  unfold fresh_rows in *. simpl. rewrite IH.
  apply sort_insert_head.
  destruct cs as [|c' cs]; simpl; [exact I|].
  apply Nat.leb_le. lia.
Qed.

Lemma fresh_rows_text q ans cs : forall i,
  choice_text <$> fresh_rows q ans i cs = cs.
Proof.
  induction cs as [|c cs IH]; intros i; [reflexivity|].
  unfold fresh_rows in *. simpl. by rewrite IH.
Qed.

Lemma fresh_rows_filter_same q ans cs : forall i,
  filter (fun r => c_qid r = q) (fresh_rows q ans i cs) = fresh_rows q ans i cs.
Proof.
  induction cs as [|c cs IH]; intros i; [reflexivity|].
  unfold fresh_rows in *. simpl. rewrite filter_cons_True by reflexivity.
  by rewrite IH.
Qed.

Lemma fresh_rows_filter_other q q' ans cs : q' ≠ q -> forall i,
  filter (fun r => c_qid r = q') (fresh_rows q ans i cs) = [].
Proof.
  intros Hne. induction cs as [|c cs IH]; intros i; [reflexivity|].
  unfold fresh_rows in *. simpl. rewrite filter_cons_False by (simpl; congruence).
  apply IH.
Qed.

Lemma filter_filter_ne (q q' : Z) (rows : list choice_row) :
  q' ≠ q ->
  filter (fun r => c_qid r = q') (filter (fun r => c_qid r ≠ q) rows)
  = filter (fun r => c_qid r = q') rows.
Proof.
  intros Hne. induction rows as [|r rows IH]; [reflexivity|].
  destruct (decide (c_qid r = q)) as [E|E].
  - rewrite (filter_cons_False (fun r => c_qid r ≠ q)) by (intros H; by apply H).
    rewrite (filter_cons_False (fun r => c_qid r = q')) by congruence.
    exact IH.
  - rewrite (filter_cons_True (fun r => c_qid r ≠ q)) by exact E.
    destruct (decide (c_qid r = q')) as [E'|E'].
    + rewrite !(filter_cons_True (fun r => c_qid r = q')) by exact E'.
      by rewrite IH.
    + rewrite !(filter_cons_False (fun r => c_qid r = q')) by exact E'.
      exact IH.
Qed.

Lemma filter_filter_eq (q : Z) (rows : list choice_row) :
  filter (fun r => c_qid r = q) (filter (fun r => c_qid r ≠ q) rows) = [].
Proof.
  induction rows as [|r rows IH]; [reflexivity|].
  destruct (decide (c_qid r = q)) as [E|E].
  - rewrite (filter_cons_False (fun r => c_qid r ≠ q)) by (intros H; by apply H).
    exact IH.
  - rewrite (filter_cons_True (fun r => c_qid r ≠ q)) by exact E.
    rewrite (filter_cons_False (fun r => c_qid r = q)) by exact E.
    exact IH.
Qed.

(** Reading back what [save_choices] wrote. *)
Lemma get_choices_save_choices d q cs ans :
  get_choices_by_qid (save_choices d q cs ans) q = cs.
Proof.
  unfold get_choices_by_qid, save_choices. simpl.
  rewrite filter_app, filter_filter_eq. simpl.
  by rewrite fresh_rows_filter_same, fresh_rows_sorted, fresh_rows_text.
Qed.

Lemma get_choices_save_choices_ne d q q' cs ans :
  q' ≠ q ->
  get_choices_by_qid (save_choices d q cs ans) q' = get_choices_by_qid d q'.
Proof.
  intros Hne. unfold get_choices_by_qid, save_choices. simpl.
  rewrite filter_app, filter_filter_ne by exact Hne.
  by rewrite fresh_rows_filter_other, app_nil_r.
Qed.

End ChoiceStore.

(** ** Choice generation *)

Section GeneratorFacts.
Import DatabaseManager EnhancedCandidateGenerator.
Variable coco_vocab : list vocab_row.

Lemma score_never_raises target candidate :
  Py.truthy target = true ->
  exists score, Score._calculate_distractor_score target candidate = Ok score.
Proof.
  intros Ht. unfold Score._calculate_distractor_score, Score.length_score.
  destruct target as [|c target]; [discriminate|].
  simpl Py.len. cbn [Nat.max Nat.eqb].
  destruct (Py.len candidate); simpl; eauto.
Qed.

Lemma score_all_never_raises target candidates :
  Py.truthy target = true ->
  exists scored, score_all target candidates = Ok scored.
Proof.
  intros Ht. induction candidates as [|c cs [scored IH]]; simpl; [eauto|].
  destruct (score_never_raises target c Ht) as [s Hs].
  rewrite Hs, IH. simpl. eauto.
Qed.

Lemma select_best_never_raises target candidates n t :
  Py.truthy target = true ->
  exists r, _select_best_distractors target candidates n t = Ok r.
Proof.
  intros Ht. unfold _select_best_distractors.
  destruct (length candidates <=? n); [eauto|].
  destruct (score_all_never_raises target candidates Ht) as [scored Hs].
  rewrite Hs. simpl.
  destruct (Random.sample _ _ t). eauto.
Qed.

(** On a vocabulary of text cells [_generate_new_choices] returns. *)
Lemma generate_new_choices_total q t :
  exists r, _generate_new_choices coco_vocab q t = Ok r.
Proof.
  unfold _generate_new_choices.
  destruct (Py.truthy (lemma q)) eqn:Hl; simpl; [|eauto].
  destruct (Py.truthy (Py.lower (pos q)) && Py.truthy (Py.upper (cefr q))
            && Py.truthy (answer q)); simpl; [|eauto].
  destruct (_get_random_candidates _ _ _ _ _ t) as [rc t1].
  destruct (_get_relaxed_cefr_candidates _ _ _ _ _ t1) as [xc t2].
  destruct (list_of_set _ t2) as [uc t3].
  match goal with
  | |- context [_select_best_distractors (lemma q) ?c ?n ?t] =>
      destruct (select_best_never_raises (lemma q) c n t Hl) as [[bd t4] Hb];
      rewrite Hb
  end.
  simpl. destruct (length bd <? num_distractors).
  - destruct (_get_fallback_distractors _ _ _ _ t4). eauto.
  - eauto.
Qed.

(** A generated list starts with the answer and has at most two
    distractors. *)
Lemma generate_new_choices_shape q t nc t1 :
  _generate_new_choices coco_vocab q t = Ok (Some nc, t1) ->
  exists distractors,
    nc = answer q :: distractors /\ length distractors <= 2.
Proof.
  unfold _generate_new_choices.
  destruct (negb _); [discriminate|].
  destruct (_get_random_candidates _ _ _ _ _ t) as [rc t2].
  destruct (_get_relaxed_cefr_candidates _ _ _ _ _ t2) as [xc t3].
  destruct (list_of_set _ t3) as [uc t4].
  destruct (_select_best_distractors _ _ _ _) as [[bd t5]|e]; [|discriminate].
  simpl. destruct (length bd <? num_distractors).
  - destruct (_get_fallback_distractors _ _ _ _ t5) as [ac t6].
    intros [= <- <-]. eexists. split; [reflexivity|].
    rewrite length_take. unfold num_distractors. lia.
  - intros [= <- <-]. eexists. split; [reflexivity|].
    rewrite length_take. unfold num_distractors. lia.
Qed.

(** [_generate_new_choices] returns [None] exactly when one of the
    required fields is empty. *)
Lemma generate_new_choices_complete q t :
  complete_fields q = true ->
  exists nc t1, _generate_new_choices coco_vocab q t = Ok (Some nc, t1).
Proof.
  intros Hc. destruct (generate_new_choices_total q t) as [[r t1] Hr].
  rewrite Hr. revert Hr. unfold _generate_new_choices.
  unfold complete_fields in Hc. rewrite Hc. simpl.
  destruct (_get_random_candidates _ _ _ _ _ t) as [rc t2].
  destruct (_get_relaxed_cefr_candidates _ _ _ _ _ t2) as [xc t3].
  destruct (list_of_set _ t3) as [uc t4].
  destruct (_select_best_distractors _ _ _ _) as [[bd t5]|e]; [|discriminate].
  simpl. destruct (length bd <? num_distractors).
  - destruct (_get_fallback_distractors _ _ _ _ t5) as [ac t6].
    intros [= <- <-]. eauto.
  - intros [= <- <-]. eauto.
Qed.

Lemma generate_new_choices_incomplete q t :
  complete_fields q = false ->
  _generate_new_choices coco_vocab q t = Ok (None, t).
Proof.
  intros Hc. unfold _generate_new_choices.
  unfold complete_fields in Hc. rewrite Hc. reflexivity.
Qed.

(** On a vocabulary of text cells [get_or_generate_choices] returns. *)
Lemma get_or_generate_choices_total (cache : gmap Z (list string)) d qid q
    (force : bool) t :
  exists o, get_or_generate_choices coco_vocab cache d qid q force t = Ok o.
Proof.
  unfold get_or_generate_choices.
  destruct (if force then None else cache !! qid); [eauto|].
  destruct (negb force && _).
  - destruct (Random.shuffle _ t). eauto.
  - destruct (generate_new_choices_total q t) as [[nc t1] Hr]. rewrite Hr.
    simpl. destruct nc as [[|c nc]|].
    + destruct (_generate_fallback_choices q t1). eauto.
    + destruct (Random.shuffle _ t1). eauto.
    + destruct (_generate_fallback_choices q t1). eauto.
Qed.

(** The new-generation path of [get_or_generate_choices]. *)
Lemma get_or_generate_choices_new (cache : gmap Z (list string)) d qid q
    (force : bool) t nc t1 :
  (if force then None else cache !! qid) = None ->
  negb force && (length (get_choices_by_qid d qid) =? total_choices) = false ->
  _generate_new_choices coco_vocab q t = Ok (Some nc, t1) ->
  get_or_generate_choices coco_vocab cache d qid q force t
  = Ok {| returned := fst (Random.shuffle nc t1);
          cache_after := <[qid := fst (Random.shuffle nc t1)]> cache;
          db_after := save_choices d qid nc (answer q);
          tape_after := snd (Random.shuffle nc t1) |}.
Proof.
  intros Hc Hd Hg. unfold get_or_generate_choices.
  rewrite Hc, Hd, Hg. simpl.
  destruct (generate_new_choices_shape q t nc t1 Hg) as (ds & -> & _).
  destruct (Random.shuffle (answer q :: ds) t1). reflexivity.
Qed.

End GeneratorFacts.

(** C9.  When [get_or_generate_choices] generates a new choice set (no
    cache hit and no three stored choices, or a forced regeneration, for a
    question whose lemma, part of speech, level and answer are non-empty,
    so that the fixed-list fallback is not taken), the generated list is
    the answer followed by the distractors; it is that list, in that
    order, which [get_choices_by_qid] reads back afterwards, while the
    returned list is a shuffled copy (a permutation) of it; the choices of
    other questions are untouched.  [save_choices] replaces: whatever was
    stored for the question id before, reading back gives exactly the list
    saved last. *)
Theorem new_choices_stored_answer_first
    (coco_vocab : list vocab_row) (cache : gmap Z (list string))
    (d : DatabaseManager.db) (qid : Z) (q : question_data) (force : bool)
    (t : tape) :
  (if force then None else cache !! qid) = None ->
  negb force
  && (length (DatabaseManager.get_choices_by_qid d qid)
      =? EnhancedCandidateGenerator.total_choices) = false ->
  complete_fields q = true ->
  exists o distractors t1,
    EnhancedCandidateGenerator._generate_new_choices coco_vocab q t
    = Ok (Some (answer q :: distractors), t1)
    /\ EnhancedCandidateGenerator.get_or_generate_choices coco_vocab cache d
         qid q force t = Ok o
    /\ DatabaseManager.get_choices_by_qid
         (EnhancedCandidateGenerator.db_after o) qid
       = answer q :: distractors
    /\ EnhancedCandidateGenerator.returned o
       = fst (Random.shuffle (answer q :: distractors) t1)
    /\ EnhancedCandidateGenerator.returned o ≡ₚ answer q :: distractors
    /\ (forall qid', qid' ≠ qid ->
        DatabaseManager.get_choices_by_qid
          (EnhancedCandidateGenerator.db_after o) qid'
        = DatabaseManager.get_choices_by_qid d qid')
    /\ (forall d0 cs1 a1 cs2 a2,
        DatabaseManager.get_choices_by_qid
          (DatabaseManager.save_choices
             (DatabaseManager.save_choices d0 qid cs1 a1) qid cs2 a2) qid
        = cs2).
Proof.
  intros Hc Hd Hq.
  destruct (generate_new_choices_complete coco_vocab q t Hq) as (nc & t1 & Hg).
  destruct (generate_new_choices_shape coco_vocab q t nc t1 Hg)
    as (ds & Hnc & _).
  subst nc. eexists _, ds, t1.
  split; [exact Hg|].
  split; [exact (get_or_generate_choices_new coco_vocab cache d qid q force t
                   _ t1 Hc Hd Hg)|].
  simpl.
  split; [apply get_choices_save_choices|].
  split; [reflexivity|].
  split; [apply shuffle_Permutation|].
  split.
  - intros qid' Hne. by apply get_choices_save_choices_ne.
  - intros. apply get_choices_save_choices.
Qed.

Lemma new_choices_stored_answer_first_witness :
  exists o,
    EnhancedCandidateGenerator.get_or_generate_choices example_vocab ∅
      DatabaseManager.empty 1 example_question false
      [5; 3; 2; 1; 7; 8; 9; 1; 2; 3; 4] = Ok o
    /\ DatabaseManager.get_choices_by_qid
         (EnhancedCandidateGenerator.db_after o) 1 = ["cat"; "dog"; "car"]
    /\ EnhancedCandidateGenerator.returned o ≡ₚ ["cat"; "dog"; "car"].
Proof.
  destruct (new_choices_stored_answer_first example_vocab ∅
              DatabaseManager.empty 1 example_question false
              [5; 3; 2; 1; 7; 8; 9; 1; 2; 3; 4])
    as (o & ds & t1 & Hg & Ho & Hdb & _ & Hperm & _).
  - reflexivity.
  - reflexivity.
  - reflexivity.
  - vm_compute in Hg. injection Hg as <- _.
    exists o. split; [exact Ho|]. split; [exact Hdb | exact Hperm].
Defined.

(** ** The choice cache *)

Section CacheFacts.
Import DatabaseManager EnhancedCandidateGenerator ChoiceRun.
Variable coco_vocab : list vocab_row.

(** A call either leaves the cache alone or stores what it returns
    under its own question id. *)
Lemma cache_after_call (c : gmap Z (list string)) d qid q (force : bool) t o :
  get_or_generate_choices coco_vocab c d qid q force t = Ok o ->
  cache_after o = c \/ cache_after o = <[qid := returned o]> c.
Proof.
  unfold get_or_generate_choices.
  destruct (if force then None else c !! qid).
  { intros [= <-]. by left. }
  destruct (negb force && _).
  { destruct (Random.shuffle _ t). intros [= <-]. by right. }
  destruct (_generate_new_choices coco_vocab q t) as [[nc t1]|e];
    [|discriminate].
  simpl. destruct nc as [[|x nc]|].
  - destruct (_generate_fallback_choices q t1). intros [= <-]. by left.
  - destruct (Random.shuffle _ t1). intros [= <-]. by right.
  - destruct (_generate_fallback_choices q t1). intros [= <-]. by left.
Qed.

(** A cache hit returns the cached list and changes nothing. *)
Lemma cache_hit (c : gmap Z (list string)) d qid q t r :
  c !! qid = Some r ->
  get_or_generate_choices coco_vocab c d qid q false t
  = Ok (Outcome r c d t).
Proof. intros Hc. unfold get_or_generate_choices. by rewrite Hc. Qed.

(** Unless the fixed-list fallback is taken, the first call caches what
    it returns. *)
Lemma first_call_caches (c : gmap Z (list string)) d qid q t o :
  is_Some (c !! qid)
  \/ length (get_choices_by_qid d qid) = total_choices
  \/ complete_fields q = true ->
  get_or_generate_choices coco_vocab c d qid q false t = Ok o ->
  cache_after o !! qid = Some (returned o).
Proof.
  intros Hpath. unfold get_or_generate_choices.
  destruct (c !! qid) as [r|] eqn:Hc.
  { intros [= <-]. exact Hc. }
  simpl negb. cbn [andb].
  destruct (Nat.eqb_spec (length (get_choices_by_qid d qid)) total_choices)
    as [E|E].
  { destruct (Random.shuffle _ t). intros [= <-]. simpl.
    apply lookup_insert_eq. }
  destruct Hpath as [[? ?]|[?|Hq]]; [discriminate|done|].
  destruct (generate_new_choices_complete coco_vocab q t Hq) as (nc & t1 & Hg).
  rewrite Hg. simpl.
  destruct (generate_new_choices_shape coco_vocab q t nc t1 Hg) as (ds & -> & _).
  destruct (Random.shuffle _ t1). intros [= <-]. simpl.
  apply lookup_insert_eq.
Qed.

Lemma step_keeps_cached st o qid r :
  keeps qid o ->
  cache st !! qid = Some r ->
  cache (step coco_vocab st o) !! qid = Some r.
Proof.
  intros Hk Hc. destruct o as [qid' q force| |d t]; simpl;
  [|destruct Hk|exact Hc].
  destruct (get_or_generate_choices coco_vocab (cache st) (database st)
              qid' q force (entropy st)) as [o|e] eqn:Ho; [|exact Hc].
  destruct (decide (qid' = qid)) as [->|Hne].
  - destruct force; [by destruct (Hk eq_refl)|].
    rewrite (cache_hit _ _ _ _ _ _ Hc) in Ho. by injection Ho as <-.
  - destruct (cache_after_call _ _ _ _ _ _ _ Ho) as [E|E]; simpl; rewrite E.
    + exact Hc.
    + by rewrite lookup_insert_ne.
Qed.

Lemma run_keeps_cached ops : forall st qid r,
  Forall (keeps qid) ops ->
  cache st !! qid = Some r ->
  cache (run coco_vocab st ops) !! qid = Some r.
Proof.
  induction ops as [|o ops IH]; intros st qid r Hk Hc; [exact Hc|].
  apply Forall_cons in Hk as [Ho Hk]. simpl.
  apply IH; [exact Hk|]. by apply step_keeps_cached.
Qed.

End CacheFacts.

(** C10, as stated, fails: a question with an empty CEFR level is served by
    the fixed-list fallback, which is neither cached nor stored, so the
    second call shuffles afresh. *)
Lemma repeated_fallback_call_reshuffles :
  ~ (forall (coco_vocab : list vocab_row) (cache : gmap Z (list string))
       (d : DatabaseManager.db) (qid : Z) (q : question_data) (t : tape)
       (o1 o2 : EnhancedCandidateGenerator.outcome),
       EnhancedCandidateGenerator.get_or_generate_choices coco_vocab cache d
         qid q false t = Ok o1 ->
       EnhancedCandidateGenerator.get_or_generate_choices coco_vocab
         (EnhancedCandidateGenerator.cache_after o1)
         (EnhancedCandidateGenerator.db_after o1) qid q false
         (EnhancedCandidateGenerator.tape_after o1) = Ok o2 ->
       EnhancedCandidateGenerator.returned o2
       = EnhancedCandidateGenerator.returned o1).
Proof.
  intros H.
  specialize (H [] ∅ DatabaseManager.empty 1%Z levelless_question [1; 0; 0; 0]
                _ _ eq_refl eq_refl).
  vm_compute in H. discriminate H.
Qed.

(** C10 (amended).  If the first unforced call for a question id is served
    from the cache, from three stored choices, or by new generation (the
    question's lemma, part of speech, level and answer being non-empty),
    then after any sequence of further calls on the same generator that
    contains no forced regeneration of that question id, and whatever the
    rest of the application does to the database and the random source,
    an unforced call for the question id returns the very list of the first
    call, in the same order: it is the cached list. *)
Theorem cached_choices_returned_verbatim
    (coco_vocab : list vocab_row) (cache : gmap Z (list string))
    (d : DatabaseManager.db) (qid : Z) (q q' : question_data) (t : tape)
    (ops : list ChoiceRun.op) :
  is_Some (cache !! qid)
  \/ length (DatabaseManager.get_choices_by_qid d qid)
     = EnhancedCandidateGenerator.total_choices
  \/ complete_fields q = true ->
  Forall (ChoiceRun.keeps qid) ops ->
  exists o1 o2,
    EnhancedCandidateGenerator.get_or_generate_choices coco_vocab cache d qid
      q false t = Ok o1
    /\ (let st := ChoiceRun.run coco_vocab (ChoiceRun.state_of o1) ops in
        EnhancedCandidateGenerator.get_or_generate_choices coco_vocab
          (ChoiceRun.cache st) (ChoiceRun.database st) qid q' false
          (ChoiceRun.entropy st) = Ok o2
        /\ ChoiceRun.cache st !! qid
           = Some (EnhancedCandidateGenerator.returned o1))
    /\ EnhancedCandidateGenerator.returned o2
       = EnhancedCandidateGenerator.returned o1.
Proof.
  intros Hpath Hops.
  destruct (get_or_generate_choices_total coco_vocab cache d qid q false t)
    as [o1 Ho1].
  pose proof (first_call_caches coco_vocab cache d qid q t o1 Hpath Ho1) as Hc.
  pose proof (run_keeps_cached coco_vocab ops (ChoiceRun.state_of o1) qid _
                Hops Hc) as Hrun.
  eexists o1, _. split; [exact Ho1|].
  split.
  { split; [apply (cache_hit _ _ _ _ _ _ _ Hrun) | exact Hrun]. }
  reflexivity.
Qed.

Lemma cached_choices_returned_verbatim_witness :
  exists o1 o2,
    EnhancedCandidateGenerator.get_or_generate_choices example_vocab ∅
      DatabaseManager.empty 1 example_question false [5; 3; 2; 1] = Ok o1
    /\ EnhancedCandidateGenerator.get_or_generate_choices example_vocab
         (ChoiceRun.cache
            (ChoiceRun.run example_vocab (ChoiceRun.state_of o1)
               [ChoiceRun.Call 2 levelless_question true;
                ChoiceRun.Elsewhere DatabaseManager.empty [7; 7];
                ChoiceRun.Call 1 example_question false]))
         (ChoiceRun.database
            (ChoiceRun.run example_vocab (ChoiceRun.state_of o1)
               [ChoiceRun.Call 2 levelless_question true;
                ChoiceRun.Elsewhere DatabaseManager.empty [7; 7];
                ChoiceRun.Call 1 example_question false]))
         1 example_question false
         (ChoiceRun.entropy
            (ChoiceRun.run example_vocab (ChoiceRun.state_of o1)
               [ChoiceRun.Call 2 levelless_question true;
                ChoiceRun.Elsewhere DatabaseManager.empty [7; 7];
                ChoiceRun.Call 1 example_question false])) = Ok o2
    /\ EnhancedCandidateGenerator.returned o2
       = EnhancedCandidateGenerator.returned o1.
Proof.
  destruct (cached_choices_returned_verbatim example_vocab ∅
              DatabaseManager.empty 1 example_question example_question
              [5; 3; 2; 1]
              [ChoiceRun.Call 2 levelless_question true;
               ChoiceRun.Elsewhere DatabaseManager.empty [7; 7];
               ChoiceRun.Call 1 example_question false])
    as (o1 & o2 & H1 & [H2 _] & H3).
  - right. right. reflexivity.
  - repeat constructor; simpl; intros; discriminate.
  - exists o1, o2. split; [exact H1|]. split; [exact H2 | exact H3].
Defined.

(** ** A vocabulary with a single distractor *)

Section TwoWordVocabulary.
Import DatabaseManager EnhancedCandidateGenerator.

Lemma two_word_new_choices t :
  _generate_new_choices two_word_vocab example_question t
  = Ok (Some ["cat"; "dog"; "dog"], tail (tail (tail t))).
Proof.
  unfold _generate_new_choices.
  change (lemma example_question) with "cat".
  change (Py.lower (pos example_question)) with "noun".
  change (Py.upper (cefr example_question)) with "A1".
  change (answer example_question) with "cat".
  cbn [Py.truthy negb andb].
  change (_get_similarity_candidates two_word_vocab "cat" "noun" "A1" 10)
    with ["dog"].
  unfold _get_random_candidates.
  change (same_level_words two_word_vocab "cat" "noun" "A1") with ["dog"].
  change (Nat.min 15 (length ["dog"])) with 1.
  rewrite sample_singleton.
  unfold _get_relaxed_cefr_candidates.
  change (adjacent_levels "A1") with ["A2"].
  cbn [relaxed_loop].
  change (adjacent_level_words two_word_vocab "cat" "noun" "A2")
    with (@nil string).
  unfold list_of_set.
  change (drop_duplicates (["dog"] ++ ["dog"] ++ [])) with ["dog"].
  unfold Random.shuffle. change (length ["dog"]) with 1.
  rewrite sample_singleton.
  change (filter (fun c => Py.lower c ≠ Py.lower "cat") ["dog"]) with ["dog"].
  unfold _select_best_distractors.
  change (length ["dog"] <=? num_distractors) with true.
  cbn [res_bind].
  change (length ["dog"] <? num_distractors) with true.
  cbv iota.
  unfold _get_fallback_distractors.
  change (drop_duplicates
            (Word <$> filter (fun r => Py.lower (POS r) = Py.lower "noun"
                                       ∧ Py.lower (Word r) ≠ Py.lower "cat")
                        two_word_vocab)) with ["dog"].
  change (Nat.min 5 (length ["dog"])) with 1.
  rewrite sample_singleton.
  reflexivity.
Qed.

End TwoWordVocabulary.

(** C1 (defect).  With a vocabulary that offers a single other noun, the
    padding step of [_generate_new_choices] adds the distractor that was
    already selected: whatever the random source does,
    [get_or_generate_choices] stores [cat, dog, dog] and returns a
    permutation of it, three entries that are not pairwise distinct. *)
Theorem padding_repeats_distractor (t : tape) :
  exists o,
    EnhancedCandidateGenerator.get_or_generate_choices two_word_vocab ∅
      DatabaseManager.empty 1 example_question false t = Ok o
    /\ DatabaseManager.get_choices_by_qid
         (EnhancedCandidateGenerator.db_after o) 1 = ["cat"; "dog"; "dog"]
    /\ EnhancedCandidateGenerator.returned o ≡ₚ ["cat"; "dog"; "dog"]
    /\ length (EnhancedCandidateGenerator.returned o) = 3
    /\ ~ NoDup (EnhancedCandidateGenerator.returned o).
Proof.
  eexists. split.
  { apply get_or_generate_choices_new with (nc := ["cat"; "dog"; "dog"]).
    - reflexivity.
    - reflexivity.
    - apply two_word_new_choices. }
  simpl.
  pose proof (shuffle_Permutation ["cat"; "dog"; "dog"] (tail (tail (tail t))))
    as Hperm.
  split; [apply get_choices_save_choices|].
  split; [exact Hperm|].
  split; [by rewrite Hperm|].
  rewrite Hperm. intros Hnd.
  apply NoDup_cons in Hnd as [_ Hnd]. apply NoDup_cons in Hnd as [Hnin _].
  apply Hnin. left.
Qed.

(** ** Question synthesis *)

Section SynthesizerFacts.
Import EnhancedQuestionGenerator.
Variable nlp : string -> option (list token).

Lemma blank_loop_spec target doc : forall answer_word blanked_tokens,
  blank_loop doc target answer_word blanked_tokens
  = (match last (filter (fun tok => matches_target target tok = true) doc) with
     | Some tok => Some (text tok)
     | None => answer_word
     end,
     blanked_tokens ++ (blank_of target <$> doc)).
Proof.
  induction doc as [|tok doc IH]; intros aw bt; simpl.
  - by rewrite app_nil_r.
  - unfold blank_of at 1.
    destruct (matches_target target tok) eqn:Hm.
    + rewrite IH, filter_cons_True by exact Hm.
      rewrite last_cons, <- app_assoc. simpl.
      by destruct (last _).
    + rewrite IH, filter_cons_False by congruence.
      by rewrite <- app_assoc.
Qed.

(** What a successful [_process_caption_with_spacy] returns. *)
Lemma process_caption_spec caption target cap_id img_id pf cf q :
  _process_caption_with_spacy nlp caption target cap_id img_id pf cf = Some q ->
  exists doc tok,
    nlp caption = Some doc
    /\ last (filter (fun tok => matches_target target tok = true) doc) = Some tok
    /\ answer q = text tok
    /\ blankquestion q = blank_of target <$> doc
    /\ lemma q = target /\ pos q = Py.lower pf /\ cefr q = Py.upper cf.
Proof.
  unfold _process_caption_with_spacy.
  destruct (nlp caption) as [doc|]; [|discriminate].
  rewrite blank_loop_spec. simpl.
  destruct (last _) as [tok|] eqn:Hlast; [|discriminate].
  destruct (negb _); [discriminate|].
  intros [= <-]. simpl. exists doc, tok.
  split; [reflexivity|]. split; [exact Hlast|].
  repeat (split; [reflexivity|]). reflexivity.
Qed.

End SynthesizerFacts.

(** C2, as stated, fails: in "Two dogs and a dog" both "dogs" and "dog"
    have the lemma "dog"; both are blanked, the stored answer is "dog", and
    putting it back gives "Two dog and a dog". *)
Lemma substituted_answer_differs_from_caption :
  ~ (forall (nlp : string -> option (list token))
       (caption target cap_id img_id pf cf : string) (q : question_data)
       (doc : list token),
       EnhancedQuestionGenerator._process_caption_with_spacy nlp caption
         target cap_id img_id pf cf = Some q ->
       nlp caption = Some doc ->
       "()" ∈ blankquestion q
       /\ ResultProcessor.completed_tokens (blankquestion q) (answer q)
          = text <$> doc).
Proof.
  intros H.
  destruct (H example_nlp "Two dogs and a dog" "dog" "1" "2" "noun" "A1"
              _ _ eq_refl eq_refl) as [_ Heq].
  vm_compute in Heq. discriminate Heq.
Qed.

(** C2 (amended).  A question produced by the Synthesizer has at least one
    placeholder in [blankquestion], one blanked token per caption token;
    replacing every placeholder by the stored answer gives back the
    caption's token sequence whenever every token matching the target
    lemma has the stored answer as its surface form (in particular when a
    single token matches) and no other token is itself written "()". *)
Theorem blanked_tokens_round_trip
    (nlp : string -> option (list token))
    (caption target cap_id img_id pf cf : string) (q : question_data)
    (doc : list token) :
  EnhancedQuestionGenerator._process_caption_with_spacy nlp caption target
    cap_id img_id pf cf = Some q ->
  nlp caption = Some doc ->
  "()" ∈ blankquestion q
  /\ length (blankquestion q) = length doc
  /\ ((forall tok, tok ∈ doc -> matches_target target tok = false ->
       text tok ≠ "()") ->
      ((forall tok, tok ∈ doc -> matches_target target tok = true ->
        text tok = answer q) ->
       ResultProcessor.completed_tokens (blankquestion q) (answer q)
       = text <$> doc)
      /\ (length (filter (fun tok => matches_target target tok = true) doc) = 1 ->
          ResultProcessor.completed_tokens (blankquestion q) (answer q)
          = text <$> doc)).
Proof.
  intros Hq Hdoc.
  destruct (process_caption_spec nlp _ _ _ _ _ _ _ Hq)
    as (doc' & tok & Hdoc' & Hlast & Hans & Hblank & _).
  rewrite Hdoc in Hdoc'. injection Hdoc' as <-.
  assert (Hround :
    (forall tok, tok ∈ doc -> matches_target target tok = false ->
       text tok ≠ "()") ->
    (forall tok, tok ∈ doc -> matches_target target tok = true ->
       text tok = answer q) ->
    ResultProcessor.completed_tokens (blankquestion q) (answer q)
    = text <$> doc).
  { intros Hother Hsame. rewrite Hblank.
    unfold ResultProcessor.completed_tokens. rewrite <- list_fmap_compose.
    apply list_fmap_ext. intros i tok' Hi.
    assert (Hin' : tok' ∈ doc) by (apply list_elem_of_lookup; eauto).
    simpl. unfold blank_of.
    destruct (matches_target target tok') eqn:Hm.
    - rewrite decide_True by reflexivity. symmetry. by apply Hsame.
    - rewrite decide_False by (by apply Hother). reflexivity. }
  split.
  { rewrite Hblank. apply last_Some_elem_of in Hlast.
    apply list_elem_of_filter in Hlast as [Hm Hin].
    apply list_elem_of_fmap. exists tok. split; [|exact Hin].
    unfold blank_of. by rewrite Hm. }
  split; [by rewrite Hblank, length_fmap|].
  intros Hother. split; [by apply Hround|].
  intros Hone. apply Hround; [exact Hother|].
  intros tok' Hin' Hm'.
  destruct (filter (fun tok => matches_target target tok = true) doc)
    as [|x [|y l]] eqn:Hf; simpl in Hone; try discriminate.
  assert (Hx : tok' ∈ [x]).
  { rewrite <- Hf. apply list_elem_of_filter. by split. }
  apply list_elem_of_singleton in Hx. subst x.
  simpl in Hlast. injection Hlast as <-. by symmetry.
Qed.

Lemma blanked_tokens_round_trip_witness :
  exists q,
    EnhancedQuestionGenerator._process_caption_with_spacy example_nlp
      "A cat sitting on a table" "Cat" "789" "123456" "Noun" "a1" = Some q
    /\ "()" ∈ blankquestion q
    /\ ResultProcessor.completed_tokens (blankquestion q) (answer q)
       = ["A"; "cat"; "sitting"; "on"; "a"; "table"].
Proof.
  eexists. split; [reflexivity|].
  destruct (blanked_tokens_round_trip example_nlp "A cat sitting on a table"
              "Cat" "789" "123456" "Noun" "a1" _ _ eq_refl eq_refl)
    as (Hin & _ & Hround).
  split; [exact Hin|].
  apply Hround; [|reflexivity].
  intros tok Hin' _.
  repeat (apply elem_of_cons in Hin' as [->|Hin']; [simpl; discriminate|]).
  by apply elem_of_nil in Hin'.
Defined.

(** C3, as stated, fails: the loop overwrites [answer_word] at every
    match, so the stored answer of "Two dogs and a dog" is that of the last
    matching token, "dog", not that of the first, "dogs". *)
Lemma stored_answer_is_not_first_match :
  ~ (forall (nlp : string -> option (list token))
       (caption target cap_id img_id pf cf : string) (q : question_data)
       (doc : list token),
       EnhancedQuestionGenerator._process_caption_with_spacy nlp caption
         target cap_id img_id pf cf = Some q ->
       nlp caption = Some doc ->
       exists tok,
         head (filter (fun tok => matches_target target tok = true) doc)
         = Some tok
         /\ answer q = text tok).
Proof.
  intros H.
  destruct (H example_nlp "Two dogs and a dog" "dog" "1" "2" "noun" "A1"
              _ _ eq_refl eq_refl) as (tok & Hhead & Hans).
  vm_compute in Hhead. injection Hhead as <-.
  vm_compute in Hans. discriminate Hans.
Qed.

(** C3 (amended).  For a caption that the Synthesizer processes
    successfully, at least one token matches the target lemma
    (case-insensitively on the token's lemma); the stored answer is the
    surface form of the LAST matching token; every matching position holds
    the placeholder in [blankquestion] and every other position keeps its
    surface form. *)
Theorem stored_answer_is_last_match
    (nlp : string -> option (list token))
    (caption target cap_id img_id pf cf : string) (q : question_data)
    (doc : list token) :
  EnhancedQuestionGenerator._process_caption_with_spacy nlp caption target
    cap_id img_id pf cf = Some q ->
  nlp caption = Some doc ->
  (exists tok,
     last (filter (fun tok => matches_target target tok = true) doc) = Some tok
     /\ answer q = text tok)
  /\ length (blankquestion q) = length doc
  /\ (forall i tok, doc !! i = Some tok ->
      (Py.lower (lemma_ tok) = Py.lower target ->
       blankquestion q !! i = Some "()")
      /\ (Py.lower (lemma_ tok) ≠ Py.lower target ->
          blankquestion q !! i = Some (text tok))).
Proof.
  intros Hq Hdoc.
  destruct (process_caption_spec nlp _ _ _ _ _ _ _ Hq)
    as (doc' & tok & Hdoc' & Hlast & Hans & Hblank & _).
  rewrite Hdoc in Hdoc'. injection Hdoc' as <-.
  split; [eauto|].
  split; [by rewrite Hblank, length_fmap|].
  intros i tok' Hi. rewrite Hblank, list_lookup_fmap, Hi. simpl.
  unfold blank_of, matches_target.
  split; intros Hm.
  - by rewrite bool_decide_eq_true_2.
  - by rewrite bool_decide_eq_false_2.
Qed.

Lemma stored_answer_is_last_match_witness :
  exists q,
    EnhancedQuestionGenerator._process_caption_with_spacy example_nlp
      "Two dogs and a dog" "dog" "1" "2" "noun" "A1" = Some q
    /\ answer q = "dog"
    /\ blankquestion q = ["Two"; "()"; "and"; "a"; "()"].
Proof.
  eexists. split; [reflexivity|].
  destruct (stored_answer_is_last_match example_nlp "Two dogs and a dog"
              "dog" "1" "2" "noun" "A1" _ _ eq_refl eq_refl)
    as ((tok & Hlast & Hans) & _ & _).
  split; [|reflexivity].
  rewrite Hans. vm_compute in Hlast. by injection Hlast as <-.
Defined.

(** ** Natural-key reuse of questions *)

Section CaseFolding.

Lemma lower_char_idempotent c :
  Py.lower_char (Py.lower_char c) = Py.lower_char c.
Proof.
  destruct c as [b0 b1 b2 b3 b4 b5 b6 b7].
  destruct b0, b1, b2, b3, b4, b5, b6, b7; reflexivity.
Qed.

Lemma upper_char_idempotent c :
  Py.upper_char (Py.upper_char c) = Py.upper_char c.
Proof.
  destruct c as [b0 b1 b2 b3 b4 b5 b6 b7].
  destruct b0, b1, b2, b3, b4, b5, b6, b7; reflexivity.
Qed.

Lemma lower_idempotent s : Py.lower (Py.lower s) = Py.lower s.
Proof.
  induction s as [|c s IH]; simpl; [reflexivity|].
  by rewrite lower_char_idempotent, IH.
Qed.

Lemma upper_idempotent s : Py.upper (Py.upper s) = Py.upper s.
Proof.
  induction s as [|c s IH]; simpl; [reflexivity|].
  by rewrite upper_char_idempotent, IH.
Qed.

End CaseFolding.

Section QuestionStore.
Import DatabaseManager.

Lemma natural_key_is_true l p c r :
  natural_key_is l p c r = true
  <-> lemma (q_data r) = l /\ pos (q_data r) = p /\ cefr (q_data r) = c.
Proof.
  unfold natural_key_is.
  rewrite !andb_true_iff, !bool_decide_eq_true. tauto.
Qed.

Lemma find_app_none {A} (f : A -> bool) l1 l2 :
  List.find f l1 = None -> List.find f (l1 ++ l2) = List.find f l2.
Proof.
  induction l1 as [|x l1 IH]; simpl; [reflexivity|].
  destruct (f x); [discriminate|]. exact IH.
Qed.

(** Under the [UNIQUE] constraint the [SELECT] finds the row itself. *)
Lemma select_qid_row d row :
  unique_keys d ->
  row ∈ questions d ->
  select_qid d (lemma (q_data row)) (pos (q_data row)) (cefr (q_data row))
  = Some (qid row).
Proof.
  intros Hu Hin. unfold select_qid.
  destruct (List.find _ (questions d)) as [r|] eqn:Hf; simpl.
  - apply List.find_some in Hf as [Hr Hk].
    apply list_elem_of_In in Hr.
    apply natural_key_is_true in Hk as (Hl & Hp & Hc).
    by rewrite (Hu r row Hr Hin Hl Hp Hc).
  - apply list_elem_of_In in Hin.
    pose proof (List.find_none _ _ Hf row Hin) as Hk.
    assert (natural_key_is (lemma (q_data row)) (pos (q_data row))
              (cefr (q_data row)) row = true) as Ht
      by (by apply natural_key_is_true).
    congruence.
Qed.

(** [save_question] on a natural key that is already stored. *)
Lemma save_question_existing d qd existing :
  select_qid d (lemma qd) (pos qd) (cefr qd) = Some existing ->
  save_question d qd = (existing, d).
Proof. intros H. unfold save_question. by rewrite H. Qed.

(** [save_question] on a fresh natural key. *)
Lemma save_question_fresh d qd :
  select_qid d (lemma qd) (pos qd) (cefr qd) = None ->
  save_question d qd
  = ((questions_seq d + 1)%Z,
     {| questions := questions d ++ [QuestionRow (questions_seq d + 1) qd];
        questions_seq := (questions_seq d + 1)%Z;
        choices := choices d;
        learning_logs := learning_logs d;
        learning_sessions := learning_sessions d |}).
Proof. intros H. unfold save_question. by rewrite H. Qed.

(** Afterwards the natural key selects the returned id. *)
Lemma select_qid_save_question d qd :
  select_qid (snd (save_question d qd)) (lemma qd) (pos qd) (cefr qd)
  = Some (fst (save_question d qd)).
Proof.
  destruct (select_qid d (lemma qd) (pos qd) (cefr qd)) as [e|] eqn:Hs.
  - by rewrite (save_question_existing _ _ _ Hs).
  - rewrite (save_question_fresh _ _ Hs). simpl.
    unfold select_qid in *. simpl.
    destruct (List.find _ (questions d)) eqn:Hf; [discriminate|].
    rewrite (find_app_none _ _ _ Hf). simpl.
    assert (natural_key_is (lemma qd) (pos qd) (cefr qd)
              (QuestionRow (questions_seq d + 1) qd) = true) as ->
      by (by apply natural_key_is_true).
    reflexivity.
Qed.

(** [save_question] maintains the [UNIQUE] constraint. *)
Lemma save_question_unique_keys d qd :
  unique_keys d -> unique_keys (snd (save_question d qd)).
Proof.
  intros Hu.
  destruct (select_qid d (lemma qd) (pos qd) (cefr qd)) as [e|] eqn:Hs.
  - by rewrite (save_question_existing _ _ _ Hs).
  - rewrite (save_question_fresh _ _ Hs). simpl.
    unfold select_qid in Hs.
    destruct (List.find _ (questions d)) eqn:Hf; [discriminate|].
    assert (Hnone : forall r, r ∈ questions d ->
              lemma (q_data r) = lemma qd -> pos (q_data r) = pos qd ->
              cefr (q_data r) = cefr qd -> False).
    { intros r Hr Hl Hp Hc. apply list_elem_of_In in Hr.
      pose proof (List.find_none _ _ Hf r Hr) as Hk.
      assert (natural_key_is (lemma qd) (pos qd) (cefr qd) r = true)
        by (by apply natural_key_is_true).
      congruence. }
    intros r1 r2 H1 H2 Hl Hp Hc. simpl in H1, H2.
    apply elem_of_app in H1 as [H1|H1]; apply elem_of_app in H2 as [H2|H2].
    + by apply Hu.
    + apply list_elem_of_singleton in H2. subst r2. simpl in *.
      destruct (Hnone r1 H1 Hl Hp Hc).
    + apply list_elem_of_singleton in H1. subst r1. simpl in *.
      destruct (Hnone r2 H2); congruence.
    + apply list_elem_of_singleton in H1. apply list_elem_of_singleton in H2.
      congruence.
Qed.

(** Choice generation does not touch the [questions] table. *)
Lemma get_or_generate_choices_questions vocab (c : gmap Z (list string)) d
    qid q (force : bool) t o :
  EnhancedCandidateGenerator.get_or_generate_choices vocab c d qid q force t
  = Ok o ->
  questions (EnhancedCandidateGenerator.db_after o) = questions d.
Proof.
  unfold EnhancedCandidateGenerator.get_or_generate_choices.
  destruct (if force then None else c !! qid).
  { by intros [= <-]. }
  destruct (negb force && _).
  { destruct (Random.shuffle _ t). by intros [= <-]. }
  destruct (EnhancedCandidateGenerator._generate_new_choices vocab q t)
    as [[nc t1]|e]; [|discriminate].
  simpl. destruct nc as [[|x nc]|].
  - destruct (EnhancedCandidateGenerator._generate_fallback_choices q t1).
    by intros [= <-].
  - destruct (Random.shuffle _ t1). by intros [= <-].
  - destruct (EnhancedCandidateGenerator._generate_fallback_choices q t1).
    by intros [= <-].
Qed.

End QuestionStore.

Section QuestionReuse.
Import DatabaseManager EnhancedQuestionGenerator.
Variable nlp : string -> option (list token).
Variable coco_vocab : list vocab_row.
Variable caption_dict : gmap string string.
Variable default_vocab : list vocab_row.

Lemma try_rows_filters rows pf cf q :
  try_rows nlp caption_dict rows pf cf = Some q ->
  pos q = Py.lower pf /\ cefr q = Py.upper cf.
Proof.
  induction rows as [|row rows IH]; simpl; [discriminate|].
  destruct (caption_dict !! CaptionID row) as [cap|]; [|exact IH].
  destruct (Py.truthy cap); [|exact IH].
  destruct (_process_caption_with_spacy _ _ _ _ _ _ _) as [q'|] eqn:Hp;
    [|exact IH].
  intros [= ->].
  destruct (process_caption_spec nlp _ _ _ _ _ _ _ Hp)
    as (_ & _ & _ & _ & _ & _ & _ & Hpos & Hcefr).
  by split.
Qed.

Lemma check_existing_question_Some d q e :
  pos q = Py.lower (pos q) -> cefr q = Py.upper (cefr q) ->
  truthy_qid (_check_existing_question d q) = Some e ->
  select_qid d (lemma q) (pos q) (cefr q) = Some e.
Proof.
  intros Hp Hc. unfold _check_existing_question.
  destruct (negb _); [discriminate|].
  rewrite <- Hp, <- Hc. unfold truthy_qid.
  destruct (select_qid _ _ _ _) as [x|]; [|discriminate].
  destruct (decide (x = 0%Z)); [discriminate|]. by intros [= ->].
Qed.

(** One call of [get_or_generate_question]: the filters are normalised,
    the returned id is the one the natural key selects afterwards, and
    the [questions] table grows by the new row only if the key was not
    stored. *)
Lemma get_or_generate_question_spec d pf cf excl n t g d' t' :
  get_or_generate_question nlp coco_vocab caption_dict default_vocab d pf cf
    excl n t = Ok (Some g, d', t') ->
  pos (g_data g) = Py.lower pf
  /\ cefr (g_data g) = Py.upper cf
  /\ (questions d', g_qid g)
     = (questions (snd (save_question d (g_data g))),
        fst (save_question d (g_data g))).
Proof.
  unfold get_or_generate_question.
  destruct (_generate_random_question_from_csv _ _ _ _ _ _ _ _ _)
    as [[nq|] t1] eqn:Hgen; [|discriminate].
  assert (Hf : pos nq = Py.lower pf /\ cefr nq = Py.upper cf).
  { revert Hgen. unfold _generate_random_question_from_csv.
    destruct (filter _ coco_vocab); [discriminate|].
    destruct (Random.sample _ _ t) as [rows t2].
    intros [= Hrows _]. by apply try_rows_filters in Hrows. }
  destruct Hf as [Hpos Hcefr].
  assert (Hp : pos nq = Py.lower (pos nq))
    by (by rewrite Hpos, lower_idempotent).
  assert (Hc : cefr nq = Py.upper (cefr nq))
    by (by rewrite Hcefr, upper_idempotent).
  destruct (truthy_qid (_check_existing_question d nq)) as [e|] eqn:Hex.
  - apply check_existing_question_Some in Hex; [|exact Hp|exact Hc].
    destruct (get_choices_by_qid d e);
      intros [= <- <- <-]; simpl;
      rewrite (save_question_existing _ _ _ Hex); auto.
  - destruct (save_question d nq) as [qid d1] eqn:Hsave.
    unfold _generate_and_save_choices.
    destruct (EnhancedCandidateGenerator.get_or_generate_choices _ _ _ _ _ _ _)
      as [o|err] eqn:Ho; [|discriminate].
    simpl. intros [= <- <- <-]. simpl.
    rewrite (get_or_generate_choices_questions _ _ _ _ _ _ _ _ Ho).
    rewrite Hsave. auto.
Qed.

Lemma select_qid_questions d1 d2 l p c :
  questions d1 = questions d2 -> select_qid d1 l p c = select_qid d2 l p c.
Proof. intros H. unfold select_qid. by rewrite H. Qed.

(** After a call, the natural key of the generated question selects the
    returned id. *)
Lemma get_or_generate_question_stored d pf cf excl n t g d' t' :
  get_or_generate_question nlp coco_vocab caption_dict default_vocab d pf cf
    excl n t = Ok (Some g, d', t') ->
  select_qid d' (lemma (g_data g)) (pos (g_data g)) (cefr (g_data g))
  = Some (g_qid g).
Proof.
  intros H. apply get_or_generate_question_spec in H as (_ & _ & [= Hq Hid]).
  rewrite Hid.
  rewrite (select_qid_questions d' (snd (save_question d (g_data g))))
    by exact Hq.
  apply select_qid_save_question.
Qed.

Lemma get_or_generate_question_reuse d pf cf excl n t g d' t' existing :
  get_or_generate_question nlp coco_vocab caption_dict default_vocab d pf cf
    excl n t = Ok (Some g, d', t') ->
  select_qid d (lemma (g_data g)) (pos (g_data g)) (cefr (g_data g))
  = Some existing ->
  g_qid g = existing /\ questions d' = questions d.
Proof.
  intros H Hs. apply get_or_generate_question_spec in H as (_ & _ & [= Hq Hid]).
  rewrite (save_question_existing _ _ _ Hs) in Hq, Hid. by split.
Qed.

End QuestionReuse.

(** C6.  Under the [UNIQUE(lemma, pos, cefr)] constraint, when
    [get_or_generate_question] returns a question whose natural key is that
    of a row already in the store, it returns that row's [qid] and leaves
    the [questions] table as it was; [save_question] with the natural key
    of a stored row returns that row's [qid] and changes nothing (no
    exception); and generating again from the resulting store with the
    same filters and exclusions, a question with the same lemma gets the
    same [qid] and the table does not grow. *)
Theorem natural_key_reuse
    (nlp : string -> option (list token))
    (coco_vocab : list vocab_row) (caption_dict : gmap string string)
    (default_vocab : list vocab_row)
    (d : DatabaseManager.db) (pf cf : string) (excl : list Z) (n : nat)
    (t : tape) (g : EnhancedQuestionGenerator.generated)
    (d' : DatabaseManager.db) (t' : tape) :
  DatabaseManager.unique_keys d ->
  EnhancedQuestionGenerator.get_or_generate_question nlp coco_vocab
    caption_dict default_vocab d pf cf excl n t = Ok (Some g, d', t') ->
  (forall row,
     row ∈ DatabaseManager.questions d ->
     lemma (DatabaseManager.q_data row)
     = lemma (EnhancedQuestionGenerator.g_data g) ->
     pos (DatabaseManager.q_data row)
     = pos (EnhancedQuestionGenerator.g_data g) ->
     cefr (DatabaseManager.q_data row)
     = cefr (EnhancedQuestionGenerator.g_data g) ->
     EnhancedQuestionGenerator.g_qid g = DatabaseManager.qid row
     /\ DatabaseManager.questions d' = DatabaseManager.questions d)
  /\ (forall row qd,
        row ∈ DatabaseManager.questions d ->
        lemma (DatabaseManager.q_data row) = lemma qd ->
        pos (DatabaseManager.q_data row) = pos qd ->
        cefr (DatabaseManager.q_data row) = cefr qd ->
        DatabaseManager.save_question d qd = (DatabaseManager.qid row, d))
  /\ (forall t2 g2 d2 t2',
        EnhancedQuestionGenerator.get_or_generate_question nlp coco_vocab
          caption_dict default_vocab d' pf cf excl n t2
        = Ok (Some g2, d2, t2') ->
        lemma (EnhancedQuestionGenerator.g_data g2)
        = lemma (EnhancedQuestionGenerator.g_data g) ->
        EnhancedQuestionGenerator.g_qid g2 = EnhancedQuestionGenerator.g_qid g
        /\ DatabaseManager.questions d2 = DatabaseManager.questions d').
Proof.
  intros Hu Hg. split; [|split].
  - intros row Hin Hl Hp Hc.
    pose proof (select_qid_row d row Hu Hin) as Hs.
    rewrite Hl, Hp, Hc in Hs.
    exact (get_or_generate_question_reuse _ _ _ _ _ _ _ _ _ _ _ _ _ _ Hg Hs).
  - intros row qd Hin Hl Hp Hc.
    pose proof (select_qid_row d row Hu Hin) as Hs.
    rewrite Hl, Hp, Hc in Hs.
    by apply save_question_existing.
  - intros t2 g2 d2 t2' Hg2 Hl.
    pose proof (get_or_generate_question_stored _ _ _ _ _ _ _ _ _ _ _ _ _ Hg)
      as Hs.
    destruct (get_or_generate_question_spec _ _ _ _ _ _ _ _ _ _ _ _ _ Hg)
      as (Hp & Hc & _).
    destruct (get_or_generate_question_spec _ _ _ _ _ _ _ _ _ _ _ _ _ Hg2)
      as (Hp2 & Hc2 & _).
    rewrite <- Hl, Hp, <- Hp2, Hc, <- Hc2 in Hs.
    exact (get_or_generate_question_reuse _ _ _ _ _ _ _ _ _ _ _ _ _ _ Hg2 Hs).
Qed.

Lemma natural_key_reuse_witness :
  exists g d' t',
    EnhancedQuestionGenerator.get_or_generate_question example_nlp
      example_vocab example_captions example_vocab example_store
      "Noun" "a1" [] 200 [3; 1; 4; 1; 5] = Ok (Some g, d', t')
    /\ EnhancedQuestionGenerator.g_qid g = 1%Z
    /\ DatabaseManager.questions d' = DatabaseManager.questions example_store.
Proof.
  destruct (EnhancedQuestionGenerator.get_or_generate_question example_nlp
              example_vocab example_captions example_vocab example_store
              "Noun" "a1" [] 200 [3; 1; 4; 1; 5])
    as [[[[g|] d'] t']|e] eqn:Hcall; try (vm_compute in Hcall; discriminate Hcall).
  exists g, d', t'. split; [reflexivity|].
  assert (Hu : DatabaseManager.unique_keys example_store).
  { intros r1 r2 H1 H2 _ _ _. vm_compute in H1, H2.
    apply list_elem_of_singleton in H1, H2. congruence. }
  destruct (natural_key_reuse example_nlp example_vocab example_captions
              example_vocab example_store "Noun" "a1" [] 200 [3; 1; 4; 1; 5]
              g d' t' Hu Hcall) as (Hrow & _ & _).
  apply (Hrow (DatabaseManager.QuestionRow 1 example_question)).
  - vm_compute. left.
  - vm_compute in Hcall. by injection Hcall as <- _ _.
  - vm_compute in Hcall. by injection Hcall as <- _ _.
  - vm_compute in Hcall. by injection Hcall as <- _ _.
Defined.

(** * Further properties *)

(** ** Lists: duplicates, sorting, sampling *)

Section ListFacts.

Lemma elem_of_drop_duplicates l x : x ∈ drop_duplicates l <-> x ∈ l.
Proof.
  induction l as [|y l IH]; simpl; [reflexivity|].
  rewrite !elem_of_cons, list_elem_of_filter, IH.
  destruct (decide (x = y)) as [->|Hne]; [tauto|].
  split; [intros [?|[_ ?]]; auto | intros [?|?]; auto].
Qed.

Lemma NoDup_drop_duplicates l : NoDup (drop_duplicates l).
Proof.
  induction l as [|y l IH]; simpl; [constructor|].
  apply NoDup_cons. split.
  - rewrite list_elem_of_filter. intros [Hne _]. by apply Hne.
  - by apply NoDup_filter.
Qed.

Context {A : Type}.
Implicit Types (le : A -> A -> bool) (l : list A).

Lemma sort_insert_Permutation le x l : sort_insert le x l ≡ₚ x :: l.
Proof.
  induction l as [|y l IH]; simpl; [reflexivity|].
  destruct (le x y); [reflexivity|].
  rewrite IH. apply perm_swap.
Qed.

Lemma stable_sort_Permutation le l : stable_sort le l ≡ₚ l.
Proof.
  induction l as [|x l IH]; simpl; [reflexivity|].
  by rewrite sort_insert_Permutation, IH.
Qed.

Lemma sort_insert_Sorted le x l :
  (forall a b, le a b = false -> le b a = true) ->
  Sorted (fun a b => le a b = true) l ->
  Sorted (fun a b => le a b = true) (sort_insert le x l).
Proof.
  intros Htotal. induction l as [|y l IH]; simpl; intros Hs.
  - repeat constructor.
  - destruct (le x y) eqn:Hxy.
    + constructor; [exact Hs|]. by constructor.
    + apply Sorted_inv in Hs as [Hs Hhd].
      constructor; [by apply IH|].
      destruct l as [|z l]; simpl.
      * constructor. by apply Htotal.
      * destruct (le x z) eqn:Hxz.
        -- constructor. by apply Htotal.
        -- constructor. by apply HdRel_inv in Hhd.
  Qed.

Lemma stable_sort_Sorted le l :
  (forall a b, le a b = false -> le b a = true) ->
  Sorted (fun a b => le a b = true) (stable_sort le l).
Proof.
  intros Htotal. induction l as [|x l IH]; simpl; [constructor|].
  by apply sort_insert_Sorted.
Qed.

Lemma stable_sort_StronglySorted le l :
  (forall a b, le a b = false -> le b a = true) ->
  (forall a b c, le a b = true -> le b c = true -> le a c = true) ->
  StronglySorted (fun a b => le a b = true) (stable_sort le l).
Proof.
  intros Htotal Htrans. apply Sorted_StronglySorted.
  - intros a b c. apply Htrans.
  - by apply stable_sort_Sorted.
Qed.

(** In a strongly sorted list, an earlier entry is related to a later
    one. *)
Lemma StronglySorted_lookup (R : A -> A -> Prop) l i j x y :
  StronglySorted R l -> i < j -> l !! i = Some x -> l !! j = Some y -> R x y.
Proof.
  intros Hs. revert i j. induction Hs as [|a l Hs IH Hall]; intros i j Hij Hi Hj.
  - by rewrite lookup_nil in Hi.
  - destruct j as [|j]; [lia|]. simpl in Hj.
    destruct i as [|i]; simpl in Hi.
    + injection Hi as <-. rewrite Forall_forall in Hall.
      apply Hall. apply list_elem_of_lookup. eauto.
    + apply (IH i j); [lia|done|done].
  Qed.

Lemma StronglySorted_take (R : A -> A -> Prop) l n :
  StronglySorted R l -> StronglySorted R (take n l).
Proof.
  intros Hs. revert n. induction Hs as [|a l Hs IH Hall]; intros [|n]; simpl;
    try constructor.
  - apply IH.
  - rewrite Forall_forall in *. intros y Hy. apply Hall.
    apply elem_of_take in Hy as (k & Hk & _).
    apply list_elem_of_lookup. eauto.
Qed.

(** What [random.sample] draws, drawn from a pool without repetitions. *)
Lemma sample_NoDup (pool : list A) k t :
  NoDup pool -> NoDup (fst (Random.sample pool k t)).
Proof.
  intros Hnd. destruct (sample_spec k pool t) as (rest & Hperm & _).
  rewrite <- Hperm in Hnd. by apply NoDup_app in Hnd as [? _].
Qed.

Lemma sample_elem_of (pool : list A) k t x :
  x ∈ fst (Random.sample pool k t) -> x ∈ pool.
Proof.
  intros Hx. destruct (sample_spec k pool t) as (rest & Hperm & _).
  rewrite <- Hperm. apply elem_of_app. by left.
Qed.

Lemma sample_length (pool : list A) k t :
  length (fst (Random.sample pool k t)) = Nat.min k (length pool).
Proof. by destruct (sample_spec k pool t) as (rest & _ & Hlen). Qed.

Lemma sample_nil k t : Random.sample (@nil A) k t = ([], t).
Proof. by destruct k. Qed.

End ListFacts.

(** ** The candidate sources *)

Section CandidateSources.
Import EnhancedCandidateGenerator.
Variable coco_vocab : list vocab_row.

(** The words of the question's part of speech and level. *)
Lemma elem_of_same_level_words w lemma pos cefr :
  w ∈ same_level_words coco_vocab lemma pos cefr
  <-> exists row,
        row ∈ coco_vocab /\ Word row = w
        /\ Py.lower (POS row) = Py.lower pos
        /\ Py.upper (CEFR row) = Py.upper cefr
        /\ Py.lower w ≠ Py.lower lemma.
Proof.
  unfold same_level_words.
  rewrite elem_of_drop_duplicates, list_elem_of_fmap. split.
  - intros (row & -> & Hin). apply list_elem_of_filter in Hin as [(?&?&?) ?].
    exists row. auto.
  - intros (row & Hin & <- & ? & ? & ?). exists row. split; [reflexivity|].
    apply list_elem_of_filter. auto.
Qed.

Lemma elem_of_adjacent_level_words w lemma pos adj :
  w ∈ adjacent_level_words coco_vocab lemma pos adj
  <-> exists row,
        row ∈ coco_vocab /\ Word row = w
        /\ Py.lower (POS row) = Py.lower pos
        /\ Py.upper (CEFR row) = adj
        /\ Py.lower w ≠ Py.lower lemma.
Proof.
  unfold adjacent_level_words.
  rewrite elem_of_drop_duplicates, list_elem_of_fmap. split.
  - intros (row & -> & Hin). apply list_elem_of_filter in Hin as [(?&?&?) ?].
    exists row. auto.
  - intros (row & Hin & <- & ? & ? & ?). exists row. split; [reflexivity|].
    apply list_elem_of_filter. auto.
Qed.

End CandidateSources.

Section SimilarityCandidates.
Import EnhancedCandidateGenerator.
Variable coco_vocab : list vocab_row.

Lemma measure_Some lemma word p :
  measure lemma word = Some p ->
  fst p = word
  /\ snd p = Levenshtein.distance (Py.lower lemma) (Py.lower word)
  /\ in_band lemma word.
Proof.
  unfold measure, in_band.
  destruct (_ && _) eqn:Hb; [|discriminate]. intros [= <-]. simpl.
  apply andb_true_iff in Hb as [H1 H2].
  apply Nat.leb_le in H1, H2. auto.
Qed.

Lemma NoDup_fst_omap_measure lemma pool :
  NoDup pool -> NoDup (fst <$> omap (measure lemma) pool).
Proof.
  induction pool as [|w pool IH]; intros Hnd; simpl; [constructor|].
  apply NoDup_cons in Hnd as [Hnin Hnd].
  destruct (measure lemma w) as [p|] eqn:Hm; [|by apply IH].
  simpl. apply NoDup_cons. split; [|by apply IH].
  apply measure_Some in Hm as (-> & _ & _).
  intros Hin. apply list_elem_of_fmap in Hin as (q & Hq & Hin).
  apply list_elem_of_omap in Hin as (w' & Hw' & Hm').
  apply measure_Some in Hm' as (Hfst & _ & _). congruence.
Qed.

(** X1.  [_get_similarity_candidates]: at most [max_candidates] distinct words
    of the question's part of speech and level, each within the distance
    band, in ascending order of distance. *)
Theorem similarity_candidates_in_band_ascending
    (lemma pos cefr : string) (max_candidates : nat) :
  let r := _get_similarity_candidates coco_vocab lemma pos cefr max_candidates in
  let dist w := Levenshtein.distance (Py.lower lemma) (Py.lower w) in
  length r <= max_candidates
  /\ NoDup r
  /\ (forall w, w ∈ r ->
      w ∈ same_level_words coco_vocab lemma pos cefr
      /\ Py.lower w ≠ Py.lower lemma
      /\ in_band lemma w)
  /\ (forall i j w1 w2,
      i < j -> r !! i = Some w1 -> r !! j = Some w2 -> dist w1 <= dist w2).
Proof.
  intros r dist.
  pose (pool := same_level_words coco_vocab lemma pos cefr).
  pose (le := fun x y : string * nat => snd x <=? snd y).
  pose (sorted := stable_sort le (omap (measure lemma) pool)).
  assert (Hr : r = fst <$> take max_candidates sorted).
  { subst r sorted pool. unfold _get_similarity_candidates.
    destruct (same_level_words coco_vocab lemma pos cefr) eqn:E;
      [by destruct max_candidates | reflexivity]. }
  assert (Hmem : forall p, p ∈ sorted ->
            fst p ∈ pool /\ snd p = dist (fst p) /\ in_band lemma (fst p)).
  { intros p Hp. unfold sorted in Hp. rewrite stable_sort_Permutation in Hp.
    apply list_elem_of_omap in Hp as (w & Hw & Hm).
    apply measure_Some in Hm as (-> & -> & Hb). auto. }
  assert (Hsorted : StronglySorted (fun x y => le x y = true) sorted).
  { apply stable_sort_StronglySorted; unfold le.
    - intros a b H. apply Nat.leb_gt in H. apply Nat.leb_le. lia.
    - intros a b c H1 H2. apply Nat.leb_le in H1, H2. apply Nat.leb_le. lia. }
  rewrite Hr. split; [|split; [|split]].
  - rewrite length_fmap, length_take. lia.
  - rewrite fmap_take. eapply sublist_NoDup; [|apply sublist_take].
    unfold sorted. rewrite stable_sort_Permutation.
    apply NoDup_fst_omap_measure. apply NoDup_drop_duplicates.
  - intros w Hw. apply list_elem_of_fmap in Hw as (p & -> & Hp).
    apply elem_of_take in Hp as (i & Hi & _).
    assert (Hin : p ∈ sorted) by (apply list_elem_of_lookup; eauto).
    destruct (Hmem p Hin) as (Hpool & _ & Hb).
    split; [exact Hpool|]. split; [|exact Hb].
    apply elem_of_same_level_words in Hpool as (row & _ & _ & _ & _ & Hne).
    exact Hne.
  - intros i j w1 w2 Hij H1 H2.
    apply list_lookup_fmap_Some in H1 as (p1 & -> & H1).
    apply list_lookup_fmap_Some in H2 as (p2 & -> & H2).
    pose proof (StronglySorted_lookup _ _ i j p1 p2
                  (StronglySorted_take _ _ max_candidates Hsorted) Hij H1 H2)
      as Hle.
    apply lookup_take_Some in H1 as [H1 _]. apply lookup_take_Some in H2 as [H2 _].
    assert (Hin1 : p1 ∈ sorted) by (apply list_elem_of_lookup; eauto).
    assert (Hin2 : p2 ∈ sorted) by (apply list_elem_of_lookup; eauto).
    destruct (Hmem p1 Hin1) as (_ & E1 & _).
    destruct (Hmem p2 Hin2) as (_ & E2 & _).
    unfold le in Hle. apply Nat.leb_le in Hle. lia.
Qed.

End SimilarityCandidates.

Section OtherSources.
Import EnhancedCandidateGenerator.
Variable coco_vocab : list vocab_row.

Lemma random_candidates_facts
    (lemma pos cefr : string) (max_candidates : nat) (t : tape) :
  let r := fst (_get_random_candidates coco_vocab lemma pos cefr
                  max_candidates t) in
  length r
  = Nat.min max_candidates
      (length (same_level_words coco_vocab lemma pos cefr))
  /\ NoDup r
  /\ (forall w, w ∈ r ->
      w ∈ same_level_words coco_vocab lemma pos cefr
      /\ Py.lower w ≠ Py.lower lemma).
Proof.
  intros r.
  assert (Hr : r = fst (Random.sample (same_level_words coco_vocab lemma pos cefr)
                          (Nat.min max_candidates
                             (length (same_level_words coco_vocab lemma pos cefr)))
                          t)).
  { subst r. unfold _get_random_candidates.
    destruct (same_level_words coco_vocab lemma pos cefr) eqn:E;
      [by rewrite sample_nil | reflexivity]. }
  rewrite Hr. split; [|split].
  - rewrite sample_length. lia.
  - apply sample_NoDup, NoDup_drop_duplicates.
  - intros w Hw. apply sample_elem_of in Hw. split; [exact Hw|].
    apply elem_of_same_level_words in Hw as (row & _ & _ & _ & _ & Hne).
    exact Hne.
Qed.

(** X2.  [_get_random_candidates]: [min(max_candidates, n)] distinct words out
    of the [n] words of the question's part of speech and level; the
    lemma is never among them. *)
Theorem random_candidates_distinct_from_pool
    (lemma pos cefr : string) (max_candidates : nat) (t : tape) :
  let r := fst (_get_random_candidates coco_vocab lemma pos cefr
                  max_candidates t) in
  length r
  = Nat.min max_candidates
      (length (same_level_words coco_vocab lemma pos cefr))
  /\ NoDup r
  /\ (forall w, w ∈ r ->
      w ∈ same_level_words coco_vocab lemma pos cefr
      /\ Py.lower w ≠ Py.lower lemma).
Proof. apply random_candidates_facts. Qed.

Lemma list_index_lookup x l i : list_index x l = Some i -> l !! i = Some x.
Proof.
  revert i. induction l as [|y l IH]; intros i; simpl; [discriminate|].
  case_decide as E; [subst y; by intros [= <-]|].
  destruct (list_index x l) as [k|]; [|discriminate].
  intros [= <-]. simpl. by apply IH.
Qed.

(** The neighbours of a level on the scale: at most two, never the level
    itself. *)
Lemma adjacent_levels_spec cefr :
  length (adjacent_levels cefr) <= 2
  /\ (Py.upper cefr ∉ adjacent_levels cefr)
  /\ (list_index (Py.upper cefr) cefr_levels = None ->
      adjacent_levels cefr = []).
Proof.
  unfold adjacent_levels.
  destruct (list_index (Py.upper cefr) cefr_levels) as [i|] eqn:Hi.
  - pose proof (list_index_lookup _ _ _ Hi) as Hlook.
    do 6 (destruct i as [|i];
          [simpl in Hlook; injection Hlook as <-;
           split; [simpl; lia|]; split; [|intros Hx; discriminate Hx];
           simpl; rewrite !elem_of_cons, elem_of_nil;
           intros H; decompose [or] H; done|]).
    discriminate Hlook.
  - split; [simpl; lia|]. split; [apply not_elem_of_nil | reflexivity].
Qed.

Lemma relaxed_loop_spec lemma pos levels per_level : forall acc t,
  let r := fst (relaxed_loop coco_vocab lemma pos levels per_level acc t) in
  length r <= length acc + per_level * length levels
  /\ (forall w, w ∈ r ->
      w ∈ acc
      \/ exists adj, adj ∈ levels
                     /\ w ∈ adjacent_level_words coco_vocab lemma pos adj).
Proof.
  induction levels as [|adj levels IH]; intros acc t; simpl.
  - split; [lia|]. auto.
  - destruct (adjacent_level_words coco_vocab lemma pos adj) as [|c cs] eqn:E.
    + destruct (IH acc t) as [Hlen Hmem]. split; [lia|].
      intros w Hw. destruct (Hmem w Hw) as [?|(adj' & ? & ?)]; [by left|].
      right. exists adj'. split; [by right | done].
    + pose proof (sample_length (c :: cs) (Nat.min per_level (length (c :: cs))) t)
        as Hslen.
      pose proof (sample_elem_of (c :: cs) (Nat.min per_level (length (c :: cs))) t)
        as Hsin.
      destruct (Random.sample (c :: cs) _ t) as [picked t1]. simpl in Hslen, Hsin.
      destruct (IH (acc ++ picked) t1) as [Hlen Hmem].
      split.
      * rewrite length_app in Hlen. simpl in Hslen. lia.
      * intros w Hw. destruct (Hmem w Hw) as [Hacc|(adj' & ? & ?)].
        -- apply elem_of_app in Hacc as [?|Hp]; [by left|].
           right. exists adj. split; [by left|]. rewrite E. by apply Hsin.
        -- right. exists adj'. split; [by right | done].
Qed.

(** X3.  [_get_relaxed_cefr_candidates]: at most [max_candidates] words, each a
    vocabulary word of the question's part of speech, other than the
    lemma, listed at a neighbouring level and so not at the question's
    own level in that row; for a level outside the six-level scale there
    are none and the random source is not read. *)
Theorem relaxed_candidates_from_adjacent_levels
    (lemma pos cefr : string) (max_candidates : nat) (t : tape) :
  let r := fst (_get_relaxed_cefr_candidates coco_vocab lemma pos cefr
                  max_candidates t) in
  length r <= max_candidates
  /\ (forall w, w ∈ r ->
      exists row,
        row ∈ coco_vocab /\ Word row = w
        /\ Py.lower (POS row) = Py.lower pos
        /\ Py.upper (CEFR row) ∈ adjacent_levels cefr
        /\ Py.upper (CEFR row) ≠ Py.upper cefr
        /\ Py.lower w ≠ Py.lower lemma)
  /\ (list_index (Py.upper cefr) cefr_levels = None ->
      _get_relaxed_cefr_candidates coco_vocab lemma pos cefr max_candidates t
      = ([], t)).
Proof.
  intros r. subst r. unfold _get_relaxed_cefr_candidates.
  destruct (adjacent_levels_spec cefr) as (Hlen2 & Hself & Hnone).
  destruct (relaxed_loop_spec lemma pos (adjacent_levels cefr)
              (max_candidates / length (adjacent_levels cefr)) [] t)
    as [Hlen Hmem].
  split; [|split].
  - etransitivity; [exact Hlen|]. simpl.
    destruct (adjacent_levels cefr) as [|a l]; [simpl; lia|].
    rewrite Nat.mul_comm. apply Nat.Div0.mul_div_le.
  - intros w Hw. destruct (Hmem w Hw) as [Hnil|(adj & Hadj & Hin)].
    { by apply elem_of_nil in Hnil. }
    apply elem_of_adjacent_level_words in Hin as (row & ? & ? & ? & Hc & ?).
    exists row. rewrite Hc. repeat (split; [done|]). split; [|done].
    intros ->. contradiction.
  - intros Hidx. rewrite (Hnone Hidx). reflexivity.
Qed.

End OtherSources.

(** ** Selecting the distractors *)

Section SelectBest.
Import EnhancedCandidateGenerator.

Lemma score_all_spec target candidates scored :
  score_all target candidates = Ok scored ->
  fst <$> scored = candidates
  /\ Forall (fun p => Score._calculate_distractor_score target (fst p)
                      = Ok (snd p)) scored.
Proof.
  revert scored. induction candidates as [|c cs IH]; intros scored; simpl.
  - intros [= <-]. split; [reflexivity | constructor].
  - destruct (Score._calculate_distractor_score target c) as [s|e] eqn:Hs;
      [|discriminate].
    simpl. destruct (score_all target cs) as [rest|e]; [|discriminate].
    simpl. intros [= <-]. destruct (IH rest eq_refl) as [Hf Hall].
    split; [by rewrite fmap_cons, Hf|]. constructor; [exact Hs | exact Hall].
Qed.

Lemma filter_none {A} (P : A -> Prop) `{forall x, Decision (P x)} (l : list A) :
  Forall (fun x => ~ P x) l -> filter P l = [].
Proof.
  induction 1 as [|x l Hx _ IH]; [reflexivity|].
  by rewrite filter_cons_False.
Qed.

Lemma Qle_bool_total a b : Qle_bool a b = false -> Qle_bool b a = true.
Proof.
  intros H. apply Qle_bool_iff.
  destruct (Qlt_le_dec b a) as [Hlt|Hle].
  - by apply Qlt_le_weak.
  - apply Qle_bool_iff in Hle. congruence.
Qed.

Lemma Qle_bool_trans a b c :
  Qle_bool a b = true -> Qle_bool b c = true -> Qle_bool a c = true.
Proof.
  rewrite !Qle_bool_iff. apply Qle_trans.
Qed.

(** In a list sorted by descending score, fewer than [k] entries score
    strictly above an entry found among the first [k]. *)
Lemma outscored_by_fewer (sorted : list (string * Q)) (k i : nat) p :
  StronglySorted (fun x y => Qle_bool (snd y) (snd x) = true) sorted ->
  sorted !! i = Some p -> i < k ->
  length (filter (fun q => Score.Qlt_bool (snd p) (snd q) = true) sorted) < k.
Proof.
  intros Hs Hi Hik.
  rewrite <- (take_drop_middle sorted i p Hi) in Hs |- *.
  apply StronglySorted_app_1_r in Hs as Hs2.
  apply StronglySorted_inv in Hs2 as [_ Hall].
  rewrite filter_app, filter_cons_False.
  - rewrite (filter_none _ (drop (S i) sorted)), app_nil_r.
    + pose proof (length_filter
                    (fun q => Score.Qlt_bool (snd p) (snd q) = true)
                    (take i sorted)) as H1.
      rewrite length_take in H1. lia.
    + eapply Forall_impl; [exact Hall|]. simpl. intros q Hq.
      unfold Score.Qlt_bool. rewrite Hq. discriminate.
  - unfold Score.Qlt_bool.
    assert (Qle_bool (snd p) (snd p) = true) as ->
      by (apply Qle_bool_iff, Qle_refl).
    discriminate.
Qed.

Lemma select_best_facts target candidates n t r t' :
  NoDup candidates ->
  _select_best_distractors target candidates n t = Ok (r, t') ->
  length r = Nat.min n (length candidates)
  /\ NoDup r
  /\ (forall c, c ∈ r -> c ∈ candidates)
  /\ (length candidates <= n -> r = candidates /\ t' = t)
  /\ (n < length candidates ->
      exists scored,
        score_all target candidates = Ok scored
        /\ forall c s, c ∈ r -> (c, s) ∈ scored ->
           length (filter (fun q => Score.Qlt_bool s (snd q) = true) scored)
           < n * 2).
Proof.
  intros Hnd. unfold _select_best_distractors.
  destruct (Nat.leb_spec (length candidates) n) as [Hle|Hgt].
  { intros [= <- <-]. split; [lia|]. split; [done|]. split; [done|].
    split; [done|]. intros; lia. }
  destruct (score_all target candidates) as [scored|e] eqn:Hsc; [|discriminate].
  simpl.
  destruct (score_all_spec _ _ _ Hsc) as [Hfst _].
  set (le := fun x y : string * Q => Qle_bool (snd y) (snd x)).
  set (sorted := stable_sort le scored).
  assert (Hperm : sorted ≡ₚ scored) by apply stable_sort_Permutation.
  assert (Hss : StronglySorted (fun x y => le x y = true) sorted).
  { apply stable_sort_StronglySorted; unfold le.
    - intros a b. apply Qle_bool_total.
    - intros a b c H1 H2. by apply (Qle_bool_trans _ (snd b)). }
  assert (Hndf : NoDup (fst <$> sorted)) by (by rewrite Hperm, Hfst).
  assert (Hlen : length sorted = length candidates)
    by (by rewrite Hperm, <- Hfst, length_fmap).
  pose proof (sample_spec (Nat.min n (length (take (n * 2) sorted)))
                (take (n * 2) sorted) t) as (rest & Hsp & Hsl).
  destruct (Random.sample (take (n * 2) sorted) _ t) as [selected t1].
  simpl in Hsp, Hsl. intros [= <- <-].
  assert (Hsub : forall p, p ∈ selected -> p ∈ take (n * 2) sorted).
  { intros p Hp. rewrite <- Hsp. apply elem_of_app. by left. }
  split; [|split; [|split; [|split]]].
  - rewrite length_fmap, Hsl, length_take. lia.
  - assert (NoDup (fst <$> take (n * 2) sorted)) as Hndt.
    { rewrite fmap_take. eapply sublist_NoDup; [exact Hndf | apply sublist_take]. }
    rewrite <- Hsp, fmap_app in Hndt. by apply NoDup_app in Hndt as [? _].
  - intros c Hc. apply list_elem_of_fmap in Hc as (p & -> & Hp).
    apply Hsub, elem_of_take in Hp as (i & Hi & _).
    rewrite <- Hfst, <- Hperm. apply list_elem_of_fmap_2.
    apply list_elem_of_lookup. eauto.
  - intros; lia.
  - intros _. exists scored. split; [reflexivity|].
    intros c s Hc Hcs. apply list_elem_of_fmap in Hc as (p & -> & Hp).
    apply Hsub, elem_of_take in Hp as (i & Hi & Hik).
    assert (Hpin : p ∈ sorted) by (apply list_elem_of_lookup; eauto).
    assert (Hp : p = (fst p, s)).
    { rewrite <- Hperm in Hcs.
      apply list_elem_of_lookup in Hcs as [j Hj].
      assert (i = j) as <-.
      { eapply NoDup_lookup; [exact Hndf| |];
          rewrite list_lookup_fmap; [rewrite Hi | rewrite Hj]; reflexivity. }
      congruence. }
    rewrite <- Hperm.
    pose proof (outscored_by_fewer sorted (n * 2) i p Hss Hi Hik) as Hout.
    rewrite Hp in Hout. exact Hout.
Qed.


End SelectBest.

(** ** Complete choice sets *)

Section CompleteChoiceSets.
Import DatabaseManager EnhancedCandidateGenerator.
Variable coco_vocab : list vocab_row.

Lemma list_of_set_facts l t :
  NoDup (fst (list_of_set l t))
  /\ forall x, x ∈ fst (list_of_set l t) <-> x ∈ l.
Proof.
  unfold list_of_set.
  pose proof (shuffle_Permutation (drop_duplicates l) t) as Hperm.
  split.
  - rewrite Hperm. apply NoDup_drop_duplicates.
  - intros x. rewrite Hperm. apply elem_of_drop_duplicates.
Qed.

Lemma new_choices_three_facts q t :
  complete_fields q = true ->
  2 <= length (same_level_words coco_vocab (lemma q) (Py.lower (pos q))
                 (Py.upper (cefr q))) ->
  (forall w,
     w ∈ same_level_words coco_vocab (lemma q) (Py.lower (pos q))
           (Py.upper (cefr q)) ->
     Py.lower w ≠ Py.lower (answer q)) ->
  exists d1 d2 t1,
    _generate_new_choices coco_vocab q t = Ok (Some [answer q; d1; d2], t1)
    /\ d1 ≠ d2
    /\ Py.lower d1 ≠ Py.lower (answer q)
    /\ Py.lower d2 ≠ Py.lower (answer q).
Proof.
  intros Hq Hpool Hans.
  assert (Hl : Py.truthy (lemma q) = true).
  { unfold complete_fields in Hq. by destruct (Py.truthy (lemma q)). }
  unfold _generate_new_choices. unfold complete_fields in Hq. rewrite Hq.
  cbn [negb].
  pose proof (random_candidates_facts coco_vocab (lemma q) (Py.lower (pos q))
                (Py.upper (cefr q)) 15 t) as (Hrlen & Hrnd & Hrin).
  destruct (_get_random_candidates _ _ _ _ _ t) as [rc t1].
  cbn [fst] in Hrlen, Hrnd, Hrin.
  destruct (_get_relaxed_cefr_candidates _ _ _ _ _ t1) as [xc t2].
  match goal with
  | |- context [list_of_set ?l t2] =>
      pose proof (list_of_set_facts l t2) as [Hund Huin];
      destruct (list_of_set l t2) as [uc0 t3]
  end.
  simpl in Hund, Huin.
  set (uc := filter (fun c => Py.lower c ≠ Py.lower (answer q)) uc0).
  assert (Hucnd : NoDup uc) by (by apply NoDup_filter).
  assert (Huclen : 2 <= length uc).
  { assert (Hsub : rc ⊆+ uc).
    { apply NoDup_submseteq; [exact Hrnd|]. intros w Hw.
      apply list_elem_of_filter. destruct (Hrin w Hw) as [Hp _].
      split; [by apply Hans|].
      apply Huin. rewrite !elem_of_app. auto. }
    apply submseteq_length in Hsub. lia. }
  destruct (select_best_never_raises (lemma q) uc num_distractors t3 Hl)
    as [[bd t4] Hb].
  rewrite Hb. cbn [res_bind].
  destruct (select_best_facts _ _ _ _ _ _ Hucnd Hb)
    as (Hblen & Hbnd & Hbin & _).
  assert (Hb2 : length bd = 2) by (unfold num_distractors in Hblen; lia).
  assert ((length bd <? num_distractors) = false) as ->
    by (apply Nat.ltb_ge; unfold num_distractors; lia).
  destruct bd as [|d1 [|d2 [|d3 bd]]]; try discriminate Hb2.
  exists d1, d2, t4. split; [reflexivity|].
  apply NoDup_cons in Hbnd as [Hne _].
  split; [intros ->; apply Hne; left|].
  split.
  - assert (Hd : d1 ∈ uc) by (apply Hbin; left).
    by apply list_elem_of_filter in Hd as [? _].
  - assert (Hd : d2 ∈ uc) by (apply Hbin; right; left).
    by apply list_elem_of_filter in Hd as [? _].
Qed.

(** X5.  [_generate_new_choices]: when the vocabulary lists at least two other
    words at the question's part of speech and level, none of them spelled
    like the answer (up to case), the generated list is the answer followed
    by two distractors; the three are pairwise distinct and neither
    distractor equals the answer even up to case. *)
Theorem new_choices_three_distinct (q : question_data) (t : tape) :
  complete_fields q = true ->
  2 <= length (same_level_words coco_vocab (lemma q) (Py.lower (pos q))
                 (Py.upper (cefr q))) ->
  (forall w,
     w ∈ same_level_words coco_vocab (lemma q) (Py.lower (pos q))
           (Py.upper (cefr q)) ->
     Py.lower w ≠ Py.lower (answer q)) ->
  exists d1 d2 t1,
    _generate_new_choices coco_vocab q t = Ok (Some [answer q; d1; d2], t1)
    /\ NoDup [answer q; d1; d2]
    /\ Py.lower d1 ≠ Py.lower (answer q)
    /\ Py.lower d2 ≠ Py.lower (answer q).
Proof.
  intros Hq Hpool Hans.
  destruct (new_choices_three_facts q t Hq Hpool Hans)
    as (d1 & d2 & t1 & Hg & Hne & H1 & H2).
  exists d1, d2, t1. split; [exact Hg|]. split; [|by split].
  repeat constructor; rewrite ?elem_of_cons, ?elem_of_nil;
    intros H; decompose [or] H; subst; done.
Qed.

End CompleteChoiceSets.


Lemma new_choices_three_distinct_witness :
  exists d1 d2 t1,
    EnhancedCandidateGenerator._generate_new_choices example_vocab
      example_question [5; 3; 2; 1; 7; 8; 9; 1; 2; 3; 4]
    = Ok (Some ["cat"; d1; d2], t1)
    /\ NoDup ["cat"; d1; d2].
Proof.
  destruct (new_choices_three_distinct example_vocab example_question
              [5; 3; 2; 1; 7; 8; 9; 1; 2; 3; 4])
    as (d1 & d2 & t1 & Hg & Hnd & _).
  - reflexivity.
  - vm_compute. lia.
  - intros w Hw. change (w ∈ ["dog"; "cot"; "car"]) in Hw.
    rewrite !elem_of_cons, elem_of_nil in Hw.
    decompose [or] Hw; subst; vm_compute; done.
  - exists d1, d2, t1. split; [exact Hg | exact Hnd].
Defined.

(** ** The fixed-list fallback *)

Section FixedListFallback.
Import DatabaseManager EnhancedCandidateGenerator.

Lemma take2_filter_three (x a b c : string) (rest : list string) :
  Py.lower a ≠ Py.lower b -> Py.lower a ≠ Py.lower c ->
  Py.lower b ≠ Py.lower c ->
  exists d1 d2,
    take 2 (filter (fun w => Py.lower w ≠ x) (a :: b :: c :: rest)) = [d1; d2]
    /\ d1 ≠ d2 /\ Py.lower d1 ≠ x /\ Py.lower d2 ≠ x
    /\ d1 ∈ a :: b :: c :: rest /\ d2 ∈ a :: b :: c :: rest.
Proof.
  intros Hab Hac Hbc.
  assert (Hab' : a ≠ b) by congruence.
  assert (Hac' : a ≠ c) by congruence.
  assert (Hbc' : b ≠ c) by congruence.
  destruct (decide (Py.lower a ≠ x)) as [Ha|Ha].
  - rewrite filter_cons_True by exact Ha.
    destruct (decide (Py.lower b ≠ x)) as [Hb|Hb].
    + rewrite filter_cons_True by exact Hb.
      exists a, b. simpl. rewrite !elem_of_cons. auto 10.
    + rewrite filter_cons_False by exact Hb.
      assert (Hc : Py.lower c ≠ x) by (apply dec_stable in Hb; congruence).
      rewrite filter_cons_True by exact Hc.
      exists a, c. simpl. rewrite !elem_of_cons. auto 10.
  - rewrite filter_cons_False by exact Ha. apply dec_stable in Ha.
    assert (Hb : Py.lower b ≠ x) by congruence.
    assert (Hc : Py.lower c ≠ x) by congruence.
    rewrite !filter_cons_True by assumption.
    exists b, c. simpl. rewrite !elem_of_cons. auto 10.
Qed.

Lemma fallback_choices_facts q t words :
  fallback_dict (Py.lower (pos q)) = Some words ->
  exists d1 d2,
    fst (_generate_fallback_choices q t) ≡ₚ [answer q; d1; d2]
    /\ d1 ≠ d2
    /\ Py.lower d1 ≠ Py.lower (answer q)
    /\ Py.lower d2 ≠ Py.lower (answer q)
    /\ d1 ∈ words /\ d2 ∈ words.
Proof.
  intros Hw. unfold _generate_fallback_choices. rewrite Hw. simpl default.
  assert (Hthree : exists a b c rest,
            words = a :: b :: c :: rest
            /\ Py.lower a ≠ Py.lower b /\ Py.lower a ≠ Py.lower c
            /\ Py.lower b ≠ Py.lower c).
  { revert Hw. unfold fallback_dict.
    repeat case_decide; intros [= <-]; eexists _, _, _, _;
      (split; [reflexivity|]); repeat split; vm_compute; discriminate. }
  destruct Hthree as (a & b & c & rest & -> & Hab & Hac & Hbc).
  destruct (take2_filter_three (Py.lower (answer q)) a b c rest Hab Hac Hbc)
    as (d1 & d2 & Htake & Hne & H1 & H2 & Hi1 & Hi2).
  exists d1, d2. rewrite Htake.
  split; [apply shuffle_Permutation|]. auto.
Qed.

(** X6.  [_generate_fallback_choices] for a question whose part of speech is
    noun, verb, adjective or adverb (in any case): three pairwise distinct
    choices, the answer and two words of the fixed list of that part of
    speech, neither of which equals the answer even up to case. *)
Theorem fallback_choices_three_distinct
    (q : question_data) (t : tape) (words : list string) :
  fallback_dict (Py.lower (pos q)) = Some words ->
  let r := fst (_generate_fallback_choices q t) in
  length r = 3
  /\ NoDup r
  /\ answer q ∈ r
  /\ (forall c, c ∈ r -> c ≠ answer q ->
      c ∈ words /\ Py.lower c ≠ Py.lower (answer q)).
Proof.
  intros Hw r.
  destruct (fallback_choices_facts q t words Hw)
    as (d1 & d2 & Hperm & Hne & H1 & H2 & Hi1 & Hi2).
  subst r. rewrite Hperm. split; [reflexivity|].
  assert (answer q ≠ d1) by congruence.
  assert (answer q ≠ d2) by congruence.
  split.
  { repeat constructor; rewrite ?elem_of_cons, ?elem_of_nil;
      intros H'; decompose [or] H'; done. }
  split; [left|].
  intros c Hc Hca. rewrite Hperm, !elem_of_cons, elem_of_nil in Hc.
  decompose [or] Hc; subst; done.
Qed.

Lemma fallback_choices_three_distinct_witness :
  length (fst (_generate_fallback_choices levelless_question [1; 0; 0])) = 3
  /\ NoDup (fst (_generate_fallback_choices levelless_question [1; 0; 0])).
Proof.
  destruct (fallback_choices_three_distinct levelless_question [1; 0; 0]
              ["thing"; "person"; "place"; "time"; "way"] eq_refl)
    as (Hlen & Hnd & _).
  split; [exact Hlen | exact Hnd].
Defined.

(** X7.  The final fallback of [get_or_generate_choices]: when a required
    field of the question is empty and neither the cache nor the store
    serves the call, the fixed-list choices are returned and nothing is
    written, neither to the cache nor to the database. *)
Theorem fallback_call_writes_nothing (coco_vocab : list vocab_row)
    (cache : gmap Z (list string)) (d : db) (qid : Z) (q : question_data)
    (force : bool) (t : tape) :
  complete_fields q = false ->
  (if force then None else cache !! qid) = None ->
  negb force && (length (get_choices_by_qid d qid) =? total_choices) = false ->
  get_or_generate_choices coco_vocab cache d qid q force t
  = Ok {| returned := fst (_generate_fallback_choices q t);
          cache_after := cache;
          db_after := d;
          tape_after := snd (_generate_fallback_choices q t) |}.
Proof.
  intros Hq Hc Hd. unfold get_or_generate_choices.
  rewrite Hc, Hd, (generate_new_choices_incomplete _ _ _ Hq). simpl.
  by destruct (_generate_fallback_choices q t).
Qed.

Lemma fallback_call_writes_nothing_witness :
  exists o,
    get_or_generate_choices example_vocab ∅ DatabaseManager.empty 1
      levelless_question false [1; 0; 0] = Ok o
    /\ db_after o = DatabaseManager.empty /\ cache_after o = ∅.
Proof.
  eexists. split.
  - apply (fallback_call_writes_nothing example_vocab ∅
             DatabaseManager.empty 1 levelless_question false [1; 0; 0]);
      reflexivity.
  - split; reflexivity.
Defined.

End FixedListFallback.

(** ** Reuse of stored choices *)

Section StoredChoices.
Import DatabaseManager EnhancedCandidateGenerator.

Lemma stored_choices_reused_facts (coco_vocab : list vocab_row)
    (cache : gmap Z (list string)) d qid q t :
  cache !! qid = None ->
  length (get_choices_by_qid d qid) = total_choices ->
  get_or_generate_choices coco_vocab cache d qid q false t
  = Ok {| returned := fst (Random.shuffle (get_choices_by_qid d qid) t);
          cache_after :=
            <[qid := fst (Random.shuffle (get_choices_by_qid d qid) t)]> cache;
          db_after := d;
          tape_after := snd (Random.shuffle (get_choices_by_qid d qid) t) |}.
Proof.
  intros Hc Hlen. unfold get_or_generate_choices. rewrite Hc. cbn [negb andb].
  rewrite Hlen, Nat.eqb_refl.
  by destruct (Random.shuffle (get_choices_by_qid d qid) t).
Qed.

(** X8.  The reuse path of [get_or_generate_choices]: with nothing cached for
    the question id and exactly three choices stored for it, an unforced
    call returns a permutation of the stored choices, caches the returned
    list and leaves the database as it is; the question data is not
    consulted, so the result is the same for any question passed. *)
Theorem stored_choices_reused
    (coco_vocab : list vocab_row) (cache : gmap Z (list string)) (d : db)
    (qid : Z) (q : question_data)
    (t : tape) :
  cache !! qid = None ->
  length (get_choices_by_qid d qid) = total_choices ->
  exists o,
    get_or_generate_choices coco_vocab cache d qid q false t = Ok o
    /\ returned o ≡ₚ get_choices_by_qid d qid
    /\ db_after o = d
    /\ cache_after o = <[qid := returned o]> cache
    /\ forall q',
         get_or_generate_choices coco_vocab cache d qid q' false t = Ok o.
Proof.
  intros Hc Hlen. eexists. split; [by apply stored_choices_reused_facts|].
  simpl. split; [apply shuffle_Permutation|]. split; [reflexivity|].
  split; [reflexivity|]. intros q'. by apply stored_choices_reused_facts.
Qed.

(** X9.  A choice set generated once is found again: after a call that
    generates a new set with two distractors, a later unforced call on a
    generator whose cache is empty (after [clear_cache], or on a new
    instance), for any question data and vocabulary, returns a permutation
    of the list returned first and does not write to the database. *)
Theorem generated_choices_found_after_clear_cache
    (coco_vocab : list vocab_row) (cache : gmap Z (list string)) (d : db)
    (qid : Z) (q : question_data)
    (force : bool) (t : tape) (o1 : outcome) :
  (if force then None else cache !! qid) = None ->
  negb force && (length (get_choices_by_qid d qid) =? total_choices) = false ->
  complete_fields q = true ->
  get_or_generate_choices coco_vocab cache d qid q force t = Ok o1 ->
  length (returned o1) = total_choices ->
  forall (other_vocab : list vocab_row) (q' : question_data) (t' : tape),
  exists o2,
    get_or_generate_choices other_vocab (clear_cache (cache_after o1))
      (db_after o1) qid q' false t' = Ok o2
    /\ returned o2 ≡ₚ returned o1
    /\ db_after o2 = db_after o1.
Proof.
  intros Hc Hd Hq Ho1 Hlen other_vocab q' t'.
  destruct (generate_new_choices_complete coco_vocab q t Hq) as (nc & t1 & Hg).
  rewrite (get_or_generate_choices_new coco_vocab cache d qid q force t nc t1
             Hc Hd Hg) in Ho1.
  injection Ho1 as <-. simpl in *.
  pose proof (shuffle_Permutation nc t1) as Hperm.
  assert (Hstored : get_choices_by_qid (save_choices d qid nc (answer q)) qid = nc)
    by apply get_choices_save_choices.
  assert (Hlen' : length (get_choices_by_qid
                            (save_choices d qid nc (answer q)) qid)
                  = total_choices).
  { rewrite Hstored. by rewrite <- Hperm. }
  eexists. split.
  { apply stored_choices_reused_facts; [apply lookup_empty | exact Hlen']. }
  simpl. split; [|reflexivity].
  by rewrite shuffle_Permutation, Hstored, Hperm.
Qed.

Lemma stored_choices_reused_witness :
  exists o,
    get_or_generate_choices example_vocab ∅
      (save_choices DatabaseManager.empty 1 ["cat"; "dog"; "bird"] "cat") 1
      example_question false [2; 0] = Ok o
    /\ returned o ≡ₚ ["cat"; "dog"; "bird"].
Proof.
  destruct (stored_choices_reused example_vocab ∅
              (save_choices DatabaseManager.empty 1 ["cat"; "dog"; "bird"] "cat")
              1 example_question [2; 0])
    as (o & Ho & Hperm & _).
  - reflexivity.
  - reflexivity.
  - exists o. split; [exact Ho | exact Hperm].
Defined.

Lemma generated_choices_found_after_clear_cache_witness :
  exists o1 o2,
    get_or_generate_choices example_vocab ∅ DatabaseManager.empty 1
      example_question false [5; 3; 2; 1; 7; 8; 9; 1; 2; 3; 4] = Ok o1
    /\ get_or_generate_choices two_word_vocab (clear_cache (cache_after o1))
         (db_after o1) 1 levelless_question false [4; 4] = Ok o2
    /\ returned o2 ≡ₚ returned o1.
Proof.
  destruct (get_or_generate_choices example_vocab ∅ DatabaseManager.empty 1
              example_question false [5; 3; 2; 1; 7; 8; 9; 1; 2; 3; 4])
    as [o1|e] eqn:E; [|vm_compute in E; discriminate E].
  destruct (generated_choices_found_after_clear_cache example_vocab ∅
              DatabaseManager.empty 1 example_question false
              [5; 3; 2; 1; 7; 8; 9; 1; 2; 3; 4] o1)
    with (other_vocab := two_word_vocab) (q' := levelless_question)
         (t' := [4; 4]) as (o2 & Ho2 & Hperm & _).
  - reflexivity.
  - reflexivity.
  - reflexivity.
  - exact E.
  - vm_compute in E. injection E as <-. reflexivity.
  - exists o1, o2. split; [reflexivity|]. split; [exact Ho2 | exact Hperm].
Defined.

End StoredChoices.

(** ** The compatibility entry point *)

Section Compatibility.
Import EnhancedCandidateGenerator CandidateCompatibility.
Variable coco_vocab : list vocab_row.

Lemma add_candidates_facts (q : question_data) (t : tape) :
  exists candidate t',
    add_candidates_to_question coco_vocab q t
    = Ok (candidate, length candidate, t')
    /\ length candidate <= 2
    /\ (answer q ∉ candidate)
    /\ (complete_fields q = false -> candidate = [] /\ t' = t).
Proof.
  unfold add_candidates_to_question.
  destruct (negb (Py.truthy (lemma q)) || negb (Py.truthy (Py.upper (cefr q))))
    eqn:Hguard.
  { exists [], t. split; [reflexivity|]. split; [simpl; lia|].
    split; [apply not_elem_of_nil | done]. }
  destruct (generate_new_choices_total coco_vocab q t) as [[nc t1] Hg].
  rewrite Hg. cbn [res_bind].
  destruct nc as [nc|].
  - destruct (generate_new_choices_shape coco_vocab q t nc t1 Hg)
      as (ds & -> & Hlen).
    eexists _, t1. split; [reflexivity|].
    assert (Hle : length (filter (fun c => c ≠ answer q) (answer q :: ds)) <= 2).
    { rewrite filter_cons_False by (intros H; by apply H).
      etransitivity; [apply length_filter | exact Hlen]. }
    split; [rewrite length_take; lia|].
    split.
    + intros Hin. apply elem_of_take in Hin as (i & Hi & _).
      assert (Hin : answer q ∈ filter (fun c => c ≠ answer q) (answer q :: ds))
        by (apply list_elem_of_lookup; eauto).
      apply list_elem_of_filter in Hin as [Hne _]. by apply Hne.
    + intros Hq. rewrite (generate_new_choices_incomplete _ _ _ Hq) in Hg.
      discriminate Hg.
  - exists [], t1. split; [reflexivity|]. split; [simpl; lia|].
    split; [apply not_elem_of_nil|].
    intros Hq. rewrite (generate_new_choices_incomplete _ _ _ Hq) in Hg.
    by injection Hg as <-.
Qed.

End Compatibility.

(** X10.  [add_candidates_to_question]: whenever it returns, the candidate
    list it stores has at most two entries, none of them the answer, and
    the count it reports is the length of that list; when the lemma, the
    part of speech, the level or the answer of the question is empty it
    returns the empty list with count 0, reading neither the vocabulary
    nor the random source. *)
Theorem add_candidates_excludes_answer
    (coco_vocab : list vocab_row) (q : question_data) (t : tape) :
  (complete_fields q = false ->
   forall vocabulary,
     CandidateCompatibility.add_candidates_to_question vocabulary q t
     = Ok ([], 0, t))
  /\ (forall candidate candidate_count t',
        CandidateCompatibility.add_candidates_to_question coco_vocab q t
        = Ok (candidate, candidate_count, t') ->
        candidate_count = length candidate
        /\ length candidate <= 2
        /\ answer q ∉ candidate).
Proof.
  split.
  - intros Hq vocabulary.
    destruct (add_candidates_facts vocabulary q t)
      as (candidate & t' & Hcall & _ & _ & Hempty).
    destruct (Hempty Hq) as [-> ->]. exact Hcall.
  - intros candidate candidate_count t' Hcall.
    destruct (add_candidates_facts coco_vocab q t)
      as (candidate0 & t0 & Hcall0 & Hlen & Hans & _).
    rewrite Hcall0 in Hcall. injection Hcall as <- <- <-. auto.
Qed.

Lemma add_candidates_excludes_answer_witness :
  exists candidate t',
    CandidateCompatibility.add_candidates_to_question example_vocab
      example_question [5; 3; 2; 1; 7; 8; 9; 1; 2; 3; 4]
    = Ok (candidate, 2, t')
    /\ "cat" ∉ candidate.
Proof.
  destruct (CandidateCompatibility.add_candidates_to_question example_vocab
              example_question [5; 3; 2; 1; 7; 8; 9; 1; 2; 3; 4])
    as [[[candidate n] t']|e] eqn:Hcall;
    [|vm_compute in Hcall; discriminate Hcall].
  destruct (proj2 (add_candidates_excludes_answer example_vocab
                     example_question [5; 3; 2; 1; 7; 8; 9; 1; 2; 3; 4])
              candidate n t' Hcall) as (Hn & _ & Hans).
  exists candidate, t'. split; [|exact Hans].
  vm_compute in Hcall. injection Hcall as <- <- <-. reflexivity.
Defined.


(** ** Users *)

Section Users.
Import UserManagement.

Lemma find_username_Some u name r :
  List.find (fun r => bool_decide (username r = name)) (rows u) = Some r ->
  r ∈ rows u /\ username r = name.
Proof.
  intros H. apply List.find_some in H as [Hin Hb].
  apply list_elem_of_In in Hin. by apply bool_decide_eq_true in Hb.
Qed.

Lemma find_username_None u name :
  List.find (fun r => bool_decide (username r = name)) (rows u) = None ->
  name ∉ username <$> rows u.
Proof.
  intros H Hin. apply list_elem_of_fmap in Hin as (r & -> & Hr).
  apply list_elem_of_In in Hr.
  pose proof (List.find_none _ _ H r Hr) as Hb. simpl in Hb.
  by apply bool_decide_eq_false in Hb.
Qed.

Lemma get_or_create_user_facts u name :
  well_formed u ->
  let id := fst (get_or_create_user u name) in
  let u' := snd (get_or_create_user u name) in
  well_formed u'
  /\ UserRow id name ∈ rows u'
  /\ get_or_create_user u' name = (id, u')
  /\ (forall r, r ∈ rows u -> r ∈ rows u')
  /\ (name ∈ username <$> rows u -> u' = u).
Proof.
  intros (Hnames & Hids & Hseq). unfold get_or_create_user.
  destruct (List.find _ (rows u)) as [r|] eqn:Hf; simpl.
  - destruct (find_username_Some _ _ _ Hf) as [Hin Hname].
    split; [done|]. split; [by destruct r; simpl in *; subst|].
    rewrite Hf. auto.
  - pose proof (find_username_None _ _ Hf) as Hfresh.
    split; [|split; [|split; [|split]]].
    + split; [|split]; simpl.
      * rewrite fmap_app. apply NoDup_app. split; [done|].
        split; [|apply NoDup_singleton].
        intros x Hx Hx'. apply list_elem_of_singleton in Hx'. by subst.
      * rewrite fmap_app. apply NoDup_app. split; [done|].
        split; [|apply NoDup_singleton].
        intros x Hx Hx'. apply list_elem_of_singleton in Hx'. simpl in Hx'.
        subst x. apply list_elem_of_fmap in Hx as (r & Hr & Hin).
        rewrite Forall_forall in Hseq. specialize (Hseq r Hin). lia.
      * apply Forall_app. split.
        -- eapply Forall_impl; [exact Hseq|]. simpl. intros; lia.
        -- constructor; [simpl; lia | constructor].
    + apply elem_of_app. right. by left.
    + rewrite find_app_none by exact Hf. simpl.
      by rewrite bool_decide_eq_true_2.
    + intros r Hr. apply elem_of_app. by left.
    + intros Hin. contradiction.
Qed.

(** X11.  [get_or_create_user] on a table that respects its schema: the call
    leaves a row for the name with the returned id in the table, which
    still respects the schema; calling again with the same name returns
    the same id and changes nothing; no existing row is lost; and two
    different names never get the same id. *)
Theorem get_or_create_user_idempotent (u : users) (name other : string) :
  well_formed u ->
  let id := fst (get_or_create_user u name) in
  let u' := snd (get_or_create_user u name) in
  well_formed u'
  /\ get_user_by_id u' id = Some (UserRow id name)
  /\ get_or_create_user u' name = (id, u')
  /\ (forall r, r ∈ rows u -> r ∈ rows u')
  /\ (other ≠ name -> fst (get_or_create_user u' other) ≠ id).
Proof.
  intros Hwf id u'.
  destruct (get_or_create_user_facts u name Hwf)
    as (Hwf' & Hrow & Hagain & Hkeep & _).
  fold id u' in Hwf', Hrow, Hagain, Hkeep.
  assert (Hbyid : forall v i n, well_formed v -> UserRow i n ∈ rows v ->
            get_user_by_id v i = Some (UserRow i n)).
  { intros v i n (_ & Hids & _) Hin. unfold get_user_by_id.
    destruct (List.find _ (rows v)) as [r|] eqn:Hf.
    - apply List.find_some in Hf as [Hr Hb]. apply list_elem_of_In in Hr.
      apply bool_decide_eq_true in Hb.
      apply list_elem_of_lookup in Hr as [j Hj].
      apply list_elem_of_lookup in Hin as [k Hk].
      assert (j = k) as ->.
      { eapply NoDup_lookup; [exact Hids| |];
          rewrite list_lookup_fmap; [rewrite Hj | rewrite Hk]; simpl;
          [by rewrite Hb | reflexivity]. }
      congruence.
    - apply list_elem_of_In in Hin.
      pose proof (List.find_none _ _ Hf _ Hin) as Hb. simpl in Hb.
      by apply bool_decide_eq_false in Hb. }
  split; [exact Hwf'|]. split; [by apply Hbyid|]. split; [exact Hagain|].
  split; [exact Hkeep|].
  intros Hne Heq.
  destruct (get_or_create_user_facts u' other Hwf')
    as (Hwf'' & Hrow2 & _ & Hkeep2 & _).
  rewrite Heq in Hrow2.
  apply Hkeep2 in Hrow.
  pose proof (Hbyid _ _ _ Hwf'' Hrow) as H1.
  pose proof (Hbyid _ _ _ Hwf'' Hrow2) as H2.
  congruence.
Qed.

Lemma get_or_create_user_idempotent_witness :
  well_formed UserManagement.empty
  /\ fst (get_or_create_user
            (snd (get_or_create_user UserManagement.empty "alice")) "bob")
     ≠ fst (get_or_create_user UserManagement.empty "alice").
Proof.
  assert (Hwf : well_formed UserManagement.empty).
  { split; [constructor|]. split; constructor. }
  split; [exact Hwf|].
  destruct (get_or_create_user_idempotent UserManagement.empty "alice" "bob"
              Hwf) as (_ & _ & _ & _ & Hne).
  apply Hne. discriminate.
Defined.

End Users.

(** ** Stored questions *)

Section StoredQuestions.
Import DatabaseManager Queries.

Lemma find_app_some {A} (f : A -> bool) l1 l2 x :
  List.find f l1 = Some x -> List.find f (l1 ++ l2) = Some x.
Proof.
  induction l1 as [|y l1 IH]; simpl; [discriminate|].
  destruct (f y); [done | exact IH].
Qed.

Lemma get_question_by_id_row d r :
  NoDup (qid <$> questions d) -> r ∈ questions d ->
  get_question_by_id d (qid r) = Some (q_data r).
Proof.
  intros Hnd Hin. unfold get_question_by_id.
  destruct (List.find _ (questions d)) as [r'|] eqn:Hf; simpl.
  - apply List.find_some in Hf as [Hr Hb]. apply list_elem_of_In in Hr.
    apply bool_decide_eq_true in Hb.
    apply list_elem_of_lookup in Hr as [j Hj].
    apply list_elem_of_lookup in Hin as [k Hk].
    assert (j = k) as ->.
    { eapply NoDup_lookup; [exact Hnd| |];
        rewrite list_lookup_fmap; [rewrite Hj | rewrite Hk]; simpl;
        [by rewrite Hb | reflexivity]. }
    congruence.
  - apply list_elem_of_In in Hin.
    pose proof (List.find_none _ _ Hf _ Hin) as Hb. simpl in Hb.
    by apply bool_decide_eq_false in Hb.
Qed.

Lemma save_question_well_formed_ids d qd :
  well_formed_ids d -> well_formed_ids (snd (save_question d qd)).
Proof.
  intros [Hnd Hseq].
  destruct (select_qid d (lemma qd) (pos qd) (cefr qd)) as [e|] eqn:Hs.
  - by rewrite (save_question_existing _ _ _ Hs).
  - rewrite (save_question_fresh _ _ Hs). split; simpl.
    + rewrite fmap_app. apply NoDup_app. split; [done|].
      split; [|apply NoDup_singleton].
      intros x Hx Hx'. apply list_elem_of_singleton in Hx'. simpl in Hx'.
      subst x. apply list_elem_of_fmap in Hx as (r & Hr & Hin).
      rewrite Forall_forall in Hseq. specialize (Hseq r Hin). lia.
    + apply Forall_app. split.
      * eapply Forall_impl; [exact Hseq|]. simpl. intros; lia.
      * constructor; [simpl; lia | constructor].
Qed.

(** X12.  [save_question] and [get_question_by_id]: a stored question is never
    changed or lost by [save_question]; on a table whose ids respect the
    primary key, the table still does afterwards, the returned id always
    designates a stored question with the natural key of the one saved,
    and when that key was not stored before, the id is new (one above the
    sequence counter) and reading it back gives exactly the saved
    question. *)
Theorem save_question_read_back (d : db) (qd : question_data) :
  let id := fst (save_question d qd) in
  let d' := snd (save_question d qd) in
  (forall q0 x, get_question_by_id d q0 = Some x ->
                get_question_by_id d' q0 = Some x)
  /\ (well_formed_ids d ->
      well_formed_ids d'
      /\ (exists x, get_question_by_id d' id = Some x
                    /\ lemma x = lemma qd /\ pos x = pos qd
                    /\ cefr x = cefr qd)
      /\ (select_qid d (lemma qd) (pos qd) (cefr qd) = None ->
          id = (questions_seq d + 1)%Z
          /\ get_question_by_id d' id = Some qd
          /\ get_question_by_id d id = None)).
Proof.
  intros id d'. subst id d'. split.
  - intros q0 x Hx.
    destruct (select_qid d (lemma qd) (pos qd) (cefr qd)) as [e|] eqn:Hs.
    + by rewrite (save_question_existing _ _ _ Hs).
    + rewrite (save_question_fresh _ _ Hs). unfold get_question_by_id in *.
      simpl. destruct (List.find _ (questions d)) as [r|] eqn:Hf;
        [|discriminate].
      by rewrite (find_app_some _ _ _ _ Hf).
  - intros Hwf. split; [by apply save_question_well_formed_ids|].
    pose proof (save_question_well_formed_ids d qd Hwf) as [Hnd' _].
    destruct Hwf as [Hnd Hseq].
    assert (Hfresh : get_question_by_id d (questions_seq d + 1) = None).
    { unfold get_question_by_id.
      destruct (List.find _ (questions d)) as [r|] eqn:Hf; [|reflexivity].
      apply List.find_some in Hf as [Hr Hb]. apply list_elem_of_In in Hr.
      apply bool_decide_eq_true in Hb.
      rewrite Forall_forall in Hseq. specialize (Hseq r Hr). lia. }
    destruct (select_qid d (lemma qd) (pos qd) (cefr qd)) as [e|] eqn:Hs.
    + rewrite (save_question_existing _ _ _ Hs). simpl.
      split; [|intros; discriminate].
      unfold select_qid in Hs.
      destruct (List.find _ (questions d)) as [r|] eqn:Hf; [|discriminate].
      injection Hs as <-.
      apply List.find_some in Hf as [Hr Hk]. apply list_elem_of_In in Hr.
      apply natural_key_is_true in Hk as (? & ? & ?).
      exists (q_data r). split; [by apply get_question_by_id_row|]. auto.
    + rewrite (save_question_fresh _ _ Hs) in *. simpl in *.
      assert (Hget : get_question_by_id
                       {| questions :=
                            questions d
                            ++ [QuestionRow (questions_seq d + 1) qd];
                          questions_seq := (questions_seq d + 1)%Z;
                          choices := choices d;
                          learning_logs := learning_logs d;
                          learning_sessions := learning_sessions d |}
                       (questions_seq d + 1) = Some qd).
      { apply (get_question_by_id_row _ (QuestionRow (questions_seq d + 1) qd));
          [exact Hnd'|]. simpl. apply elem_of_app. right. by left. }
      split; [eauto 10|]. intros _. auto.
Qed.

Lemma save_question_read_back_witness :
  well_formed_ids DatabaseManager.empty
  /\ get_question_by_id example_store 1 = Some example_question.
Proof.
  assert (Hwf : well_formed_ids DatabaseManager.empty)
    by (split; constructor).
  split; [exact Hwf|].
  destruct (save_question_read_back DatabaseManager.empty example_question)
    as (_ & Hrt).
  destruct (Hrt Hwf) as (_ & _ & Hfresh).
  destruct (Hfresh eq_refl) as (_ & Hget & _). exact Hget.
Defined.

(** X13.  [get_question_by_criteria] returns a stored question whose part of
    speech and level are the normalised arguments and whose id is not
    excluded; it returns nothing only when no stored question qualifies. *)
Theorem question_by_criteria_respects_filters
    (d : db) (pos_arg cefr_arg : string) (exclude_qids : list Z) (t : tape) :
  match fst (get_question_by_criteria d pos_arg cefr_arg exclude_qids t) with
  | Some r =>
      r ∈ questions d
      /\ pos (q_data r) = Py.lower pos_arg
      /\ cefr (q_data r) = Py.upper cefr_arg
      /\ qid r ∉ exclude_qids
  | None =>
      forall r, r ∈ questions d ->
                pos (q_data r) = Py.lower pos_arg ->
                cefr (q_data r) = Py.upper cefr_arg ->
                qid r ∈ exclude_qids
  end.
Proof.
  unfold get_question_by_criteria.
  set (P := fun r : question_row =>
              pos (q_data r) = Py.lower pos_arg
              ∧ cefr (q_data r) = Py.upper cefr_arg ∧ qid r ∉ exclude_qids).
  destruct (filter P (questions d)) as [|r0 rs] eqn:Hsel.
  - simpl. intros r Hr Hp Hc.
    destruct (decide (qid r ∈ exclude_qids)) as [|Hnin]; [done|].
    assert (Hin : r ∈ filter P (questions d))
      by (apply list_elem_of_filter; unfold P; auto).
    rewrite Hsel in Hin. by apply elem_of_nil in Hin.
  - pose proof (sample_length (r0 :: rs) 1 t) as Hlen.
    pose proof (sample_elem_of (r0 :: rs) 1 t) as Hin.
    destruct (Random.sample (r0 :: rs) 1 t) as [drawn t1].
    simpl in Hlen, Hin |- *.
    destruct drawn as [|r drawn]; [discriminate Hlen|]. simpl.
    assert (Hr : r ∈ filter P (questions d))
      by (rewrite Hsel; apply Hin; left).
    apply list_elem_of_filter in Hr as [(? & ? & ?) ?]. auto.
Qed.

End StoredQuestions.

(** ** Feedback, log and completion *)

Section ProcessedAnswers.
Import DatabaseManager Queries ResultProcessor SessionRun.

(** X14.  A submission that matches the answer after trimming and
    lower-casing, in a valid session: the feedback is the [Correct] one,
    it discloses the stored answer, its completed sentence is built from
    the stored answer (not from what was typed), it carries no image, and
    the image generator is not consulted: the outcome is the same for
    every generator. *)
Theorem correct_answer_feedback
    (ig : Z -> question_data -> string -> image_outcome)
    (d : db) (sid : string) (qid : Z) (q : question_data) (a : string)
    (s : session_row) :
  get_session_info d sid = Some s ->
  Py.lower (Py.strip a) = Py.lower (Py.strip (answer q)) ->
  (exists f,
     fst (process_user_answer ig d sid qid q a) = Ok (Correct f)
     /\ CorrectFeedback.is_correct f = true
     /\ CorrectFeedback.correct_answer f = answer q
     /\ CorrectFeedback.explanation f = "正解は「" +:+ answer q +:+ "」です。"
     /\ CorrectFeedback.completed_sentence f
        = _generate_completed_sentence (blankquestion q) (answer q)
     /\ CorrectFeedback.image_path f = None
     /\ CorrectFeedback.generated_image_path f = None)
  /\ (forall ig',
        process_user_answer ig' d sid qid q a
        = process_user_answer ig d sid qid q a).
Proof.
  intros Hs Heq. unfold process_user_answer. rewrite Hs.
  rewrite bool_decide_eq_true_2 by exact Heq. simpl.
  split; [|reflexivity].
  eexists. split; [reflexivity|]. simpl. auto 10.
Qed.

Lemma correct_answer_feedback_witness :
  exists f,
    fst (process_user_answer failing_generator example_db "s1" 1
           example_question "  CAT ") = Ok (Correct f)
    /\ CorrectFeedback.completed_sentence f = "A cat sitting on a table".
Proof.
  destruct (correct_answer_feedback failing_generator example_db "s1" 1
              example_question "  CAT " example_session eq_refl eq_refl)
    as [(f & Hf & _ & _ & _ & Hsent & _) _].
  exists f. split; [exact Hf|]. rewrite Hsent. reflexivity.
Defined.

(** X15.  Every answer processed in a valid session is answered with
    feedback and advances the session, and it appends exactly one row to
    the learning log (the session's user, the question id, the answer as
    submitted, its correctness, the image path of the feedback and the
    session id) whenever the user id and the question id fit SQLite's
    64-bit integers; the question id is then among the session's
    answered questions.  When one of them does not fit, the failure of
    the insert is swallowed and the log stays as it was.  Questions and
    choices are untouched in either case. *)
Theorem processed_answer_is_logged
    (ig : Z -> question_data -> string -> image_outcome)
    (d : db) (sid : string) (qid : Z) (q : question_data) (a : string)
    (s : session_row) :
  get_session_info d sid = Some s ->
  let d' := snd (process_user_answer ig d sid qid q a) in
  let correct :=
    bool_decide (Py.lower (Py.strip a) = Py.lower (Py.strip (answer q))) in
  (if sqlite_integer (user_id s) && sqlite_integer qid then
     learning_logs d'
     = learning_logs d
       ++ [ {| l_user_id := user_id s;
               l_qid := qid;
               selected_choice := a;
               l_is_correct := correct;
               generated_image_path :=
                 if correct then None
                 else match ig qid q a with
                      | ImagePath path => Some path
                      | _ => None
                      end;
               l_session_id := sid |} ]
     /\ qid ∈ get_session_questions_answered d' sid
   else learning_logs d' = learning_logs d)
  /\ (exists f, fst (process_user_answer ig d sid qid q a) = Ok f)
  /\ learning_sessions d' = learning_sessions (update_session_progress d sid)
  /\ questions d' = questions d
  /\ choices d' = choices d.
Proof.
  intros Hs d' correct.
  pose proof (process_user_answer_sessions ig d sid qid q a s Hs) as Hsess.
  subst d'. revert Hsess. unfold process_user_answer. rewrite Hs.
  fold correct. cbn [fst snd]. intros Hsess.
  assert (Hlog :
    feedback_generated_image_path
      (if correct then _process_correct_answer q (answer q)
       else _process_incorrect_answer ig qid q a (answer q))
    = if correct then None
      else match ig qid q a with ImagePath path => Some path | _ => None end).
  { destruct correct; [reflexivity|]. simpl. by destruct (ig qid q a). }
  rewrite Hlog in *.
  split; [|split; [eauto|split; [exact Hsess|]]].
  - unfold get_session_questions_answered.
    unfold update_session_progress, _save_learning_log, save_learning_log.
    cbn [l_user_id l_qid].
    destruct (sqlite_integer (user_id s) && sqlite_integer qid);
      [|reflexivity].
    simpl. split; [reflexivity|].
    apply elem_of_remove_dups, list_elem_of_fmap.
    eexists. split; [|apply list_elem_of_filter; split;
                       [|apply elem_of_app; right; left]]; reflexivity.
  - unfold update_session_progress, _save_learning_log, save_learning_log.
    cbn [l_user_id l_qid].
    by destruct (sqlite_integer (user_id s) && sqlite_integer qid).
Qed.

Lemma processed_answer_is_logged_witness :
  get_session_questions_answered
    (snd (process_user_answer failing_generator example_db "s1" 7
            example_question "dog")) "s1" = [7%Z]
  /\ learning_logs
       (snd (process_user_answer failing_generator example_db "s1"
               (2 ^ 63) example_question "dog")) = [].
Proof.
  split.
  - destruct (processed_answer_is_logged failing_generator example_db "s1" 7
                example_question "dog" example_session eq_refl)
      as ([Hlog _] & _).
    unfold get_session_questions_answered. rewrite Hlog. reflexivity.
  - exact (proj1 (processed_answer_is_logged failing_generator example_db
                    "s1" (2 ^ 63) example_question "dog" example_session
                    eq_refl)).
Defined.

Lemma answers_advance ops : forall d sid s,
  learning_sessions d !! sid = Some s ->
  Forall (answers_in sid) ops ->
  learning_sessions (run d ops) !! sid
  = Some {| user_id := user_id s; mode := mode s;
            pos_filter := pos_filter s; cefr_filter := cefr_filter s;
            total_questions := total_questions s;
            current_question :=
              (current_question s + Z.of_nat (length ops))%Z;
            is_completed := is_completed s |}.
Proof.
  induction ops as [|o ops IH]; intros d sid s Hs Hall.
  - simpl. rewrite Hs, Z.add_0_r. by destruct s.
  - apply Forall_cons in Hall as [Ho Hall].
    destruct o as [ig sid' qid q a| | |]; simpl in Ho; try contradiction.
    subst sid'. simpl.
    erewrite IH; [| |exact Hall].
    2:{ rewrite (process_user_answer_sessions _ _ _ _ _ _ _ Hs). simpl.
        rewrite lookup_alter_eq, Hs. reflexivity. }
    simpl. do 2 f_equal. lia.
Qed.

(** X16.  From a new session to completion: after [create_learning_session]
    with [total_questions] questions, and any number of processed answers
    of that session (right or wrong, whatever the image generator does),
    [check_session_completion] answers exactly whether the number of
    answers has reached [total_questions]. *)
Theorem session_completes_after_total_answers
    (d d0 : db) (sid : string) (uid : Z) (mode_arg pos_arg cefr_arg : string)
    (total : Z) (ops : list op) :
  create_learning_session d sid uid mode_arg pos_arg cefr_arg total = Ok d0 ->
  Forall (answers_in sid) ops ->
  fst (check_session_completion (run d0 ops) sid)
  = bool_decide (total <= Z.of_nat (length ops))%Z.
Proof.
  intros Hcreate Hall.
  assert (Hs : learning_sessions d0 !! sid
               = Some {| user_id := uid; mode := mode_arg;
                         pos_filter := Py.lower pos_arg;
                         cefr_filter := Py.upper cefr_arg;
                         total_questions := total;
                         current_question := 0; is_completed := false |}).
  { revert Hcreate. unfold create_learning_session.
    destruct (learning_sessions d !! sid); [discriminate|].
    destruct (negb _); [discriminate|].
    intros [= <-]. simpl. apply lookup_insert_eq. }
  pose proof (answers_advance ops d0 sid _ Hs Hall) as Hrun. simpl in Hrun.
  rewrite Z.add_0_l in Hrun.
  unfold check_session_completion, get_session_info. rewrite Hrun. simpl.
  destruct (Z.leb_spec total (Z.of_nat (length ops))) as [Hle|Hgt]; simpl.
  - by rewrite bool_decide_eq_true_2.
  - by rewrite bool_decide_eq_false_2 by lia.
Qed.

Lemma session_completes_after_total_answers_witness :
  fst (check_session_completion
         (run example_db
            [ProcessUserAnswer failing_generator "s1" 1 example_question "dog";
             ProcessUserAnswer failing_generator "s1" 2 example_question "cat"])
         "s1") = true.
Proof.
  rewrite (session_completes_after_total_answers DatabaseManager.empty
             example_db "s1" 1 "learning" "noun" "A1" 2
             [ProcessUserAnswer failing_generator "s1" 1 example_question "dog";
              ProcessUserAnswer failing_generator "s1" 2 example_question "cat"]).
  - reflexivity.
  - reflexivity.
  - repeat constructor.
Defined.

(** X17.  [check_session_completion]: it answers [True] exactly for a stored
    session whose counter has reached its total or that is already marked
    completed; then the session is marked completed in the store; an
    unknown session gives [False]; other sessions are never touched;
    asking again gives the same answer and changes nothing more. *)
Theorem check_session_completion_spec (d : db) (sid : string) :
  let b := fst (check_session_completion d sid) in
  let d' := snd (check_session_completion d sid) in
  (b = true <->
   exists s, get_session_info d sid = Some s
             /\ ((total_questions s <= current_question s)%Z
                 \/ is_completed s = true))
  /\ (b = true ->
      exists s', get_session_info d' sid = Some s'
                 /\ is_completed s' = true)
  /\ (b = false -> d' = d)
  /\ (forall other, other ≠ sid ->
        get_session_info d' other = get_session_info d other)
  /\ check_session_completion d' sid = (b, d').
Proof.
  unfold check_session_completion, get_session_info.
  destruct (learning_sessions d !! sid) as [s|] eqn:Hs; simpl.
  - destruct (Z.leb_spec (total_questions s) (current_question s))
      as [Hle|Hgt]; simpl.
    + split; [split; [eauto|done]|].
      rewrite lookup_alter_eq, Hs. simpl.
      split; [eauto|]. split; [discriminate|].
      split; [intros other Hne; by rewrite lookup_alter_ne|].
      destruct (Z.leb_spec (total_questions s) (current_question s));
        [|lia].
      f_equal. unfold complete_session, set_sessions. simpl. f_equal.
      apply map_eq. intros k. destruct (decide (k = sid)) as [->|Hne].
      * rewrite !lookup_alter_eq, Hs. reflexivity.
      * by rewrite !lookup_alter_ne.
    + rewrite Hs. simpl.
      destruct (Z.leb_spec (total_questions s) (current_question s));
        [lia|].
      split.
      { split; [intros Hb; exists s; auto|].
        intros (s0 & [= <-] & [?|?]); [lia|done]. }
      split; [intros Hb; eauto|]. auto.
  - rewrite Hs. split.
    { split; [discriminate|]. intros (s & ? & _). discriminate. }
    split; [discriminate|]. auto.
Qed.

End ProcessedAnswers.

(** ** Joining tokens *)

Section JoinTokens.
Import ResultProcessor.

Lemma string_app_assoc (a b c : string) : (a +:+ b) +:+ c = a +:+ b +:+ c.
Proof.
  induction a as [|x a IH]; [reflexivity|].
  change (String x ((a +:+ b) +:+ c) = String x (a +:+ b +:+ c)).
  by rewrite IH.
Qed.

Lemma string_app_nil_r (a : string) : a +:+ "" = a.
Proof.
  induction a as [|x a IH]; [reflexivity|].
  change (String x (a +:+ "") = String x a). by rewrite IH.
Qed.

Lemma concat_empty_cons x xs :
  String.concat "" (x :: xs) = x +:+ String.concat "" xs.
Proof.
  destruct xs as [|y xs]; cbn [String.concat].
  - by rewrite string_app_nil_r.
  - reflexivity.
Qed.

Lemma join_loop_plain tokens : forall sentence prev,
  Py.endswith_apostrophe prev = false ->
  Forall plain_token tokens ->
  join_loop sentence prev tokens
  = sentence
    +:+ String.concat "" ((fun token => " " +:+ token) <$> tokens).
Proof.
  induction tokens as [|tok tokens IH]; intros sentence prev Hprev Hall.
  - simpl. by rewrite string_app_nil_r.
  - apply Forall_cons in Hall as [(Hc & Hs & He) Hall].
    cbn [join_loop]. rewrite Hc, Hs, Hprev. cbn [orb].
    rewrite (IH _ tok He Hall).
    by rewrite fmap_cons, concat_empty_cons, !string_app_assoc.
Qed.

Lemma concat_space first rest :
  String.concat " " (first :: rest)
  = first +:+ String.concat "" ((fun token => " " +:+ token) <$> rest).
Proof.
  revert first. induction rest as [|tok rest IH]; intros first.
  - simpl. by rewrite string_app_nil_r.
  - change (String.concat " " (first :: tok :: rest))
      with (first +:+ " " +:+ String.concat " " (tok :: rest)).
    by rewrite (IH tok), fmap_cons, concat_empty_cons, !string_app_assoc.
Qed.

Lemma last_cons_default {A} (x : A) l d d' :
  List.last (x :: l) d = List.last (x :: l) d'.
Proof.
  revert x. induction l as [|y l IH]; intros x; [reflexivity|].
  change (List.last (y :: l) d = List.last (y :: l) d'). apply IH.
Qed.

Lemma join_loop_app l1 : forall sentence prev l2,
  join_loop sentence prev (l1 ++ l2)
  = join_loop (join_loop sentence prev l1) (List.last l1 prev) l2.
Proof.
  induction l1 as [|tok l1 IH]; intros sentence prev l2; [reflexivity|].
  cbn [join_loop app]. rewrite IH. f_equal.
  destruct l1 as [|y l1]; [reflexivity|].
  change (List.last (tok :: y :: l1) prev) with (List.last (y :: l1) prev).
  apply last_cons_default.
Qed.

(** X18.  [_join_tokens_to_sentence]: no tokens give the empty sentence;
    ordinary words (no punctuation, no apostrophe at either end) are
    joined by single spaces; and a closing token that is a piece of the
    string [.,!?;:] (a single punctuation mark, for one) is attached to
    what precedes it without a space. *)
Theorem join_tokens_spaces_and_punctuation :
  _join_tokens_to_sentence [] = ""
  /\ (forall tokens,
        Forall plain_token tokens ->
        _join_tokens_to_sentence tokens = String.concat " " tokens)
  /\ (forall tokens mark,
        tokens ≠ [] ->
        contains mark ".,!?;:" = true ->
        _join_tokens_to_sentence (tokens ++ [mark])
        = _join_tokens_to_sentence tokens +:+ mark).
Proof.
  split; [reflexivity|]. split.
  - intros [|first rest] Hall; [reflexivity|].
    apply Forall_cons in Hall as [(_ & _ & He) Hall].
    unfold _join_tokens_to_sentence.
    by rewrite (join_loop_plain rest first first He Hall), concat_space.
  - intros [|first rest] mark Hne Hmark; [done|].
    unfold _join_tokens_to_sentence. cbn [app].
    rewrite join_loop_app. cbn [join_loop]. by rewrite Hmark.
Qed.

End JoinTokens.
(** ** Drawing a question from the vocabulary *)

Section RandomQuestion.
Import DatabaseManager EnhancedQuestionGenerator.

Variable nlp : string -> option (list token).
Variable coco_vocab : list vocab_row.
Variable caption_dict : gmap string string.

Lemma excluded_lemmas_fold d qids : forall (acc : gset string) w,
  w ∈ foldl (fun excluded_lemmas qid =>
               match get_question_by_id d qid with
               | Some question => {[lemma question]} ∪ excluded_lemmas
               | None => excluded_lemmas
               end) acc qids
  <-> w ∈ acc
      \/ exists qid question,
           qid ∈ qids /\ get_question_by_id d qid = Some question
           /\ lemma question = w.
Proof.
  induction qids as [|qid qids IH]; intros acc w; simpl.
  - split; [auto|]. intros [H|(qid & question & H & _)]; [done|].
    by apply not_elem_of_nil in H.
  - rewrite IH. split.
    + intros [H|(qid' & question & Hin & Hq & Hl)].
      * destruct (get_question_by_id d qid) as [question|] eqn:Hq; [|auto].
        apply elem_of_union in H as [H|H]; [|auto].
        apply elem_of_singleton in H. right. exists qid, question.
        split; [left|]. by split.
      * right. exists qid', question. split; [by right|]. by split.
    + intros [H|(qid' & question & Hin & Hq & Hl)].
      * left. destruct (get_question_by_id d qid); [|done].
        apply elem_of_union. by right.
      * apply elem_of_cons in Hin as [->|Hin].
        -- left. rewrite Hq. apply elem_of_union. left.
           by apply elem_of_singleton.
        -- right. exists qid', question. by split.
Qed.

Lemma excluded_lemmas_spec d exclude_qids w :
  w ∈ _get_excluded_lemmas_from_session d exclude_qids
  <-> exists qid question,
        qid ∈ exclude_qids /\ get_question_by_id d qid = Some question
        /\ lemma question = w.
Proof.
  unfold _get_excluded_lemmas_from_session. rewrite excluded_lemmas_fold.
  split; [|auto]. intros [H|H]; [|exact H]. by apply not_elem_of_empty in H.
Qed.

Lemma process_caption_fields cap target cap_id img_id pf cf q :
  _process_caption_with_spacy nlp cap target cap_id img_id pf cf = Some q ->
  caption q = cap /\ id q = cap_id /\ image_id q = img_id
  /\ lemma q = target /\ Py.truthy (answer q) = true.
Proof.
  unfold _process_caption_with_spacy.
  destruct (nlp cap) as [doc|]; [|discriminate].
  destruct (blank_loop _ _ _ _) as [[answer_word|] blanked_tokens];
    [|discriminate].
  destruct (Py.truthy answer_word) eqn:Ht; [|discriminate].
  intros [= <-]. simpl. auto.
Qed.

Lemma try_rows_row rows pf cf q :
  try_rows nlp caption_dict rows pf cf = Some q ->
  exists row, row ∈ rows
    /\ lemma q = Word row /\ id q = CaptionID row /\ image_id q = ImageID row
    /\ caption_dict !! CaptionID row = Some (caption q)
    /\ Py.truthy (answer q) = true.
Proof.
  induction rows as [|row rows IH]; simpl; [discriminate|].
  assert (Hrest : try_rows nlp caption_dict rows pf cf = Some q ->
                  exists row0, row0 ∈ row :: rows
                    /\ lemma q = Word row0 /\ id q = CaptionID row0
                    /\ image_id q = ImageID row0
                    /\ caption_dict !! CaptionID row0 = Some (caption q)
                    /\ Py.truthy (answer q) = true).
  { intros H. destruct (IH H) as (row0 & Hin & Hrest).
    exists row0. split; [by right|exact Hrest]. }
  destruct (caption_dict !! CaptionID row) as [cap|] eqn:Hcap; [|exact Hrest].
  destruct (Py.truthy cap); [|exact Hrest].
  destruct (_process_caption_with_spacy _ _ _ _ _ _ _) as [q'|] eqn:Hp;
    [|exact Hrest].
  intros [= ->].
  destruct (process_caption_fields _ _ _ _ _ _ _ Hp)
    as (Hc & Hi & Him & Hl & Ha).
  exists row. split; [left|]. rewrite Hc. auto 10.
Qed.

Lemma random_question_facts d pf cf excl n t q t' :
  _generate_random_question_from_csv nlp coco_vocab caption_dict d pf cf
    excl n t = (Some q, t') ->
  (exists row, row ∈ coco_vocab
     /\ Word row = lemma q
     /\ Py.lower (POS row) = Py.lower pf
     /\ Py.upper (CEFR row) = Py.upper cf
     /\ CaptionID row = id q /\ ImageID row = image_id q
     /\ caption_dict !! CaptionID row = Some (caption q))
  /\ (forall qid question,
        qid ∈ excl -> get_question_by_id d qid = Some question ->
        lemma question ≠ lemma q)
  /\ pos q = Py.lower pf /\ cefr q = Py.upper cf
  /\ answer q ≠ ""
  /\ 0 < n.
Proof.
  unfold _generate_random_question_from_csv.
  set (filtered := filter _ coco_vocab).
  destruct filtered as [|r0 rest] eqn:Hf; [discriminate|].
  destruct (Random.sample _ _ t) as [sampled t1] eqn:Hs.
  intros [= Htry <-].
  assert (Hsub : forall x, x ∈ sampled -> x ∈ r0 :: rest).
  { intros x Hx.
    apply (sample_elem_of _ (n `min` length (r0 :: rest)) t). by rewrite Hs. }
  destruct (try_rows_row _ _ _ _ Htry)
    as (row & Hin & Hl & Hi & Him & Hcap & Ha).
  destruct (try_rows_filters _ _ _ _ _ _ Htry) as [Hpos Hcefr].
  apply Hsub in Hin. rewrite <- Hf in Hin. subst filtered.
  apply list_elem_of_filter in Hin as [(Hp & Hc & Hex) Hin].
  split; [exists row; auto 10|].
  split.
  { intros qid question Hq Hg Heq. apply Hex.
    apply excluded_lemmas_spec. exists qid, question.
    split; [exact Hq|]. split; [exact Hg|]. congruence. }
  split; [exact Hpos|]. split; [exact Hcefr|].
  split; [intros He; rewrite He in Ha; discriminate Ha|].
  destruct n as [|n]; [|lia].
  simpl in Hs. injection Hs as <- _. discriminate Htry.
Qed.

End RandomQuestion.

(** X19.  [_generate_random_question_from_csv]: a question it returns is built
    from a row of the vocabulary file that passes the two filters
    (compared without regard to case) and whose caption is in the caption
    file; its lemma is the row's word, and it is the lemma of none of the
    stored questions listed in [exclude_qids]; its [pos] and [cefr] are
    the normalised filters, its answer is not empty, and at least one
    attempt was allowed. *)
Theorem random_question_from_filtered_vocabulary
    (nlp : string -> option (list token))
    (coco_vocab : list vocab_row) (caption_dict : gmap string string)
    (d : DatabaseManager.db) (pos_filter cefr_filter : string)
    (exclude_qids : list Z) (max_attempts : nat) (t t' : tape)
    (q : question_data) :
  EnhancedQuestionGenerator._generate_random_question_from_csv nlp
    coco_vocab caption_dict d pos_filter cefr_filter exclude_qids
    max_attempts t = (Some q, t') ->
  (exists row, row ∈ coco_vocab
     /\ Word row = lemma q
     /\ Py.lower (POS row) = Py.lower pos_filter
     /\ Py.upper (CEFR row) = Py.upper cefr_filter
     /\ CaptionID row = id q /\ ImageID row = image_id q
     /\ caption_dict !! CaptionID row = Some (caption q))
  /\ (forall qid question,
        qid ∈ exclude_qids ->
        DatabaseManager.get_question_by_id d qid = Some question ->
        lemma question ≠ lemma q)
  /\ pos q = Py.lower pos_filter /\ cefr q = Py.upper cefr_filter
  /\ answer q ≠ ""
  /\ 0 < max_attempts.
Proof. apply random_question_facts. Qed.

Lemma random_question_from_filtered_vocabulary_witness :
  exists q t',
    EnhancedQuestionGenerator._generate_random_question_from_csv example_nlp
      example_vocab two_captions example_store "Noun" "a1" [1%Z] 200
      [3; 1; 4; 1; 5] = (Some q, t')
    /\ lemma q ≠ "cat" /\ pos q = "noun" /\ cefr q = "A1".
Proof.
  destruct (EnhancedQuestionGenerator._generate_random_question_from_csv
              example_nlp example_vocab two_captions example_store
              "Noun" "a1" [1%Z] 200 [3; 1; 4; 1; 5])
    as [[q|] t'] eqn:Hcall; [|vm_compute in Hcall; discriminate Hcall].
  exists q, t'. split; [reflexivity|].
  destruct (random_question_from_filtered_vocabulary _ _ _ _ _ _ _ _ _ _ _
              Hcall) as (_ & Hex & Hp & Hc & _).
  split; [|by split].
  intros Heq. apply (Hex 1%Z example_question); [left|reflexivity|].
  by rewrite Heq.
Defined.

Section ServedQuestion.
Import DatabaseManager Queries EnhancedQuestionGenerator.

Variable nlp : string -> option (list token).
Variable coco_vocab : list vocab_row.
Variable caption_dict : gmap string string.
Variable default_vocab : list vocab_row.

Lemma get_or_generate_question_data d pf cf excl n t g d' t' :
  get_or_generate_question nlp coco_vocab caption_dict default_vocab d pf cf
    excl n t = Ok (Some g, d', t') ->
  exists t1,
    _generate_random_question_from_csv nlp coco_vocab caption_dict d pf cf
      excl n t = (Some (g_data g), t1).
Proof.
  unfold get_or_generate_question.
  destruct (_generate_random_question_from_csv _ _ _ _ _ _ _ _ _)
    as [[nq|] t1] eqn:Hgen; [|discriminate].
  exists t1. revert H.
  destruct (truthy_qid (_check_existing_question d nq)) as [e|].
  - destruct (get_choices_by_qid d e); by intros [= <- _ _].
  - destruct (save_question d nq) as [qid d1].
    destruct (_generate_and_save_choices _ _ _ _ _) as [[[cs d2] t2]|err];
      [|discriminate].
    simpl. by intros [= <- _ _].
Qed.

Lemma find_qid_row d q question :
  get_question_by_id d q = Some question ->
  exists r, r ∈ questions d /\ qid r = q /\ q_data r = question.
Proof.
  unfold get_question_by_id.
  destruct (List.find _ (questions d)) as [r|] eqn:Hf; [|discriminate].
  intros [= <-]. apply List.find_some in Hf as [Hr Hb].
  apply list_elem_of_In in Hr. apply bool_decide_eq_true in Hb. eauto.
Qed.

Lemma served_question_facts d pf cf excl n t g d' t' :
  well_formed_ids d ->
  (forall q, q ∈ excl -> get_question_by_id d q ≠ None) ->
  get_or_generate_question nlp coco_vocab caption_dict default_vocab d pf cf
    excl n t = Ok (Some g, d', t') ->
  (g_qid g ∉ excl)
  /\ forall q question,
       q ∈ excl -> get_question_by_id d q = Some question ->
       lemma question ≠ lemma (g_data g).
Proof.
  intros [Hnd Hseq] Hstored Hcall.
  destruct (get_or_generate_question_data _ _ _ _ _ _ _ _ _ Hcall)
    as [t1 Hgen].
  destruct (random_question_facts _ _ _ _ _ _ _ _ _ _ _ Hgen)
    as (_ & Hex & _).
  split; [|exact Hex].
  apply get_or_generate_question_spec in Hcall as (_ & _ & [= _ Hid]).
  intros Hin.
  destruct (get_question_by_id d (g_qid g)) as [question|] eqn:Hq;
    [|by apply (Hstored _ Hin)].
  destruct (find_qid_row _ _ _ Hq) as (r & Hr & Hrq & Hrd).
  destruct (select_qid d (lemma (g_data g)) (pos (g_data g))
              (cefr (g_data g))) as [e|] eqn:Hs.
  - rewrite (save_question_existing _ _ _ Hs) in Hid. simpl in Hid.
    unfold select_qid in Hs.
    destruct (List.find _ (questions d)) as [r'|] eqn:Hf; [|discriminate].
    injection Hs as <-.
    apply List.find_some in Hf as [Hr' Hk]. apply list_elem_of_In in Hr'.
    apply natural_key_is_true in Hk as (Hl & _).
    pose proof (get_question_by_id_row d r' Hnd Hr') as Hq'.
    rewrite <- Hid, Hq in Hq'. injection Hq' as ->.
    by apply (Hex _ _ Hin Hq).
  - rewrite (save_question_fresh _ _ Hs) in Hid. simpl in Hid.
    apply list_elem_of_lookup in Hr as [k Hk].
    pose proof (Forall_lookup_1 _ _ _ _ Hseq Hk) as Hle. simpl in Hle. lia.
Qed.

End ServedQuestion.

(** X20.  [get_or_generate_question] never serves a question that the session
    has already answered: when the ids of [questions] are unique and every
    id in [exclude_qids] is a stored question, the returned [qid] is not
    in [exclude_qids], and the returned lemma is the lemma of none of the
    excluded questions. *)
Theorem served_question_not_answered
    (nlp : string -> option (list token))
    (coco_vocab : list vocab_row) (caption_dict : gmap string string)
    (default_vocab : list vocab_row)
    (d d' : DatabaseManager.db) (pos_filter cefr_filter : string)
    (exclude_qids : list Z) (max_attempts : nat) (t t' : tape)
    (g : EnhancedQuestionGenerator.generated) :
  Queries.well_formed_ids d ->
  (forall q, q ∈ exclude_qids ->
             DatabaseManager.get_question_by_id d q ≠ None) ->
  EnhancedQuestionGenerator.get_or_generate_question nlp coco_vocab
    caption_dict default_vocab d pos_filter cefr_filter exclude_qids
    max_attempts t = Ok (Some g, d', t') ->
  (EnhancedQuestionGenerator.g_qid g ∉ exclude_qids)
  /\ forall q question,
       q ∈ exclude_qids ->
       DatabaseManager.get_question_by_id d q = Some question ->
       lemma question ≠ lemma (EnhancedQuestionGenerator.g_data g).
Proof. apply served_question_facts. Qed.

Lemma served_question_not_answered_witness :
  exists g d' t',
    EnhancedQuestionGenerator.get_or_generate_question example_nlp
      example_vocab two_captions example_vocab example_store
      "Noun" "a1" [1%Z] 200 [3; 1; 4; 1; 5] = Ok (Some g, d', t')
    /\ EnhancedQuestionGenerator.g_qid g ∉ [1%Z].
Proof.
  destruct (EnhancedQuestionGenerator.get_or_generate_question example_nlp
              example_vocab two_captions example_vocab example_store
              "Noun" "a1" [1%Z] 200 [3; 1; 4; 1; 5])
    as [[[[g|] d'] t']|e] eqn:Hcall;
    try (vm_compute in Hcall; discriminate Hcall).
  exists g, d', t'. split; [reflexivity|].
  refine (proj1 (served_question_not_answered _ _ _ _ _ _ _ _ _ _ _ _ _
                   _ _ Hcall)).
  - split.
    + vm_compute. apply NoDup_singleton.
    + vm_compute. constructor; [intros Hx; discriminate Hx|constructor].
  - intros q Hq. apply list_elem_of_singleton in Hq as ->.
    vm_compute. discriminate.
Defined.
(** ** Wrong-answer images *)

Section WrongImages.
Import GeneratedImageManagement EnhancedImageGenerator.

Lemma truthy_nonempty s : Py.truthy s = true <-> s ≠ "".
Proof. destruct s; simpl; split; intros H; done. Qed.

Lemma wrong_image_facts (validate : string -> bool)
    (generate : Z -> question_data -> string -> option string)
    (cache images : gmap (Z * string) string) qid q a (force : bool) :
  let o := get_or_generate_wrong_image validate generate cache images
             qid q a force in
  (forall path, returned o = Some path -> path ≠ "" ->
                cache_after o !! (qid, a) = Some path)
  /\ (returned o = None \/ returned o = Some "" ->
      cache_after o = cache /\ images_after o = images)
  /\ (forall key, key ≠ (qid, a) ->
        cache_after o !! key = cache !! key
        /\ images_after o !! key = images !! key)
  /\ (cache_coherent cache images ->
      cache_coherent (cache_after o) (images_after o)).
Proof.
  assert (Hgen :
    let o := get_or_generate_wrong_image validate generate cache images
               qid q a true in
    (forall path, returned o = Some path -> path ≠ "" ->
                  cache_after o !! (qid, a) = Some path)
    /\ (returned o = None \/ returned o = Some "" ->
        cache_after o = cache /\ images_after o = images)
    /\ (forall key, key ≠ (qid, a) ->
          cache_after o !! key = cache !! key
          /\ images_after o !! key = images !! key)
    /\ (cache_coherent cache images ->
        cache_coherent (cache_after o) (images_after o))).
  { unfold get_or_generate_wrong_image.
    destruct (generate qid q a) as [path|]; simpl.
    - destruct (Py.truthy path) eqn:Ht; simpl.
      + apply truthy_nonempty in Ht.
        split; [intros p [= <-] _; apply lookup_insert_eq|].
        split; [intros [H|[= H]]; done|].
        split.
        { intros key Hne. unfold save_generated_image.
          by rewrite !lookup_insert_ne. }
        intros Hco key p. unfold save_generated_image.
        destruct (decide (key = (qid, a))) as [->|Hne].
        * by rewrite !lookup_insert_eq.
        * rewrite !lookup_insert_ne by done. apply Hco.
      + split.
        { intros p [= <-] Hne. apply truthy_nonempty in Hne. congruence. }
        auto.
    - split; [discriminate|]. auto. }
  destruct force; [exact Hgen|].
  unfold get_or_generate_wrong_image.
  unfold get_or_generate_wrong_image in Hgen.
  destruct (cache !! (qid, a)) as [cached|] eqn:Hc; simpl.
  { split; [by intros p [= <-] _|]. auto. }
  unfold get_generated_image_path.
  destruct (images !! (qid, a)) as [existing|] eqn:Hi; [|exact Hgen].
  destruct (Py.truthy existing && validate existing) eqn:Hv; [|exact Hgen].
  simpl. apply andb_true_iff in Hv as [Ht _]. apply truthy_nonempty in Ht.
  split; [intros p [= <-] _; apply lookup_insert_eq|].
  split; [intros [H|[= H]]; done|].
  split; [intros key Hne; by rewrite lookup_insert_ne|].
  intros Hco key p. destruct (decide (key = (qid, a))) as [->|Hne].
  - rewrite lookup_insert_eq. by intros [= <-].
  - rewrite lookup_insert_ne by done. apply Hco.
Qed.

End WrongImages.

(** X21.  [get_or_generate_wrong_image], whatever the image service and the
    file check do: a non-empty path that it returns is afterwards in the
    generation cache under the pair of question id and selected answer,
    and, when the cache agreed with the table [generated_images] before,
    it is the path the table holds for that pair; a call that returns
    nothing (or an empty path) changes neither the cache nor the table;
    the entries of other pairs are never touched; and the agreement of
    cache and table is kept. *)
Theorem wrong_image_recorded (validate : string -> bool)
    (generate : Z -> question_data -> string -> option string)
    (cache images : gmap (Z * string) string)
    (qid : Z) (q : question_data) (a : string) (force : bool) :
  let o := EnhancedImageGenerator.get_or_generate_wrong_image validate
             generate cache images qid q a force in
  (forall path,
     EnhancedImageGenerator.returned o = Some path -> path ≠ "" ->
     EnhancedImageGenerator.cache_after o !! (qid, a) = Some path
     /\ (cache_coherent cache images ->
         GeneratedImageManagement.get_generated_image_path
           (EnhancedImageGenerator.images_after o) qid a = Some path))
  /\ (EnhancedImageGenerator.returned o = None
      \/ EnhancedImageGenerator.returned o = Some "" ->
      EnhancedImageGenerator.cache_after o = cache
      /\ EnhancedImageGenerator.images_after o = images)
  /\ (forall key, key ≠ (qid, a) ->
        EnhancedImageGenerator.cache_after o !! key = cache !! key
        /\ EnhancedImageGenerator.images_after o !! key = images !! key)
  /\ (cache_coherent cache images ->
      cache_coherent (EnhancedImageGenerator.cache_after o)
        (EnhancedImageGenerator.images_after o)).
Proof.
  intros o.
  destruct (wrong_image_facts validate generate cache images qid q a force)
    as (Hc & Hn & Hf & Hco).
  fold o in Hc, Hn, Hf, Hco.
  split; [|by split].
  intros path Hr Hne. split; [by apply Hc|].
  intros H. apply (Hco H). by apply Hc.
Qed.

(** X22.  Once [get_or_generate_wrong_image] has returned a non-empty path for
    a question and a selected answer, every later call for the same pair
    without [force_regenerate] returns that path from the cache and
    changes nothing, whatever has become of the table, of the image file
    and of the image service since. *)
Theorem wrong_image_served_from_cache (validate validate' : string -> bool)
    (generate generate' : Z -> question_data -> string -> option string)
    (cache images images' : gmap (Z * string) string)
    (qid : Z) (q q' : question_data) (a : string) (force : bool)
    (path : string) :
  let o := EnhancedImageGenerator.get_or_generate_wrong_image validate
             generate cache images qid q a force in
  EnhancedImageGenerator.returned o = Some path -> path ≠ "" ->
  EnhancedImageGenerator.get_or_generate_wrong_image validate' generate'
    (EnhancedImageGenerator.cache_after o) images' qid q' a false
  = EnhancedImageGenerator.Outcome (Some path)
      (EnhancedImageGenerator.cache_after o) images'.
Proof.
  intros o Hr Hne.
  destruct (wrong_image_facts validate generate cache images qid q a force)
    as (Hc & _).
  fold o in Hc. specialize (Hc path Hr Hne).
  unfold EnhancedImageGenerator.get_or_generate_wrong_image at 1.
  by rewrite Hc.
Qed.

Lemma wrong_image_served_from_cache_witness :
  EnhancedImageGenerator.returned
    (EnhancedImageGenerator.get_or_generate_wrong_image (fun _ => false)
       (fun _ _ _ => None)
       (EnhancedImageGenerator.cache_after
          (EnhancedImageGenerator.get_or_generate_wrong_image
             (fun _ => true) example_image_service ∅ ∅ 1 example_question
             "dog" false))
       ∅ 1 example_question "dog" false)
  = Some "d3_q1_ansabc123.jpeg".
Proof.
  rewrite (wrong_image_served_from_cache (fun _ => true) (fun _ => false)
             example_image_service (fun _ _ _ => None) ∅ ∅ ∅ 1
             example_question example_question "dog" false
             "d3_q1_ansabc123.jpeg").
  - reflexivity.
  - reflexivity.
  - intros Hx; discriminate Hx.
Defined.
(** ** File names *)

Section FileNames.
Import EnhancedImageGenerator.

Lemma replace_all_spec (cs : list ascii) : forall s,
  "_"%char ∉ cs ->
  foldl (fun safe_filename char => replace_char char safe_filename) s cs
  = (fun c => if bool_decide (c ∈ cs) then "_"%char else c) <$> s.
Proof.
  induction cs as [|char cs IH]; intros s Hu; cbn [foldl].
  - symmetry. etrans; [|apply list_fmap_id]. apply list_fmap_ext.
    intros i c _. cbn beta. rewrite bool_decide_eq_false_2; [reflexivity|].
    apply not_elem_of_nil.
  - apply not_elem_of_cons in Hu as [Hne Hu].
    rewrite (IH _ Hu). unfold replace_char. rewrite <- list_fmap_compose.
    apply list_fmap_ext. intros i c _. unfold compose. cbn beta.
    destruct (decide (c = char)) as [->|Hc].
    + rewrite (bool_decide_eq_false_2 _ Hu).
      rewrite bool_decide_eq_true_2; [reflexivity|left].
    + destruct (decide (c ∈ cs)) as [Hin|Hin].
      * rewrite !bool_decide_eq_true_2; [reflexivity|by right|exact Hin].
      * rewrite !bool_decide_eq_false_2; [reflexivity| |exact Hin].
        intros [?|?]%elem_of_cons; done.
Qed.

Lemma underscore_valid : "_"%char ∉ invalid_chars.
Proof. apply (proj1 (bool_decide_eq_false _)). reflexivity. Qed.

Lemma splitext_parts p c :
  c ∈ fst (splitext p) ++ snd (splitext p) -> c ∈ p.
Proof.
  unfold splitext. destruct (_ && _); simpl.
  - by rewrite take_drop.
  - by rewrite app_nil_r.
Qed.

Lemma sanitize_facts filename :
  let safe := Py.chars (_sanitize_filename filename) in
  (forall c, c ∈ invalid_chars -> c ∉ safe)
  /\ (Py.len filename <= 100 ->
      safe = (fun c => if bool_decide (c ∈ invalid_chars) then "_"%char
                       else c) <$> Py.chars filename)
  /\ (Py.len filename <= 100 ->
      (forall c, c ∈ invalid_chars -> c ∉ Py.chars filename) ->
      _sanitize_filename filename = filename).
Proof.
  unfold _sanitize_filename, Py.chars, Py.of_chars, Py.len.
  rewrite String.list_ascii_of_string_of_list_ascii.
  rewrite (replace_all_spec _ _ underscore_valid).
  set (g := fun c => if bool_decide (c ∈ invalid_chars) then "_"%char else c).
  set (s := String.list_ascii_of_string filename).
  assert (Hlen : length s = String.length filename).
  { subst s. clear. induction filename as [|x f IH]; simpl; congruence. }
  assert (Hg : forall c, c ∈ invalid_chars -> c ∉ g <$> s).
  { intros c Hc [x [-> Hx]]%list_elem_of_fmap. subst g. simpl in Hc.
    destruct (bool_decide_reflect (x ∈ invalid_chars)) as [Hin|Hin];
      [by apply underscore_valid|done]. }
  split.
  { intros c Hc. destruct (100 <? length (g <$> s)); [|by apply Hg].
    destruct (splitext (g <$> s)) as [name ext] eqn:Hsp.
    intros Hin. apply (Hg c Hc), splitext_parts. rewrite Hsp. simpl.
    apply elem_of_app in Hin as [Hin|Hin]; apply elem_of_app;
      [left; by apply (subseteq_take 90)|by right]. }
  assert (Hshort : String.length filename <= 100 ->
                   (100 <? length (g <$> s)) = false).
  { intros Hle. apply Nat.ltb_ge. rewrite length_fmap. lia. }
  split.
  { intros Hle. by rewrite (Hshort Hle). }
  intros Hle Hvalid. rewrite (Hshort Hle).
  transitivity (String.string_of_list_ascii s);
    [|apply String.string_of_list_ascii_of_string].
  f_equal. etrans; [|apply list_fmap_id].
  apply list_fmap_ext. intros i c Hi. subst g. cbn beta.
  rewrite bool_decide_eq_false_2; [reflexivity|].
  intros Hc. apply (Hvalid c Hc). by eapply list_elem_of_lookup_2.
Qed.

End FileNames.

(** X23.  [_sanitize_filename]: none of the characters of [invalid_chars]
    (angle brackets, colon, double quote, slash, backslash, bar, question
    mark, asterisk) is left in the result, whatever the length of the
    name; a name of at most 100
    characters keeps its length, each of those characters being replaced
    by an underscore and every other character kept; such a name without
    any of those characters is returned as it is. *)
Theorem sanitized_filename_is_safe (filename : string) :
  let safe := Py.chars (EnhancedImageGenerator._sanitize_filename filename) in
  (forall c, c ∈ EnhancedImageGenerator.invalid_chars -> c ∉ safe)
  /\ (Py.len filename <= 100 ->
      safe = (fun c =>
                if bool_decide (c ∈ EnhancedImageGenerator.invalid_chars)
                then "_"%char else c) <$> Py.chars filename)
  /\ (Py.len filename <= 100 ->
      (forall c, c ∈ EnhancedImageGenerator.invalid_chars ->
                 c ∉ Py.chars filename) ->
      EnhancedImageGenerator._sanitize_filename filename = filename).
Proof. apply sanitize_facts. Qed.
(** ** The correct answer of a stored choice set *)

Section CorrectAnswer.
Import DatabaseManager Queries EnhancedCandidateGenerator.

Lemma find_correct_fresh q ans cs : forall i,
  choice_text
  <$> List.find (fun r => bool_decide (c_qid r = q) && is_correct r)
        (fresh_rows q ans i cs)
  = if bool_decide (ans ∈ cs) then Some ans else None.
Proof.
  induction cs as [|c cs IH]; intros i; [reflexivity|].
  unfold fresh_rows in *. simpl.
  rewrite (bool_decide_eq_true_2 (q = q)) by reflexivity. simpl.
  destruct (decide (c = ans)) as [->|Hne].
  - rewrite !bool_decide_eq_true_2; [reflexivity|left|reflexivity].
  - rewrite (bool_decide_eq_false_2 (c = ans)) by exact Hne.
    rewrite IH. destruct (decide (ans ∈ cs)) as [Hin|Hin].
    + rewrite !bool_decide_eq_true_2; [reflexivity|by right|exact Hin].
    + rewrite !bool_decide_eq_false_2; [reflexivity| |exact Hin].
      intros [?|?]%elem_of_cons; [congruence|done].
Qed.

Lemma find_other_fresh q q' ans cs : q' ≠ q -> forall i,
  List.find (fun r => bool_decide (c_qid r = q') && is_correct r)
    (fresh_rows q ans i cs) = None.
Proof.
  intros Hne. induction cs as [|c cs IH]; intros i; [reflexivity|].
  unfold fresh_rows in *. simpl.
  rewrite (bool_decide_eq_false_2 (q = q')) by congruence. simpl. apply IH.
Qed.

Lemma find_kept (q q' : Z) (rows : list choice_row) :
  List.find (fun r => bool_decide (c_qid r = q') && is_correct r)
    (filter (fun r => c_qid r ≠ q) rows)
  = if decide (q' = q) then None
    else List.find (fun r => bool_decide (c_qid r = q') && is_correct r) rows.
Proof.
  induction rows as [|r rows IH]; simpl; [by destruct (decide (q' = q))|].
  destruct (decide (c_qid r = q)) as [E|E].
  - rewrite filter_cons_False by (intros H; by apply H). rewrite IH.
    destruct (decide (q' = q)) as [->|Hne]; [reflexivity|].
    by rewrite (bool_decide_eq_false_2 (c_qid r = q')) by congruence.
  - rewrite filter_cons_True by exact E. simpl. rewrite IH.
    destruct (decide (q' = q)) as [->|Hne]; [|reflexivity].
    by rewrite (bool_decide_eq_false_2 (c_qid r = q)) by exact E.
Qed.

Lemma correct_answer_saved d q cs ans :
  get_correct_answer (save_choices d q cs ans) q
  = if bool_decide (ans ∈ cs) then Some ans else None.
Proof.
  unfold get_correct_answer, save_choices. simpl.
  rewrite find_app_none.
  - apply find_correct_fresh.
  - rewrite find_kept. by destruct (decide (q = q)).
Qed.

Lemma correct_answer_saved_ne d q q' cs ans :
  q' ≠ q ->
  get_correct_answer (save_choices d q cs ans) q' = get_correct_answer d q'.
Proof.
  intros Hne. unfold get_correct_answer, save_choices. simpl. f_equal.
  pose proof (find_kept q q' (choices d)) as Hk.
  destruct (decide (q' = q)); [done|].
  destruct (List.find _ (choices d)) as [r|] eqn:Hf.
  - by apply find_app_some.
  - rewrite (find_app_none _ _ _ Hk). by apply find_other_fresh.
Qed.

End CorrectAnswer.

(** X24.  [save_choices] then [get_correct_answer]: the answer read back for
    the question is the [correct_answer] that was passed, provided it is
    one of the saved choices, and nothing otherwise, whatever was stored
    before; the correct answers of other questions are not affected. *)
Theorem correct_answer_of_saved_choices (d : DatabaseManager.db) (q : Z)
    (cs : list string) (correct_answer : string) :
  Queries.get_correct_answer
    (DatabaseManager.save_choices d q cs correct_answer) q
  = (if bool_decide (correct_answer ∈ cs) then Some correct_answer else None)
  /\ (forall q', q' ≠ q ->
        Queries.get_correct_answer
          (DatabaseManager.save_choices d q cs correct_answer) q'
        = Queries.get_correct_answer d q').
Proof.
  split; [apply correct_answer_saved|].
  intros q' Hne. by apply correct_answer_saved_ne.
Qed.

(** X25.  After [get_or_generate_choices] has generated a new choice set (no
    cache hit and no three stored choices, or a forced regeneration, all
    four fields of the question non-empty), [get_correct_answer] of the
    question is the question's answer. *)
Theorem generated_choices_mark_the_answer
    (coco_vocab : list vocab_row) (cache : gmap Z (list string))
    (d : DatabaseManager.db) (qid : Z) (q : question_data) (force : bool)
    (t : tape) :
  (if force then None else cache !! qid) = None ->
  negb force
  && (length (DatabaseManager.get_choices_by_qid d qid)
      =? EnhancedCandidateGenerator.total_choices) = false ->
  complete_fields q = true ->
  exists o,
    EnhancedCandidateGenerator.get_or_generate_choices coco_vocab cache d
      qid q force t = Ok o
    /\ Queries.get_correct_answer
         (EnhancedCandidateGenerator.db_after o) qid = Some (answer q).
Proof.
  intros Hc Hd Hq.
  destruct (generate_new_choices_complete coco_vocab q t Hq) as (nc & t1 & Hg).
  destruct (generate_new_choices_shape coco_vocab q t nc t1 Hg)
    as (ds & Hnc & _).
  eexists. split.
  - exact (get_or_generate_choices_new coco_vocab cache d qid q force t
             _ t1 Hc Hd Hg).
  - simpl. rewrite correct_answer_saved, Hnc.
    rewrite bool_decide_eq_true_2; [reflexivity|left].
Qed.

Lemma generated_choices_mark_the_answer_witness :
  exists o,
    EnhancedCandidateGenerator.get_or_generate_choices example_vocab ∅
      DatabaseManager.empty 1 example_question false
      [5; 3; 2; 1; 7; 8; 9; 1; 2; 3; 4] = Ok o
    /\ Queries.get_correct_answer
         (EnhancedCandidateGenerator.db_after o) 1 = Some "cat".
Proof.
  apply (generated_choices_mark_the_answer example_vocab ∅
           DatabaseManager.empty 1 example_question false
           [5; 3; 2; 1; 7; 8; 9; 1; 2; 3; 4]); reflexivity.
Defined.
(** ** Fetching a served question again *)

Section ServedQuestionStored.
Import DatabaseManager Queries EnhancedCandidateGenerator
  EnhancedQuestionGenerator.

Variable nlp : string -> option (list token).
Variable coco_vocab : list vocab_row.
Variable caption_dict : gmap string string.
Variable default_vocab : list vocab_row.

Lemma first_call_returns_stored d qid q t o :
  complete_fields q = true ->
  get_or_generate_choices default_vocab ∅ d qid q false t = Ok o ->
  returned o ≡ₚ get_choices_by_qid (db_after o) qid.
Proof.
  intros Hq Ho.
  destruct (length (get_choices_by_qid d qid) =? total_choices) eqn:Hlen.
  - apply Nat.eqb_eq in Hlen.
    rewrite (stored_choices_reused_facts default_vocab ∅ d qid q t) in Ho;
      [|reflexivity|exact Hlen].
    injection Ho as <-. simpl. apply shuffle_Permutation.
  - destruct (generate_new_choices_complete default_vocab q t Hq)
      as (nc & t1 & Hg).
    rewrite (get_or_generate_choices_new default_vocab ∅ d qid q false t
               nc t1) in Ho; [|reflexivity|exact Hlen|exact Hg].
    injection Ho as <-. simpl. rewrite get_choices_save_choices.
    apply shuffle_Permutation.
Qed.

Lemma select_qid_find d l p c e :
  select_qid d l p c = Some e ->
  exists r, r ∈ questions d /\ qid r = e
            /\ lemma (q_data r) = l /\ pos (q_data r) = p
            /\ cefr (q_data r) = c.
Proof.
  unfold select_qid.
  destruct (List.find _ (questions d)) as [r|] eqn:Hf; [|discriminate].
  intros [= <-]. apply List.find_some in Hf as [Hr Hk].
  apply list_elem_of_In in Hr. apply natural_key_is_true in Hk.
  exists r. tauto.
Qed.

Lemma served_question_stored_facts d pf cf excl n t g d' t' :
  well_formed_ids d ->
  get_or_generate_question nlp coco_vocab caption_dict default_vocab d pf cf
    excl n t = Ok (Some g, d', t') ->
  (exists stored,
     get_question_by_id d' (g_qid g) = Some stored
     /\ lemma stored = lemma (g_data g)
     /\ pos stored = pos (g_data g)
     /\ cefr stored = cefr (g_data g)
     /\ (select_qid d (lemma (g_data g)) (pos (g_data g)) (cefr (g_data g))
         = None -> stored = g_data g))
  /\ (complete_fields (g_data g) = true ->
      match g_choices g with
      | Some choices => choices ≡ₚ get_choices_by_qid d' (g_qid g)
      | None => get_choices_by_qid d' (g_qid g) = []
      end).
Proof.
  intros Hwf Hcall. split.
  - pose proof (get_or_generate_question_stored _ _ _ _ _ _ _ _ _ _ _ _ _
                  Hcall) as Hsel.
    destruct (get_or_generate_question_spec _ _ _ _ _ _ _ _ _ _ _ _ _ Hcall)
      as (_ & _ & [= Hq Hid]).
    destruct (select_qid_find _ _ _ _ _ Hsel) as (r & Hr & Hrq & Hl & Hp & Hc).
    assert (Hnd : NoDup (qid <$> questions d')).
    { rewrite Hq. by apply save_question_well_formed_ids. }
    exists (q_data r). split; [rewrite <- Hrq; by apply get_question_by_id_row|].
    split; [exact Hl|]. split; [exact Hp|]. split; [exact Hc|].
    intros Hnone. rewrite (save_question_fresh _ _ Hnone) in Hq, Hid.
    simpl in Hq, Hid. rewrite Hq in Hr.
    apply elem_of_app in Hr as [Hr|Hr].
    + destruct Hwf as [_ Hseq].
      apply list_elem_of_lookup in Hr as [k Hk].
      pose proof (Forall_lookup_1 _ _ _ _ Hseq Hk) as Hle. simpl in Hle. lia.
    + apply list_elem_of_singleton in Hr. by subst r.
  - intros Hcomplete. revert Hcall Hcomplete. unfold get_or_generate_question.
    destruct (_generate_random_question_from_csv _ _ _ _ _ _ _ _ _)
      as [[nq|] t1]; [|discriminate].
    destruct (truthy_qid (_check_existing_question d nq)) as [e|].
    + destruct (get_choices_by_qid d e) as [|c cs] eqn:Hcs;
        intros [= <- <- <-] _; simpl; by rewrite Hcs.
    + destruct (save_question d nq) as [qid d1].
      unfold _generate_and_save_choices.
      destruct (get_or_generate_choices _ _ _ _ _ _ _) as [o|err] eqn:Ho;
        [|discriminate].
      simpl. intros [= <- <- <-] Hcomplete. simpl in *.
      by apply (first_call_returns_stored d1 qid nq t1).
Qed.

End ServedQuestionStored.

(** X26.  A question served by [get_or_generate_question] is in the store
    under the returned id: fetching that id gives a question with the
    same lemma, part of speech and level, and the very same question when
    its natural key was not stored before (ids of [questions] being
    unique); the generator's [get_question_by_id] finds it, with the
    stored choices; and, for a question whose four fields are non-empty,
    the returned choices are the stored ones up to order. *)
Theorem served_question_is_stored
    (nlp : string -> option (list token))
    (coco_vocab : list vocab_row) (caption_dict : gmap string string)
    (default_vocab : list vocab_row)
    (d d' : DatabaseManager.db) (pos_filter cefr_filter : string)
    (exclude_qids : list Z) (max_attempts : nat) (t t' : tape)
    (g : EnhancedQuestionGenerator.generated) :
  Queries.well_formed_ids d ->
  EnhancedQuestionGenerator.get_or_generate_question nlp coco_vocab
    caption_dict default_vocab d pos_filter cefr_filter exclude_qids
    max_attempts t = Ok (Some g, d', t') ->
  let qid := EnhancedQuestionGenerator.g_qid g in
  let q := EnhancedQuestionGenerator.g_data g in
  exists stored,
    DatabaseManager.get_question_by_id d' qid = Some stored
    /\ lemma stored = lemma q /\ pos stored = pos q /\ cefr stored = cefr q
    /\ (DatabaseManager.select_qid d (lemma q) (pos q) (cefr q) = None ->
        stored = q)
    /\ (exists g',
          QuestionLookup.get_question_by_id d' qid = Some g'
          /\ EnhancedQuestionGenerator.g_data g' = stored
          /\ EnhancedQuestionGenerator.g_qid g' = qid
          /\ match EnhancedQuestionGenerator.g_choices g' with
             | Some choices =>
                 choices = DatabaseManager.get_choices_by_qid d' qid
             | None => DatabaseManager.get_choices_by_qid d' qid = []
             end)
    /\ (complete_fields q = true ->
        match EnhancedQuestionGenerator.g_choices g with
        | Some choices =>
            choices ≡ₚ DatabaseManager.get_choices_by_qid d' qid
        | None => DatabaseManager.get_choices_by_qid d' qid = []
        end).
Proof.
  intros Hwf Hcall qid q.
  destruct (served_question_stored_facts _ _ _ _ _ _ _ _ _ _ _ _ _ Hwf Hcall)
    as [(stored & Hs & Hl & Hp & Hc & Hfresh) Hchoices].
  exists stored. do 5 (split; [assumption|]). split; [|exact Hchoices].
  unfold QuestionLookup.get_question_by_id. fold qid in Hs. rewrite Hs.
  destruct (DatabaseManager.get_choices_by_qid d' qid) as [|c cs];
    eexists; (split; [reflexivity|]); simpl; auto.
Qed.

Lemma served_question_is_stored_witness :
  exists g d' t',
    EnhancedQuestionGenerator.get_or_generate_question example_nlp
      example_vocab two_captions example_vocab example_store
      "Noun" "a1" [1%Z] 200 [3; 1; 4; 1; 5] = Ok (Some g, d', t')
    /\ DatabaseManager.get_question_by_id d'
         (EnhancedQuestionGenerator.g_qid g)
       = Some (EnhancedQuestionGenerator.g_data g).
Proof.
  destruct (EnhancedQuestionGenerator.get_or_generate_question example_nlp
              example_vocab two_captions example_vocab example_store
              "Noun" "a1" [1%Z] 200 [3; 1; 4; 1; 5])
    as [[[[g|] d'] t']|e] eqn:Hcall;
    try (vm_compute in Hcall; discriminate Hcall).
  exists g, d', t'. split; [reflexivity|].
  assert (Hwf : Queries.well_formed_ids example_store).
  { split.
    - vm_compute. apply NoDup_singleton.
    - vm_compute. constructor; [intros Hx; discriminate Hx|constructor]. }
  destruct (served_question_is_stored _ _ _ _ _ _ _ _ _ _ _ _ _ Hwf Hcall)
    as (stored & Hs & _ & _ & _ & Hfresh & _).
  rewrite Hs. f_equal. apply Hfresh.
  vm_compute in Hcall. injection Hcall as <- _ _. reflexivity.
Defined.
(** ** The simple choice generator *)

Section SimpleChoices.
Import EnhancedCandidateGenerator QuestionLookup.

Variable coco_vocab : list vocab_row.

Lemma simple_choices_facts q t :
  exists wrong,
    fst (_generate_simple_choices coco_vocab q t) ≡ₚ answer q :: wrong
    /\ NoDup wrong
    /\ length wrong <= 2
    /\ (forall w, w ∈ wrong ->
          exists row, row ∈ coco_vocab /\ Word row = w
                      /\ Py.lower (POS row) = Py.lower (pos q)
                      /\ Py.lower w ≠ Py.lower (lemma q))
    /\ (2 <= length (same_level_words coco_vocab (lemma q) (pos q) (cefr q)) ->
        length wrong = 2
        /\ forall w, w ∈ wrong ->
             w ∈ same_level_words coco_vocab (lemma q) (pos q) (cefr q)).
Proof.
  unfold _generate_simple_choices.
  set (similar := same_level_words coco_vocab (lemma q) (pos q) (cefr q)).
  set (fallback := drop_duplicates _).
  destruct (2 <=? length similar) eqn:Hlen.
  - apply Nat.leb_le in Hlen.
    pose proof (sample_NoDup similar 2 t) as Hnd.
    pose proof (sample_length similar 2 t) as Hl.
    pose proof (fun x => sample_elem_of similar 2 t x) as Hin.
    destruct (Random.sample similar 2 t) as [wrong t1]. cbn [fst] in *.
    exists wrong. split; [apply shuffle_Permutation|].
    split; [apply Hnd, NoDup_drop_duplicates|].
    split; [lia|]. split.
    + intros w Hw. apply Hin, elem_of_same_level_words in Hw
        as (row & Hr & Hw & Hp & _ & Hne). eauto 10.
    + intros _. split; [lia|exact Hin].
  - apply Nat.leb_gt in Hlen.
    pose proof (sample_NoDup fallback (Nat.min 2 (length fallback)) t) as Hnd.
    pose proof (sample_length fallback (Nat.min 2 (length fallback)) t) as Hl.
    pose proof (fun x =>
                  sample_elem_of fallback (Nat.min 2 (length fallback)) t x)
      as Hin.
    destruct (Random.sample fallback _ t) as [wrong t1]. cbn [fst] in *.
    exists wrong. split; [apply shuffle_Permutation|].
    split; [apply Hnd, NoDup_drop_duplicates|].
    split; [lia|]. split; [|lia].
    intros w Hw. apply Hin in Hw. subst fallback.
    apply elem_of_drop_duplicates, list_elem_of_fmap in Hw
      as (row & -> & Hrow).
    apply list_elem_of_filter in Hrow as [[Hp Hne] Hrow]. eauto 10.
Qed.

End SimpleChoices.

(** X27.  [_generate_simple_choices]: the result is a rearrangement of the
    answer followed by at most two wrong choices; the wrong choices are
    pairwise distinct words of the vocabulary with the question's part of
    speech, none of them the lemma up to case; when the vocabulary has
    two or more such words at the question's level, exactly two wrong
    choices are drawn, both from that level. *)
Theorem simple_choices_shape (coco_vocab : list vocab_row)
    (q : question_data) (t : tape) :
  exists wrong,
    fst (QuestionLookup._generate_simple_choices coco_vocab q t)
    ≡ₚ answer q :: wrong
    /\ NoDup wrong
    /\ length wrong <= 2
    /\ (forall w, w ∈ wrong ->
          exists row, row ∈ coco_vocab /\ Word row = w
                      /\ Py.lower (POS row) = Py.lower (pos q)
                      /\ Py.lower w ≠ Py.lower (lemma q))
    /\ (2 <= length (EnhancedCandidateGenerator.same_level_words coco_vocab
                       (lemma q) (pos q) (cefr q)) ->
        length wrong = 2
        /\ forall w, w ∈ wrong ->
             w ∈ EnhancedCandidateGenerator.same_level_words coco_vocab
                   (lemma q) (pos q) (cefr q)).
Proof. apply simple_choices_facts. Qed.
(** X28.  Images survive a cleared cache: after a call that returned a
    non-empty path (the cache agreeing with the table before it), a call
    on the cleared cache finds the path in [generated_images]; it returns
    it without asking the image service when the file is still valid, and
    otherwise behaves as a forced regeneration. *)
Theorem wrong_image_found_after_clear_cache
    (validate validate' : string -> bool)
    (generate generate' : Z -> question_data -> string -> option string)
    (cache images : gmap (Z * string) string)
    (qid : Z) (q q' : question_data) (a : string) (force : bool)
    (path : string) :
  cache_coherent cache images ->
  let o := EnhancedImageGenerator.get_or_generate_wrong_image validate
             generate cache images qid q a force in
  EnhancedImageGenerator.returned o = Some path -> path ≠ "" ->
  let o' := EnhancedImageGenerator.get_or_generate_wrong_image validate'
              generate'
              (EnhancedImageGenerator.clear_cache
                 (EnhancedImageGenerator.cache_after o))
              (EnhancedImageGenerator.images_after o) qid q' a false in
  (validate' path = true ->
   o' = EnhancedImageGenerator.Outcome (Some path) {[(qid, a) := path]}
          (EnhancedImageGenerator.images_after o))
  /\ (validate' path = false ->
      o' = EnhancedImageGenerator.get_or_generate_wrong_image validate'
             generate' ∅ (EnhancedImageGenerator.images_after o) qid q' a
             true).
Proof.
  intros Hco o Hr Hne o'.
  destruct (wrong_image_facts validate generate cache images qid q a force)
    as (Hc & _ & _ & Hco').
  fold o in Hc, Hco'.
  pose proof (Hco' Hco _ _ (Hc path Hr Hne)) as Hi.
  apply truthy_nonempty in Hne.
  subst o'. unfold EnhancedImageGenerator.clear_cache.
  split; intros Hv;
    unfold EnhancedImageGenerator.get_or_generate_wrong_image;
    rewrite lookup_empty;
    unfold GeneratedImageManagement.get_generated_image_path;
    rewrite Hi, Hne, Hv; cbn [andb]; [by rewrite insert_empty|reflexivity].
Qed.

Lemma wrong_image_found_after_clear_cache_witness :
  EnhancedImageGenerator.returned
    (EnhancedImageGenerator.get_or_generate_wrong_image (fun _ => true)
       (fun _ _ _ => None)
       (EnhancedImageGenerator.clear_cache
          (EnhancedImageGenerator.cache_after
             (EnhancedImageGenerator.get_or_generate_wrong_image
                (fun _ => true) example_image_service ∅ ∅ 1
                example_question "dog" false)))
       (EnhancedImageGenerator.images_after
          (EnhancedImageGenerator.get_or_generate_wrong_image
             (fun _ => true) example_image_service ∅ ∅ 1
             example_question "dog" false))
       1 example_question "dog" false)
  = Some "d3_q1_ansabc123.jpeg".
Proof.
  destruct (wrong_image_found_after_clear_cache (fun _ => true)
              (fun _ => true) example_image_service (fun _ _ _ => None)
              ∅ ∅ 1 example_question example_question "dog" false
              "d3_q1_ansabc123.jpeg") as [Hvalid _].
  - intros key path H. by rewrite lookup_empty in H.
  - reflexivity.
  - intros Hx; discriminate Hx.
  - by rewrite Hvalid.
Defined.
(** ** Statistics of processed answers *)

Section AnswerStatistics.
Import DatabaseManager UserStatistics ResultProcessor.

Lemma sum_correct_le rows : sum_correct rows <= length rows.
Proof. apply length_filter. Qed.

Lemma logs_after_answer ig d sid qid q a s :
  get_session_info d sid = Some s ->
  sqlite_integer (user_id s) && sqlite_integer qid = true ->
  exists row,
    learning_logs (snd (process_user_answer ig d sid qid q a))
    = learning_logs d ++ [row]
    /\ questions (snd (process_user_answer ig d sid qid q a)) = questions d
    /\ l_user_id row = user_id s /\ l_qid row = qid
    /\ l_session_id row = sid
    /\ l_is_correct row
       = bool_decide (Py.lower (Py.strip a) = Py.lower (Py.strip (answer q))).
Proof.
  intros Hs Hfits. unfold process_user_answer. rewrite Hs. cbn [snd].
  unfold update_session_progress, _save_learning_log, save_learning_log.
  cbn [l_user_id l_qid]. rewrite Hfits. simpl.
  eexists. split; [reflexivity|]. simpl. auto.
Qed.

Lemma logs_after_unlogged_answer ig d sid qid q a s :
  get_session_info d sid = Some s ->
  sqlite_integer (user_id s) && sqlite_integer qid = false ->
  learning_logs (snd (process_user_answer ig d sid qid q a))
  = learning_logs d
  /\ questions (snd (process_user_answer ig d sid qid q a)) = questions d.
Proof.
  intros Hs Hfits. unfold process_user_answer. rewrite Hs. cbn [snd].
  unfold update_session_progress, _save_learning_log, save_learning_log.
  cbn [l_user_id l_qid]. by rewrite Hfits.
Qed.

Lemma grouped_stats_questions key d1 d2 rows groups :
  questions d1 = questions d2 ->
  foldl (count_row key d1) groups rows = foldl (count_row key d2) groups rows.
Proof.
  intros Hq. revert groups.
  induction rows as [|r rows IH]; intros groups; [reflexivity|].
  simpl. rewrite IH. f_equal. unfold count_row, get_question_by_id.
  by rewrite Hq.
Qed.

Lemma answer_statistics_facts ig d sid qid q a s :
  get_session_info d sid = Some s ->
  sqlite_integer (user_id s) && sqlite_integer qid = true ->
  let d' := snd (process_user_answer ig d sid qid q a) in
  let correct :=
    bool_decide (Py.lower (Py.strip a) = Py.lower (Py.strip (answer q))) in
  let before := get_user_statistics d (user_id s) in
  let after := get_user_statistics d' (user_id s) in
  basic_total_questions (stat_basic after)
  = S (basic_total_questions (stat_basic before))
  /\ basic_correct_answers (stat_basic after)
     = Some (default 0 (basic_correct_answers (stat_basic before))
             + (if correct then 1 else 0))
  /\ (forall (key : question_data -> string) stored,
        get_question_by_id d qid = Some stored ->
        grouped_stats key d' (user_id s) !! key stored
        = Some (S (fst (default (0, 0)
                          (grouped_stats key d (user_id s) !! key stored))),
                snd (default (0, 0)
                       (grouped_stats key d (user_id s) !! key stored))
                + (if correct then 1 else 0)))
  /\ (get_question_by_id d qid = None ->
      by_cefr after = by_cefr before /\ by_pos after = by_pos before)
  /\ (forall other, other ≠ user_id s ->
        get_user_statistics d' other = get_user_statistics d other).
Proof.
  intros Hs Hfits d' correct before after.
  destruct (logs_after_answer ig d sid qid q a s Hs Hfits)
    as (row & Hlogs & Hq & Hu & Hqid & Hsid & Hc).
  fold d' in Hlogs, Hq. fold correct in Hc. clearbody correct.
  assert (Hrows :
    filter (fun r => l_user_id r = user_id s) (learning_logs d')
    = filter (fun r => l_user_id r = user_id s) (learning_logs d) ++ [row]).
  { rewrite Hlogs, filter_app. f_equal.
    by rewrite filter_cons_True by exact Hu. }
  assert (Hgroup : forall key,
    grouped_stats key d' (user_id s)
    = count_row key d (grouped_stats key d (user_id s)) row).
  { intros key. unfold grouped_stats. rewrite Hrows, foldl_app. simpl.
    rewrite (grouped_stats_questions key d' d _ _ Hq).
    unfold count_row, get_question_by_id. by rewrite Hq. }
  split.
  { subst before after. simpl. rewrite Hrows, length_app. simpl. lia. }
  split.
  { subst before after. simpl. rewrite Hrows.
    set (rows := filter _ (learning_logs d)).
    assert (Hsum : sum_correct (rows ++ [row])
                   = sum_correct rows + (if correct then 1 else 0)).
    { unfold sum_correct. rewrite filter_app, length_app. f_equal.
      destruct correct.
      - by rewrite filter_cons_True by exact Hc.
      - by rewrite filter_cons_False by (simpl; rewrite Hc; discriminate). }
    destruct rows as [|r0 rows0] eqn:Hr.
    - simpl app in Hsum |- *. cbv beta iota. by rewrite Hsum.
    - simpl app in Hsum |- *. cbv beta iota. by rewrite Hsum. }
  split.
  { intros key stored Hst. rewrite Hgroup.
    unfold count_row. rewrite Hqid, Hst.
    destruct (default (0, 0) (grouped_stats key d (user_id s) !! key stored))
      as [att cor] eqn:Hd.
    rewrite lookup_insert_eq. simpl. rewrite Hc.
    f_equal. f_equal. destruct correct; lia. }
  split.
  { intros Hnone. subst before after. simpl. rewrite !Hgroup.
    unfold count_row. by rewrite Hqid, Hnone. }
  intros other Hne.
  assert (Hother :
    filter (fun r => l_user_id r = other) (learning_logs d')
    = filter (fun r => l_user_id r = other) (learning_logs d)).
  { rewrite Hlogs, filter_app.
    rewrite (filter_cons_False _ row) by (simpl; congruence).
    by rewrite filter_nil, app_nil_r. }
  unfold get_user_statistics, basic_stats, grouped_stats.
  rewrite Hother.
  by rewrite !(grouped_stats_questions _ d' d _ _ Hq).
Qed.

Lemma statistics_of_same_logs d1 d2 uid :
  learning_logs d1 = learning_logs d2 -> questions d1 = questions d2 ->
  get_user_statistics d1 uid = get_user_statistics d2 uid.
Proof.
  intros Hl Hq. unfold get_user_statistics, basic_stats, grouped_stats.
  rewrite Hl. by rewrite !(grouped_stats_questions _ d1 d2 _ _ Hq).
Qed.

Lemma basic_stats_facts d uid :
  match basic_correct_answers (basic_stats d uid) with
  | Some correct =>
      correct <= basic_total_questions (basic_stats d uid)
      /\ 0 < basic_total_questions (basic_stats d uid)
  | None => basic_total_questions (basic_stats d uid) = 0
  end
  /\ basic_total_sessions (basic_stats d uid)
     <= basic_total_questions (basic_stats d uid).
Proof.
  unfold basic_stats. simpl.
  set (rows := filter _ (learning_logs d)). split.
  - destruct rows as [|r rows0] eqn:Hr; [reflexivity|].
    split; [apply sum_correct_le|simpl; lia].
  - rewrite <- (length_fmap l_session_id rows).
    generalize (l_session_id <$> rows). intros l.
    induction l as [|x l IH].
    + by rewrite list_to_set_nil, size_empty.
    + rewrite list_to_set_cons, size_union_alt, size_singleton.
      assert (size (list_to_set l ∖ {[x]} : gset string)
              <= size (list_to_set l : gset string)) as Hsz
        by (apply subseteq_size, subseteq_difference_l; reflexivity).
      simpl. lia.
Qed.

End AnswerStatistics.

(** X29.  Every answer processed in a valid session whose user id and
    question id fit SQLite's 64-bit integers is counted once in
    [get_user_statistics] of the session's user: the number of answered
    questions grows by one, the number of correct answers by one exactly
    when the answer was correct, and, the question being stored, so do
    the counts of its group in the grouped statistics ([by_cefr] is
    [grouped_stats cefr], [by_pos] is [grouped_stats pos]).  When one of
    the ids does not fit, the answer is not logged and the user's
    statistics stay as they were.  The statistics of every other user
    stay as they were in either case. *)
Theorem processed_answer_is_counted
    (ig : Z -> question_data -> string -> image_outcome)
    (d : DatabaseManager.db) (sid : string) (qid : Z) (q : question_data)
    (a : string) (s : DatabaseManager.session_row) :
  DatabaseManager.get_session_info d sid = Some s ->
  let d' := snd (ResultProcessor.process_user_answer ig d sid qid q a) in
  let correct :=
    bool_decide (Py.lower (Py.strip a) = Py.lower (Py.strip (answer q))) in
  let before :=
    UserStatistics.get_user_statistics d (DatabaseManager.user_id s) in
  let after :=
    UserStatistics.get_user_statistics d' (DatabaseManager.user_id s) in
  (if DatabaseManager.sqlite_integer (DatabaseManager.user_id s)
      && DatabaseManager.sqlite_integer qid
   then
     UserStatistics.basic_total_questions (UserStatistics.stat_basic after)
     = S (UserStatistics.basic_total_questions
            (UserStatistics.stat_basic before))
     /\ UserStatistics.basic_correct_answers
          (UserStatistics.stat_basic after)
        = Some (default 0 (UserStatistics.basic_correct_answers
                             (UserStatistics.stat_basic before))
                + (if correct then 1 else 0))
     /\ (forall (key : question_data -> string) stored,
           DatabaseManager.get_question_by_id d qid = Some stored ->
           UserStatistics.grouped_stats key d' (DatabaseManager.user_id s)
             !! key stored
           = Some (S (fst (default (0, 0)
                             (UserStatistics.grouped_stats key d
                                (DatabaseManager.user_id s) !! key stored))),
                   snd (default (0, 0)
                          (UserStatistics.grouped_stats key d
                             (DatabaseManager.user_id s) !! key stored))
                   + (if correct then 1 else 0)))
     /\ (DatabaseManager.get_question_by_id d qid = None ->
         UserStatistics.by_cefr after = UserStatistics.by_cefr before
         /\ UserStatistics.by_pos after = UserStatistics.by_pos before)
   else after = before)
  /\ (forall other, other ≠ DatabaseManager.user_id s ->
        UserStatistics.get_user_statistics d' other
        = UserStatistics.get_user_statistics d other).
Proof.
  intros Hs d' correct before after.
  destruct (DatabaseManager.sqlite_integer (DatabaseManager.user_id s)
            && DatabaseManager.sqlite_integer qid) eqn:Hfits.
  - destruct (answer_statistics_facts ig d sid qid q a s Hs Hfits)
      as (Ht & Hc & Hg & Hn & Ho).
    split; [|exact Ho]. split; [exact Ht|]. split; [exact Hc|].
    split; [exact Hg | exact Hn].
  - destruct (logs_after_unlogged_answer ig d sid qid q a s Hs Hfits)
      as [Hl Hq].
    split; [|intros other _]; by apply statistics_of_same_logs.
Qed.

Lemma processed_answer_is_counted_witness :
  UserStatistics.basic_total_questions
    (UserStatistics.stat_basic
       (UserStatistics.get_user_statistics
          (snd (ResultProcessor.process_user_answer failing_generator
                  example_db "s1" 1 example_question "cat")) 1))
  = 1.
Proof.
  exact (proj1 (proj1 (processed_answer_is_counted failing_generator
                         example_db "s1" 1 example_question "cat"
                         example_session eq_refl))).
Defined.

(** X30.  The counts of [get_user_statistics] are consistent: the number of
    correct answers is absent exactly when the user has answered nothing
    and otherwise is at most the number of answers, and the number of
    distinct sessions is at most the number of answers. *)
Theorem basic_statistics_consistent (d : DatabaseManager.db) (uid : Z) :
  let basic :=
    UserStatistics.stat_basic (UserStatistics.get_user_statistics d uid) in
  match UserStatistics.basic_correct_answers basic with
  | Some correct =>
      correct <= UserStatistics.basic_total_questions basic
      /\ 0 < UserStatistics.basic_total_questions basic
  | None => UserStatistics.basic_total_questions basic = 0
  end
  /\ UserStatistics.basic_total_sessions basic
     <= UserStatistics.basic_total_questions basic.
Proof. apply basic_stats_facts. Qed.
